(** * CircuitSense grid circuits: topology, netlist assembly, SPICE text

    A shallow embedding of [ppm_construction/data_syn/grid_rules.py]
    (class [Circuit], [gen_circuit] for note v11, [reassign_unique_labels])
    and of [compute_stat_info] from [ppm_construction/data_syn/generate.py],
    followed by the properties of the specification that concern them. *)

From Stdlib Require Import List ZArith Bool Arith Lia String Ascii DecimalString FinFun.
From Stdlib Require DecimalZ.
Import ListNotations.

Set Implicit Arguments.

(** ** Enumerations

    The source numbers them with [tuple(range(k))]; the codes are kept
    because tables such as [comp_mean_value] are indexed by them. *)

Inductive component : Set :=
| TYPE_SHORT
| TYPE_VOLTAGE_SOURCE
| TYPE_CURRENT_SOURCE
| TYPE_RESISTOR
| TYPE_CAPACITOR
| TYPE_INDUCTOR
| TYPE_OPEN
| TYPE_VCCS
| TYPE_VCVS
| TYPE_CCCS
| TYPE_CCVS
| TYPE_OPAMP_INVERTING
| TYPE_OPAMP_NONINVERTING
| TYPE_OPAMP_BUFFER
| TYPE_OPAMP_INTEGRATOR
| TYPE_OPAMP_DIFFERENTIATOR
| TYPE_OPAMP_SUMMING
| TYPE_BJT_SMALL_SIGNAL
| TYPE_MOSFET_SMALL_SIGNAL.

Definition component_code (t : component) : nat :=
  match t with
  | TYPE_SHORT => 0
  | TYPE_VOLTAGE_SOURCE => 1
  | TYPE_CURRENT_SOURCE => 2
  | TYPE_RESISTOR => 3
  | TYPE_CAPACITOR => 4
  | TYPE_INDUCTOR => 5
  | TYPE_OPEN => 6
  | TYPE_VCCS => 7
  | TYPE_VCVS => 8
  | TYPE_CCCS => 9
  | TYPE_CCVS => 10
  | TYPE_OPAMP_INVERTING => 11
  | TYPE_OPAMP_NONINVERTING => 12
  | TYPE_OPAMP_BUFFER => 13
  | TYPE_OPAMP_INTEGRATOR => 14
  | TYPE_OPAMP_DIFFERENTIATOR => 15
  | TYPE_OPAMP_SUMMING => 16
  | TYPE_BJT_SMALL_SIGNAL => 17
  | TYPE_MOSFET_SMALL_SIGNAL => 18
  end.

Definition component_of_code (k : nat) : component :=
  match k with
  | 0 => TYPE_SHORT
  | 1 => TYPE_VOLTAGE_SOURCE
  | 2 => TYPE_CURRENT_SOURCE
  | 3 => TYPE_RESISTOR
  | 4 => TYPE_CAPACITOR
  | 5 => TYPE_INDUCTOR
  | 6 => TYPE_OPEN
  | 7 => TYPE_VCCS
  | 8 => TYPE_VCVS
  | 9 => TYPE_CCCS
  | 10 => TYPE_CCVS
  | 11 => TYPE_OPAMP_INVERTING
  | 12 => TYPE_OPAMP_NONINVERTING
  | 13 => TYPE_OPAMP_BUFFER
  | 14 => TYPE_OPAMP_INTEGRATOR
  | 15 => TYPE_OPAMP_DIFFERENTIATOR
  | 16 => TYPE_OPAMP_SUMMING
  | 17 => TYPE_BJT_SMALL_SIGNAL
  | _ => TYPE_MOSFET_SMALL_SIGNAL
  end.

Definition component_eqb (a b : component) : bool :=
  Nat.eqb (component_code a) (component_code b).

Inductive meas_type : Set :=
| MEAS_TYPE_NONE
| MEAS_TYPE_VOLTAGE
| MEAS_TYPE_CURRENT.

Definition meas_eqb (a b : meas_type) : bool :=
  match a, b with
  | MEAS_TYPE_NONE, MEAS_TYPE_NONE => true
  | MEAS_TYPE_VOLTAGE, MEAS_TYPE_VOLTAGE => true
  | MEAS_TYPE_CURRENT, MEAS_TYPE_CURRENT => true
  | _, _ => false
  end.

Inductive unit_mode : Set :=
| UNIT_MODE_1
| UNIT_MODE_k
| UNIT_MODE_m
| UNIT_MODE_u
| UNIT_MODE_n
| UNIT_MODE_p.

(** [x in [a, b, ...]] on component types. *)
Definition type_in (t : component) (l : list component) : bool :=
  existsb (component_eqb t) l.

(** ** Exceptions and outcomes *)

Inductive exn : Set :=
| NotImplementedError
| AssertionError
| KeyError.

(** [Diverged] is the answer of a bounded loop that used up its bound:
    the flood fill out of fuel ([_get_grid_nodes_total] shows that this
    never happens), the naming loop of [_to_SPICE], and the sampling loop
    of [gen_circuit] when no round of draws is accepted. *)
Inductive outcome (A : Type) : Type :=
| Ok (a : A)
| Raise (e : exn)
| Diverged.

Arguments Ok {A} a.
Arguments Raise {A} e.
Arguments Diverged {A}.

Definition bind {A B : Type} (x : outcome A) (f : A -> outcome B) : outcome B :=
  match x with
  | Ok a => f a
  | Raise e => Raise e
  | Diverged => Diverged
  end.

Notation "x <- c1 ;; c2" := (bind c1 (fun x => c2))
  (at level 61, c1 at next level, right associativity).

(** ** Data model

    The source keeps one numpy array per attribute ([vcomp_type],
    [vcomp_label], ...), all indexed by the same edge position; the
    embedding keeps one record per edge position.  [has_edge] is only ever
    tested for truth, so it is a [bool]. *)

Record edge : Set := mk_edge {
  has_edge : bool;
  comp_type : component;
  comp_label : Z;
  comp_value : Z;
  comp_value_unit : unit_mode;
  comp_direction : Z;
  comp_measure : meas_type;
  comp_measure_label : Z;
  comp_measure_direction : Z;
  comp_control_meas_label : Z
}.

(** [vedge i j] joins junction [(i,j)] to [(i+1,j)] (for [i < m-1]);
    [hedge i j] joins [(i,j)] to [(i,j+1)] (for [j < n-1]). *)
Record grid : Type := mk_grid {
  dim_m : nat;
  dim_n : nat;
  vedge : nat -> nat -> edge;
  hedge : nat -> nat -> edge
}.

Definition cell : Set := (nat * nat)%type.

(** The junctions in the order of [for i in range(m): for j in range(n)]. *)
Definition range2 (a b : nat) : list cell :=
  flat_map (fun i => map (fun j => (i, j)) (seq 0 b)) (seq 0 a).

Definition cells (g : grid) : list cell := range2 (dim_m g) (dim_n g).

Definition truthy (z : Z) : bool := negb (Z.eqb z 0).

(** ** [Circuit._init_degree] and [Circuit._check_circuit_valid_by_degree] *)

(** [has_edge and comp_type != TYPE_OPEN], added to a degree. *)
Definition counts_for_degree (e : edge) : nat :=
  if has_edge e && negb (component_eqb (comp_type e) TYPE_OPEN) then 1 else 0.

Definition _init_degree (g : grid) (i j : nat) : nat :=
  (if 0 <? j then counts_for_degree (hedge g i (j - 1)) else 0) +
  (if j <? dim_n g - 1 then counts_for_degree (hedge g i j) else 0) +
  (if 0 <? i then counts_for_degree (vedge g (i - 1) j) else 0) +
  (if i <? dim_m g - 1 then counts_for_degree (vedge g i j) else 0).

(** The flag starts [True] and is cleared at every junction of degree 1. *)
Definition _check_circuit_valid_by_degree (g : grid) : bool :=
  fold_left (fun valid c => if _init_degree g (fst c) (snd c) =? 1 then false else valid)
            (cells g) true.

(** ** [Circuit._get_grid_nodes]: flood fill over unmeasured shorts *)

(** [has_edge and comp_type == TYPE_SHORT and comp_measure == MEAS_TYPE_NONE] *)
Definition traversable (e : edge) : bool :=
  has_edge e && component_eqb (comp_type e) TYPE_SHORT
             && meas_eqb (comp_measure e) MEAS_TYPE_NONE.

Definition visited_map : Type := nat -> nat -> bool.

Definition mark (vis : visited_map) (i j : nat) : visited_map :=
  fun x y => if (x =? i) && (y =? j) then true else vis x y.

Definition dfs_state : Type := (visited_map * list cell)%type.

(** The nested function [dfs(i, j, component)].  It recurses on a grid
    position, not on a structure, so the embedding is bounded by [fuel];
    indices are naturals, which covers the tests [i < 0] and [j < 0]
    (a recursive call is only made at [i-1] when [i > 0]). *)
Fixpoint dfs (fuel : nat) (g : grid) (i j : nat) (st : dfs_state) : option dfs_state :=
  match fuel with
  | O => None
  | S fuel' =>
    let '(vis, component) := st in
    if (dim_m g <=? i) || (dim_n g <=? j) || vis i j then Some st
    else
      let st1 := (mark vis i j, component ++ [(i, j)]) in
      match (if (0 <? i) && traversable (vedge g (i - 1) j)
             then dfs fuel' g (i - 1) j st1 else Some st1) with
      | None => None
      | Some st2 =>
        match (if (0 <? j) && traversable (hedge g i (j - 1))
               then dfs fuel' g i (j - 1) st2 else Some st2) with
        | None => None
        | Some st3 =>
          match (if (i <? dim_m g - 1) && traversable (vedge g i j)
                 then dfs fuel' g (i + 1) j st3 else Some st3) with
          | None => None
          | Some st4 =>
            if (j <? dim_n g - 1) && traversable (hedge g i j)
            then dfs fuel' g i (j + 1) st4 else Some st4
          end
        end
      end
  end.

(** The double loop that starts a fresh component at every junction not
    yet visited; the state is [(visited, components)]. *)
Definition components_step (fuel : nat) (g : grid)
    (acc : option (visited_map * list (list cell))) (c : cell)
    : option (visited_map * list (list cell)) :=
  match acc with
  | None => None
  | Some (vis, components) =>
    if vis (fst c) (snd c) then Some (vis, components)
    else match dfs fuel g (fst c) (snd c) (vis, []) with
         | None => None
         | Some (vis', component) => Some (vis', components ++ [component])
         end
  end.

Definition grid_components (g : grid) : option (list (list cell)) :=
  match fold_left (components_step (S (dim_m g * dim_n g)) g) (cells g)
                  (Some (fun _ _ => false, [])) with
  | None => None
  | Some (_, components) => Some components
  end.

Definition node_map : Type := nat -> nat -> Z.

Definition set_node (gn : node_map) (x y : nat) (v : Z) : node_map :=
  fun a b => if (a =? x) && (b =? y) then v else gn a b.

(** [for i in range(len(components)): for x, y in components[i]:
       grid_nodes[x][y] = i], starting from [np.zeros((m, n))]. *)
Fixpoint fill_nodes (components : list (list cell)) (i : Z) (gn : node_map) : node_map :=
  match components with
  | [] => gn
  | comp :: rest =>
    fill_nodes rest (i + 1)
      (fold_left (fun acc c => set_node acc (fst c) (snd c) i) comp gn)
  end.

(** Returns [grid_nodes] together with the number of components (the
    source stores [self.nodes = ["0", ..., str(len(components)-1)]]). *)
Definition _get_grid_nodes (g : grid) : option (node_map * nat) :=
  match grid_components g with
  | None => None
  | Some components =>
    Some (fill_nodes components 0 (fun _ _ => 0%Z), List.length components)
  end.

(** The spec's words for an electrical node: junctions joined by a chain
    of present edges of type short carrying no measurement. *)
Definition in_grid (g : grid) (c : cell) : Prop :=
  fst c < dim_m g /\ snd c < dim_n g.

Inductive short_link (g : grid) : cell -> cell -> Prop :=
| link_down : forall i j,
    S i < dim_m g -> j < dim_n g ->
    has_edge (vedge g i j) = true ->
    comp_type (vedge g i j) = TYPE_SHORT ->
    comp_measure (vedge g i j) = MEAS_TYPE_NONE ->
    short_link g (i, j) (S i, j)
| link_up : forall i j,
    S i < dim_m g -> j < dim_n g ->
    has_edge (vedge g i j) = true ->
    comp_type (vedge g i j) = TYPE_SHORT ->
    comp_measure (vedge g i j) = MEAS_TYPE_NONE ->
    short_link g (S i, j) (i, j)
| link_right : forall i j,
    i < dim_m g -> S j < dim_n g ->
    has_edge (hedge g i j) = true ->
    comp_type (hedge g i j) = TYPE_SHORT ->
    comp_measure (hedge g i j) = MEAS_TYPE_NONE ->
    short_link g (i, j) (i, S j)
| link_left : forall i j,
    i < dim_m g -> S j < dim_n g ->
    has_edge (hedge g i j) = true ->
    comp_type (hedge g i j) = TYPE_SHORT ->
    comp_measure (hedge g i j) = MEAS_TYPE_NONE ->
    short_link g (i, S j) (i, j).

Inductive short_path (g : grid) : cell -> cell -> Prop :=
| path_here : forall c, short_path g c c
| path_step : forall c d e, short_path g c d -> short_link g d e -> short_path g c e.

(** ** Branches

    A branch is the dictionary built in [_init_netlist].  The keys ["n1"]
    and ["n2"] hold [str(k)] for an integer node number [k], and the code
    only compares these strings and converts them back with [int]; the
    embedding keeps [k].  The key ["info"] is the constant [""] and is
    left out. *)

Record branch : Set := mk_branch {
  br_n1 : Z;
  br_n2 : Z;
  br_type : component;
  br_label : Z;
  br_value : Z;
  br_value_unit : unit_mode;
  br_measure : meas_type;
  br_measure_label : Z;
  br_meas_comp_same_direction : bool;
  br_control_measure_label : Z;
  br_order : nat
}.

(** ** [Circuit._check_conflict_component_measure] *)

Definition conflict_pairs : list (component * meas_type) :=
  [ (TYPE_SHORT, MEAS_TYPE_VOLTAGE);
    (TYPE_OPEN, MEAS_TYPE_CURRENT);
    (TYPE_VOLTAGE_SOURCE, MEAS_TYPE_VOLTAGE);
    (TYPE_VCVS, MEAS_TYPE_VOLTAGE);
    (TYPE_CCVS, MEAS_TYPE_VOLTAGE);
    (TYPE_CURRENT_SOURCE, MEAS_TYPE_CURRENT);
    (TYPE_VCCS, MEAS_TYPE_CURRENT);
    (TYPE_CCCS, MEAS_TYPE_CURRENT) ].

Definition _check_conflict_component_measure (t : component) (ms : meas_type) : bool :=
  existsb (fun pair => component_eqb t (fst pair) && meas_eqb ms (snd pair)) conflict_pairs.

(** ** [Circuit._init_netlist] *)

(** State of the assembly loop: still running with [branches] and
    [add_order], or left through [self.valid = False; return False]. *)
Inductive asm_state : Set :=
| Running (branches : list branch) (add_order : nat)
| Rejected (branches : list branch).

(** What the loop body does with one present edge whose end junctions
    resolve to nodes [a] (at [(i,j)]) and [b] (at [(i,j+1)] or [(i+1,j)]);
    the source spells this block out once for [hedge] and once for
    [vedge]. *)
Definition add_edge (e : edge) (a b : Z) (branches : list branch) (add_order : nat)
    : asm_state :=
  if Z.eqb a b then
    if negb (component_eqb (comp_type e) TYPE_SHORT) then Rejected branches
    else Running branches add_order
  else
    let n1 := if truthy (comp_direction e) then b else a in
    let n2 := if truthy (comp_direction e) then a else b in
    let new_branch :=
      {| br_n1 := n1;
         br_n2 := n2;
         br_type := comp_type e;
         br_label := comp_label e;
         br_value := comp_value e;
         br_value_unit := comp_value_unit e;
         br_measure := comp_measure e;
         br_measure_label := comp_measure_label e;
         br_meas_comp_same_direction :=
           Z.eqb (comp_measure_direction e) (comp_direction e);
         br_control_measure_label := comp_control_meas_label e;
         br_order := add_order |} in
    if _check_conflict_component_measure (comp_type e) (comp_measure e)
    then Rejected branches
    else Running (branches ++ [new_branch]) (add_order + 1).

(** Body of [for i in range(m): for j in range(n)]; [note] is
    [int(self.note[1:])]. *)
Definition netlist_cell (note : Z) (g : grid) (gn : node_map)
    (acc : outcome asm_state) (c : cell) : outcome asm_state :=
  match acc with
  | Ok (Running branches add_order) =>
    let i := fst c in
    let j := snd c in
    if (note <=? 9)%Z then Raise NotImplementedError
    else
      s1 <- (if (j <? dim_n g - 1) && has_edge (hedge g i j) then
               if component_eqb (comp_type (hedge g i j)) TYPE_OPEN
               then Raise AssertionError
               else Ok (add_edge (hedge g i j) (gn i j) (gn i (j + 1))
                                 branches add_order)
             else Ok (Running branches add_order)) ;;
      match s1 with
      | Running branches1 add_order1 =>
        if (i <? dim_m g - 1) && has_edge (vedge g i j)
        then Ok (add_edge (vedge g i j) (gn i j) (gn (i + 1) j)
                          branches1 add_order1)
        else Ok s1
      | Rejected _ => Ok s1
      end
  | _ => acc
  end.

Definition assemble (note : Z) (g : grid) (gn : node_map) : outcome asm_state :=
  fold_left (netlist_cell note g gn) (cells g) (Ok (Running [] 0)).

(** [[... for b in self.branches if b['measure_label'] ==
    br['control_measure_label'] and b['measure'] == kind]] *)
Definition control_matches (kind : meas_type) (branches : list branch) (br : branch)
    : list branch :=
  filter (fun b => Z.eqb (br_measure_label b) (br_control_measure_label br)
                   && meas_eqb (br_measure b) kind) branches.

(** The loop of lines 1460-1465: it runs over every branch, whatever its
    type, and looks for voltage measurements only. *)
Definition control_check (branches : list branch) : bool :=
  forallb (fun br =>
             List.length (control_matches MEAS_TYPE_VOLTAGE branches br) =? 1)
          branches.

Inductive analysis : Set := dc_analysis | ac_analysis.

Definition analysis_of (branches : list branch) : analysis :=
  if existsb (fun br => type_in (br_type br) [TYPE_CAPACITOR; TYPE_INDUCTOR]) branches
  then ac_analysis else dc_analysis.

(** [vs_neg_node_old]: the ["n2"] of the first voltage source branch. *)
Definition vs_neg_node_old (branches : list branch) : option Z :=
  match find (fun b => component_eqb (br_type b) TYPE_VOLTAGE_SOURCE) branches with
  | Some b => Some (br_n2 b)
  | None => None
  end.

(** The dictionary [node_map] of the source, which has an entry for every
    node that occurs in a branch, read as a function. *)
Definition remap_node (vs_neg : Z) (node : Z) : Z :=
  if Z.eqb node vs_neg then 0%Z else (node + 1)%Z.

Definition remap_branch (vs_neg : Z) (b : branch) : branch :=
  {| br_n1 := remap_node vs_neg (br_n1 b);
     br_n2 := remap_node vs_neg (br_n2 b);
     br_type := br_type b;
     br_label := br_label b;
     br_value := br_value b;
     br_value_unit := br_value_unit b;
     br_measure := br_measure b;
     br_measure_label := br_measure_label b;
     br_meas_comp_same_direction := br_meas_comp_same_direction b;
     br_control_measure_label := br_control_measure_label b;
     br_order := br_order b |}.

(** Lines 1489-1513: re-grounding of the branch list. *)
Definition reground (branches : list branch) : list branch :=
  match vs_neg_node_old branches with
  | None => branches
  | Some vs_neg => map (remap_branch vs_neg) branches
  end.

(** Lines 1516-1520: [grid_nodes + 1], then [old_neg_idx + 1] becomes 0. *)
Definition reground_grid_nodes (vs_neg : Z) (gn : node_map) : node_map :=
  fun i j => if Z.eqb (gn i j + 1) (vs_neg + 1) then 0%Z else (gn i j + 1)%Z.

Fixpoint insert_sorted (x : Z) (l : list Z) : list Z :=
  match l with
  | [] => [x]
  | y :: r => if (x <? y)%Z then x :: l
              else if (x =? y)%Z then l
              else y :: insert_sorted x r
  end.

(** [sorted(list(set(int(x) for x in grid_nodes.flatten())))] *)
Definition unique_node_ids (g : grid) (gn : node_map) : list Z :=
  fold_right insert_sorted [] (map (fun c => gn (fst c) (snd c)) (cells g)).

Record netlist : Type := mk_netlist {
  nl_valid : bool;
  nl_branches : list branch;
  nl_grid_nodes : node_map;
  nl_nodes : list Z;
  nl_analysis_type : option analysis
}.

(** [valid] is the flag as [_check_circuit_valid_by_degree] left it; the
    method only ever clears it. *)
Definition _init_netlist (note : Z) (g : grid) (valid : bool) : outcome netlist :=
  match _get_grid_nodes g with
  | None => Diverged
  | Some (gn, k) =>
    let nodes0 := map Z.of_nat (seq 0 k) in
    s <- assemble note g gn ;;
    match s with
    | Rejected branches => Ok (mk_netlist false branches gn nodes0 None)
    | Running branches _ =>
      if negb (control_check branches)
      then Ok (mk_netlist false branches gn nodes0 None)
      else
        let an := analysis_of branches in
        match vs_neg_node_old branches with
        | None => Ok (mk_netlist valid branches gn nodes0 (Some an))
        | Some vs_neg =>
          let gn' := reground_grid_nodes vs_neg gn in
          Ok (mk_netlist valid (reground branches) gn'
                         (unique_node_ids g gn') (Some an))
        end
    end
  end.

(** ** [Circuit.__init__]

    After [_init_netlist] the constructor only prepares the drawing
    (spacing, font size, placement of measurement labels); none of it
    touches [branches], [grid_nodes] or [valid]. *)
Record circuit : Type := mk_circuit {
  note_version : Z;
  the_grid : grid;
  use_value_annotation : bool;
  rlc_mode : bool;
  valid : bool;
  branches : list branch;
  grid_nodes : node_map;
  nodes : list Z;
  analysis_type : option analysis
}.

Definition Circuit (note : Z) (g : grid) (use_value_annotation rlc : bool)
    : outcome circuit :=
  let valid0 := _check_circuit_valid_by_degree g in
  nl <- _init_netlist note g valid0 ;;
  Ok (mk_circuit note g use_value_annotation rlc
                 (nl_valid nl) (nl_branches nl) (nl_grid_nodes nl)
                 (nl_nodes nl) (nl_analysis_type nl)).

(** ** [compute_stat_info] (generate.py) *)

Record stat_info : Set := mk_stat_info {
  num_nodes : nat;
  num_branches : nat;
  num_resistors : nat;
  num_capacitors : nat;
  num_inductors : nat;
  num_voltage_sources : nat;
  num_current_sources : nat;
  num_controlled_sources : nat;
  num_shorts : nat;
  num_voltage_measurements : nat;
  num_current_measurements : nat;
  num_opamps : nat;
  num_opamp_inverting : nat;
  num_opamp_noninverting : nat;
  num_opamp_buffer : nat;
  num_opamp_integrator : nat;
  num_opamp_differentiator : nat;
  num_opamp_summing : nat
}.

(** [len([1 for br in circ.branches if p(br)])] *)
Definition count_branches (p : branch -> bool) (bs : list branch) : nat :=
  List.length (filter p bs).

Definition has_type (t : component) (br : branch) : bool :=
  component_eqb (br_type br) t.

Definition compute_stat_info (circ : circuit) : stat_info :=
  let bs := branches circ in
  {| num_nodes := List.length (nodes circ);
     num_branches := List.length bs;
     num_resistors := count_branches (has_type TYPE_RESISTOR) bs;
     num_capacitors := count_branches (has_type TYPE_CAPACITOR) bs;
     num_inductors := count_branches (has_type TYPE_INDUCTOR) bs;
     num_voltage_sources := count_branches (has_type TYPE_VOLTAGE_SOURCE) bs;
     num_current_sources := count_branches (has_type TYPE_CURRENT_SOURCE) bs;
     num_controlled_sources :=
       count_branches
         (fun br => type_in (br_type br) [TYPE_VCCS; TYPE_VCVS; TYPE_CCCS; TYPE_CCVS]) bs;
     num_shorts := count_branches (has_type TYPE_SHORT) bs;
     num_voltage_measurements :=
       count_branches
         (fun br => has_type TYPE_RESISTOR br
                    && meas_eqb (br_measure br) MEAS_TYPE_VOLTAGE) bs;
     num_current_measurements :=
       count_branches
         (fun br => has_type TYPE_RESISTOR br
                    && meas_eqb (br_measure br) MEAS_TYPE_CURRENT) bs;
     num_opamps :=
       count_branches
         (fun br => type_in (br_type br)
                      [TYPE_OPAMP_INVERTING; TYPE_OPAMP_NONINVERTING; TYPE_OPAMP_BUFFER;
                       TYPE_OPAMP_INTEGRATOR; TYPE_OPAMP_DIFFERENTIATOR;
                       TYPE_OPAMP_SUMMING]) bs;
     num_opamp_inverting := count_branches (has_type TYPE_OPAMP_INVERTING) bs;
     num_opamp_noninverting := count_branches (has_type TYPE_OPAMP_NONINVERTING) bs;
     num_opamp_buffer := count_branches (has_type TYPE_OPAMP_BUFFER) bs;
     num_opamp_integrator := count_branches (has_type TYPE_OPAMP_INTEGRATOR) bs;
     num_opamp_differentiator := count_branches (has_type TYPE_OPAMP_DIFFERENTIATOR) bs;
     num_opamp_summing := count_branches (has_type TYPE_OPAMP_SUMMING) bs |}.

(** ** [Circuit._to_SPICE]: the device lines

    The embedding covers the loop over the branches that builds
    [spice_str] (lines 1550-1793), with Python's string operations on
    [string]; the simulation block that is wrapped around it afterwards
    is not modelled. *)

Local Open Scope string_scope.

Definition newline : string := String (ascii_of_nat 10) EmptyString.

(** [str(k)] for an integer [k]. *)
Definition str (z : Z) : string := NilZero.string_of_int (Z.to_int z).

(** One line made with ["%s %s ... %s\n" % (...)]. *)
Definition fmt_line (words : list string) : string :=
  String.concat " " words ++ newline.

Fixpoint replace_from (old new s : string) (skip : nat) : string :=
  match s with
  | EmptyString => EmptyString
  | String c rest =>
    match skip with
    | S k => replace_from old new rest k
    | O =>
      if prefix old s
      then new ++ replace_from old new rest (String.length old - 1)
      else String c (replace_from old new rest 0)
    end
  end.

(** [s.replace(old, new)] for a non-empty [old]. *)
Definition replace (old new s : string) : string := replace_from old new s 0.

(** [s[1:]] *)
Definition drop_first (s : string) : string :=
  match s with
  | EmptyString => EmptyString
  | String _ rest => rest
  end.

Definition unit_scales (u : unit_mode) : string :=
  match u with
  | UNIT_MODE_1 => EmptyString
  | UNIT_MODE_k => "k"
  | UNIT_MODE_m => "m"
  | UNIT_MODE_u => "\mu"
  | UNIT_MODE_n => "n"
  | UNIT_MODE_p => "p"
  end.

Definition SPICE_PREFFIX (t : component) : string :=
  match t with
  | TYPE_RESISTOR => "R"
  | TYPE_CAPACITOR => "C"
  | TYPE_INDUCTOR => "L"
  | TYPE_VOLTAGE_SOURCE => "V"
  | TYPE_CURRENT_SOURCE => "I"
  | TYPE_VCCS => "G"
  | TYPE_VCVS => "E"
  | TYPE_CCCS => "F"
  | TYPE_CCVS => "H"
  | TYPE_OPEN => EmptyString
  | TYPE_SHORT => EmptyString
  | _ => "X"
  end.

Definition unit_code (u : unit_mode) : nat :=
  match u with
  | UNIT_MODE_1 => 0
  | UNIT_MODE_k => 1
  | UNIT_MODE_m => 2
  | UNIT_MODE_u => 3
  | UNIT_MODE_n => 4
  | UNIT_MODE_p => 5
  end.

Definition unit_eqb (a b : unit_mode) : bool := Nat.eqb (unit_code a) (unit_code b).

(** [temp_br == control_branch] on two branch dictionaries. *)
Definition branch_eqb (a b : branch) : bool :=
  Z.eqb (br_n1 a) (br_n1 b) && Z.eqb (br_n2 a) (br_n2 b)
  && component_eqb (br_type a) (br_type b)
  && Z.eqb (br_label a) (br_label b) && Z.eqb (br_value a) (br_value b)
  && unit_eqb (br_value_unit a) (br_value_unit b)
  && meas_eqb (br_measure a) (br_measure b)
  && Z.eqb (br_measure_label a) (br_measure_label b)
  && Bool.eqb (br_meas_comp_same_direction a) (br_meas_comp_same_direction b)
  && Z.eqb (br_control_measure_label a) (br_control_measure_label b)
  && Nat.eqb (br_order a) (br_order b).

(** [sorted(self.branches, key=lambda x: x["order"])], a stable sort. *)
Fixpoint insert_by_order (b : branch) (l : list branch) : list branch :=
  match l with
  | [] => [b]
  | x :: r => if (br_order b <? br_order x)%nat then b :: l
              else x :: insert_by_order b r
  end.

Definition sorted_branches (bs : list branch) : list branch :=
  fold_left (fun acc b => insert_by_order b acc) bs [].

Definition counters : Set := list (component * nat).

Definition comp_counters_init : counters :=
  [ (TYPE_RESISTOR, 0%nat); (TYPE_CAPACITOR, 0%nat); (TYPE_INDUCTOR, 0%nat);
    (TYPE_VOLTAGE_SOURCE, 0%nat); (TYPE_CURRENT_SOURCE, 0%nat);
    (TYPE_VCCS, 0%nat); (TYPE_VCVS, 0%nat); (TYPE_CCCS, 0%nat); (TYPE_CCVS, 0%nat) ].

Fixpoint counter_get (cc : counters) (t : component) : option nat :=
  match cc with
  | [] => None
  | (k, v) :: r => if component_eqb k t then Some v else counter_get r t
  end.

Fixpoint counter_set (cc : counters) (t : component) (v : nat) : counters :=
  match cc with
  | [] => []
  | (k, w) :: r => if component_eqb k t then (k, v) :: r
                   else (k, w) :: counter_set r t v
  end.

Definition name_used (name : string) (used : list string) : bool :=
  existsb (String.eqb name) used.

(** [while device_name in used_device_names: ...]; every round yields a
    name with a larger suffix, so [length used + 1] rounds are enough. *)
Fixpoint unique_device_name (fuel : nat) (type_str : string) (label_num : Z)
    (t : component) (device_name : string) (cc : counters) (used : list string)
    : outcome (string * counters) :=
  if name_used device_name used then
    match fuel with
    | O => Diverged
    | S fuel' =>
      match counter_get cc t with
      | None => Raise KeyError
      | Some k =>
        unique_device_name fuel' type_str label_num t
          (type_str ++ str label_num ++ "_" ++ str (Z.of_nat (k + 1)))
          (counter_set cc t (k + 1)%nat) used
      end
    end
  else Ok (device_name, cc).

Record spice_state : Set := mk_spice_state {
  spice_str : string;
  vmeas_counter : nat;
  comp_counters : counters;
  used_device_names : list string;
  diagnostics : list string
}.

Definition vi_name (k : nat) : string := "VI" ++ str (Z.of_nat k).

(** The ammeter line, whose direction follows [meas_comp_same_direction]. *)
Definition ammeter_line (same_direction : bool) (vmeas_str mid_node n2 : string) : string :=
  if same_direction then fmt_line [vmeas_str; mid_node; n2; "0"]
  else fmt_line [vmeas_str; n2; mid_node; "0"].

(** [control_vmeas_counter]: current measurements met up to the control
    branch, in sorted order. *)
Fixpoint control_vmeas_counter (sorted : list branch) (control_branch : branch) (k : nat)
    : nat :=
  match sorted with
  | [] => k
  | temp_br :: r =>
    if meas_eqb (br_measure temp_br) MEAS_TYPE_CURRENT then
      if branch_eqb temp_br control_branch then (k + 1)%nat
      else control_vmeas_counter r control_branch (k + 1)%nat
    else control_vmeas_counter r control_branch k
  end.

Definition opamp_fallback_types : list component :=
  [TYPE_OPAMP_INVERTING; TYPE_OPAMP_NONINVERTING; TYPE_OPAMP_BUFFER;
   TYPE_OPAMP_DIFFERENTIATOR; TYPE_OPAMP_SUMMING].

Section SpiceBranch.

Variable annotate : bool.              (* self.use_value_annotation *)
Variable an : analysis.                (* self.analysis_type *)
Variable all_branches : list branch.   (* self.branches *)
Variable sorted : list branch.         (* sorted_branches *)
Variable br : branch.
Variable device_name : string.

Definition value_write : string :=
  if annotate then str (br_value br) ++ unit_scales (br_value_unit br)
  else "<Empty>".

Definition node1 : string := str (br_n1 br).
Definition node2 : string := str (br_n2 br).
Definition mid_node_of : string := "N" ++ node1 ++ node2.

Definition bump (st : spice_state) : spice_state :=
  mk_spice_state (spice_str st) (vmeas_counter st + 1) (comp_counters st)
                 (used_device_names st) (diagnostics st).

Definition emit (text : string) (st : spice_state) : spice_state :=
  mk_spice_state (spice_str st ++ text) (vmeas_counter st) (comp_counters st)
                 (used_device_names st) (diagnostics st).

Definition rewrite_text (f : string -> string) (st : spice_state) : spice_state :=
  mk_spice_state (f (spice_str st)) (vmeas_counter st) (comp_counters st)
                 (used_device_names st) (diagnostics st).

Definition log (msg : string) (st : spice_state) : spice_state :=
  mk_spice_state (spice_str st) (vmeas_counter st) (comp_counters st)
                 (used_device_names st) (diagnostics st ++ [msg])%list.

(** [if br["type"] == TYPE_SHORT:] *)
Definition emit_short (st : spice_state) : outcome spice_state :=
  if component_eqb (br_type br) TYPE_SHORT then
    if negb (meas_eqb (br_measure br) MEAS_TYPE_CURRENT) then Raise AssertionError
    else
      let st := bump st in
      Ok (emit (fmt_line [vi_name (vmeas_counter st); node1; node2; "0"]) st)
  else Ok st.

(** The device line of a plain two-terminal element ending at [target]. *)
Definition two_terminal_line (target : string) : string :=
  if component_eqb (br_type br) TYPE_VOLTAGE_SOURCE then
    match an with
    | ac_analysis =>
      let amplitude := if negb annotate then device_name else str (br_value br) in
      String.concat " " [device_name; node1; target; "step"; amplitude] ++ newline
    | dc_analysis => fmt_line [device_name; node1; target; value_write]
    end
  else fmt_line [device_name; node1; target; value_write].

(** [if br["type"] in [TYPE_VOLTAGE_SOURCE, TYPE_CURRENT_SOURCE,
    TYPE_RESISTOR, TYPE_CAPACITOR, TYPE_INDUCTOR]:] *)
Definition emit_two_terminal (st : spice_state) : outcome spice_state :=
  if type_in (br_type br)
       [TYPE_VOLTAGE_SOURCE; TYPE_CURRENT_SOURCE; TYPE_RESISTOR; TYPE_CAPACITOR;
        TYPE_INDUCTOR] then
    if meas_eqb (br_measure br) MEAS_TYPE_CURRENT then
      let st := bump st in
      let vmeas_str := vi_name (vmeas_counter st) in
      let st := emit (two_terminal_line mid_node_of) st in
      Ok (emit (ammeter_line (br_meas_comp_same_direction br) vmeas_str
                             mid_node_of node2) st)
    else Ok (emit (two_terminal_line node2) st)
  else Ok st.

Definition gain_value (y_type : component) : string :=
  if negb annotate then
    if component_eqb (br_type br) y_type then "y_" ++ str (br_label br)
    else "x_" ++ str (br_label br)
  else value_write.

(** The device line of a controlled source, with or without ammeter;
    [control] are the words that name the controlling quantity. *)
Definition emit_controlled (control : list string) (gain : string) (st : spice_state)
    : spice_state :=
  if meas_eqb (br_measure br) MEAS_TYPE_CURRENT then
    let st := bump st in
    let vmeas_str := vi_name (vmeas_counter st) in
    let st := emit (fmt_line ([device_name; node1; mid_node_of] ++ control ++ [gain])%list) st in
    emit (ammeter_line (br_meas_comp_same_direction br) vmeas_str mid_node_of node2) st
  else
    emit (fmt_line ([device_name; node1; node2] ++ control ++ [gain])%list) st.

(** [if br["type"] in [TYPE_CCVS, TYPE_CCCS]:] with its assertion. *)
Definition emit_current_controlled (st : spice_state) : outcome spice_state :=
  if type_in (br_type br) [TYPE_CCVS; TYPE_CCCS] then
    match control_matches MEAS_TYPE_CURRENT all_branches br with
    | [control_branch] =>
      let control_measure_str := vi_name (control_vmeas_counter sorted control_branch 0) in
      Ok (emit_controlled [control_measure_str] (gain_value TYPE_CCCS) st)
    | _ => Raise AssertionError
    end
  else Ok st.

(** [if br["type"] in [TYPE_VCVS, TYPE_VCCS]:] with its assertion. *)
Definition emit_voltage_controlled (st : spice_state) : outcome spice_state :=
  if type_in (br_type br) [TYPE_VCVS; TYPE_VCCS] then
    match control_matches MEAS_TYPE_VOLTAGE all_branches br with
    | [control_branch] =>
      Ok (emit_controlled [str (br_n1 control_branch); str (br_n2 control_branch)]
                          (gain_value TYPE_VCCS) st)
    | _ => Raise AssertionError
    end
  else Ok st.

(** [label_num], which is also [int(device_name[1:])] for an op-amp
    branch: its name is ["X"] followed by [str(label_num)], a suffix
    being impossible because no op-amp type is a key of
    [comp_counters]. *)
Definition label_num : Z :=
  if Z.eqb (br_label br) (-1) then 1%Z else br_label br.

(** [if br["type"] == TYPE_OPAMP_INTEGRATOR:] *)
Definition emit_integrator (st : spice_state) : spice_state :=
  let time_constant := if annotate then br_value br else 1%Z in
  let resistor_value :=
    if (10 <? time_constant)%Z then Z.max 1 (time_constant / 10) else 1%Z in
  let capacitor_value :=
    if (resistor_value <? time_constant)%Z
    then Z.max 1 (time_constant - resistor_value) else 1%Z in
  let opamp_num := drop_first device_name in
  let unique_r_name := "Rint" ++ opamp_num in
  let unique_c_name := "Cint" ++ opamp_num in
  let unique_e_name := "Eint" ++ opamp_num in
  let input_node := node1 in
  let output_node := node2 in
  let inverting_node := str (30 + label_num) in
  let st := emit ("* Integrator template: R-C feedback with op-amp" ++ newline) st in
  let r_value_str := if annotate then str resistor_value else "<Empty>" in
  let c_value_str := if annotate then str capacitor_value ++ "e-6" else "<Empty>" in
  let st := emit (fmt_line [unique_r_name; input_node; inverting_node; r_value_str]) st in
  let st := emit (fmt_line [unique_c_name; output_node; inverting_node; c_value_str]) st in
  let differential_gain := if annotate then "100000" else "Ad" in
  let st := emit (fmt_line [unique_e_name; output_node; "0"; "0"; inverting_node;
                            differential_gain]) st in
  if meas_eqb (br_measure br) MEAS_TYPE_CURRENT then
    let mid_node := "Nmeas" ++ opamp_num in
    let st := bump st in
    let vmeas_str := vi_name (vmeas_counter st) in
    let st := emit (fmt_line [vmeas_str; mid_node; output_node; "0"]) st in
    rewrite_text (replace (String.concat " " [unique_e_name; output_node; "0"; "0"])
                          (String.concat " " [unique_e_name; mid_node; "0"; "0"])) st
  else st.

(** [elif br["type"] in [TYPE_OPAMP_INVERTING, ...]:] *)
Definition emit_opamp_fallback (st : spice_state) : spice_state :=
  let st := log ("Warning: Non-integrator op-amp type "
                 ++ str (Z.of_nat (component_code (br_type br)))
                 ++ " found in SPICE generation") st in
  let gain := if annotate then str (br_value br) else "Ad" in
  let st := emit ("* Fallback: Simple op-amp (should be integrator)" ++ newline) st in
  let fallback_name := "E" ++ drop_first device_name in
  let st := emit (fmt_line [fallback_name; node2; "0"; "0"; node1; gain]) st in
  if meas_eqb (br_measure br) MEAS_TYPE_CURRENT then
    let mid_node := "N" ++ node1 ++ node2 in
    let st := bump st in
    let vmeas_str := vi_name (vmeas_counter st) in
    let st := emit (fmt_line [vmeas_str; mid_node; node2; "0"]) st in
    rewrite_text (replace (String.concat " " [fallback_name; node2; "0"; "0"])
                          (String.concat " " [fallback_name; mid_node; "0"; "0"])) st
  else st.

Definition emit_opamp (st : spice_state) : spice_state :=
  if component_eqb (br_type br) TYPE_OPAMP_INTEGRATOR then emit_integrator st
  else if type_in (br_type br) opamp_fallback_types then emit_opamp_fallback st
  else st.

(** Everything the loop body does once the device name is known. *)
Definition emit_branch (st : spice_state) : outcome spice_state :=
  st <- emit_short st ;;
  st <- emit_two_terminal st ;;
  st <- emit_current_controlled st ;;
  st <- emit_voltage_controlled st ;;
  Ok (emit_opamp st).

End SpiceBranch.

(** One round of [for br in sorted_branches:]. *)
Definition spice_branch (annotate : bool) (an : analysis)
    (all_branches sorted : list branch) (st : spice_state) (br : branch)
    : outcome spice_state :=
  let type_str := SPICE_PREFFIX (br_type br) in
  named <- unique_device_name (S (List.length (used_device_names st))) type_str
             (label_num br) (br_type br) (type_str ++ str (label_num br))
             (comp_counters st) (used_device_names st) ;;
  let device_name := fst named in
  let st := mk_spice_state (spice_str st) (vmeas_counter st) (snd named)
                           (device_name :: used_device_names st) (diagnostics st) in
  emit_branch annotate an all_branches sorted br device_name st.

Definition spice_init : spice_state :=
  mk_spice_state EmptyString 0 comp_counters_init [] [].

(** The state when the loop over the branches is over; its [spice_str]
    is what [_to_SPICE] then wraps into the template. *)
Definition _to_SPICE (circ : circuit) : outcome spice_state :=
  let an := if rlc_mode circ then ac_analysis else analysis_of (branches circ) in
  if (note_version circ <=? 9)%Z then Raise NotImplementedError
  else
    fold_left (fun acc br =>
                 st <- acc ;;
                 spice_branch (use_value_annotation circ) an (branches circ)
                              (sorted_branches (branches circ)) st br)
              (sorted_branches (branches circ)) (Ok spice_init).

Local Close Scope string_scope.

(** ** [gen_circuit], the arm for note v11

    Every call to [np.random] / [random] is an input of the embedding: a
    pick is a natural number that selects an element of the list drawn
    from, a [random.random() < p] test is a [bool]. *)

(** An edge position, the tuples [('v', ii, jj)] and [('h', ii, jj)]. *)
Inductive pos : Set :=
| V_at (i j : nat)
| H_at (i j : nat).

Definition pos_eqb (p q : pos) : bool :=
  match p, q with
  | V_at i j, V_at a b => (i =? a) && (j =? b)
  | H_at i j, H_at a b => (i =? a) && (j =? b)
  | _, _ => false
  end.

Definition get_edge (g : grid) (p : pos) : edge :=
  match p with
  | V_at i j => vedge g i j
  | H_at i j => hedge g i j
  end.

Definition set_edge (g : grid) (p : pos) (e : edge) : grid :=
  match p with
  | V_at i j =>
    mk_grid (dim_m g) (dim_n g)
            (fun a b => if (a =? i) && (b =? j) then e else vedge g a b) (hedge g)
  | H_at i j =>
    mk_grid (dim_m g) (dim_n g) (vedge g)
            (fun a b => if (a =? i) && (b =? j) then e else hedge g a b)
  end.

(** [for ii in range(m-1): for jj in range(n)] and
    [for ii in range(m): for jj in range(n-1)]. *)
Definition vpositions (m n : nat) : list pos :=
  map (fun c => V_at (fst c) (snd c)) (range2 (m - 1) n).

Definition hpositions (m n : nat) : list pos :=
  map (fun c => H_at (fst c) (snd c)) (range2 m (n - 1)).

Definition positions (g : grid) : list pos :=
  vpositions (dim_m g) (dim_n g) ++ hpositions (dim_m g) (dim_n g).

Definition with_type (e : edge) (t : component) : edge :=
  mk_edge (has_edge e) t (comp_label e) (comp_value e) (comp_value_unit e)
          (comp_direction e) (comp_measure e) (comp_measure_label e)
          (comp_measure_direction e) (comp_control_meas_label e).

Definition with_value (e : edge) (v : Z) : edge :=
  mk_edge (has_edge e) (comp_type e) (comp_label e) v (comp_value_unit e)
          (comp_direction e) (comp_measure e) (comp_measure_label e)
          (comp_measure_direction e) (comp_control_meas_label e).

Definition with_label (e : edge) (l : Z) : edge :=
  mk_edge (has_edge e) (comp_type e) l (comp_value e) (comp_value_unit e)
          (comp_direction e) (comp_measure e) (comp_measure_label e)
          (comp_measure_direction e) (comp_control_meas_label e).

Definition with_measure (e : edge) (ms : meas_type) : edge :=
  mk_edge (has_edge e) (comp_type e) (comp_label e) (comp_value e) (comp_value_unit e)
          (comp_direction e) ms (comp_measure_label e)
          (comp_measure_direction e) (comp_control_meas_label e).

Definition with_control (e : edge) (l : Z) : edge :=
  mk_edge (has_edge e) (comp_type e) (comp_label e) (comp_value e) (comp_value_unit e)
          (comp_direction e) (comp_measure e) (comp_measure_label e)
          (comp_measure_direction e) l.

(** [random.choice(l)] / [np.random.choice(l)] with pick [k]. *)
Definition choice {A : Type} (l : list A) (k : nat) (d : A) : A :=
  nth (k mod List.length l) l d.

(** [np.random.randint(lo, hi)] with pick [k], for [lo < hi]. *)
Definition randint (lo hi : Z) (k : nat) : Z :=
  (lo + Z.of_nat k mod (hi - lo))%Z.

(** [choices += [op]*dis] over [zip(options, dis)]. *)
Definition weighted {A : Type} (options : list A) (dis : list nat) : list A :=
  flat_map (fun od => repeat (fst od) (snd od)) (combine options dis).

Definition num_grid_choices (simple_circuits : bool) : list nat :=
  if simple_circuits then weighted [2; 3; 4] [8; 6; 1]
  else weighted [2; 3; 4; 5; 6; 7; 8] [6; 8; 2; 0; 0; 0; 0].

Definition num_comp_dis : list nat :=
  [12; 4; 0; 15; 6; 5; 8; 1; 4; 3; 4; 0; 0; 0; 0; 0; 0].

Definition num_comp_dis_outer : list nat :=
  [10; 4; 0; 10; 1; 1; 0; 3; 3; 2; 1; 0; 0; 0; 0; 0; 0].

Definition num_comp_choices : list component :=
  map component_of_code (weighted (seq 0 18) num_comp_dis).

Definition num_comp_choices_outer : list component :=
  map component_of_code (weighted (seq 0 18) num_comp_dis_outer).

Definition comp_mean_value (t : component) : Z :=
  nth (component_code t) [1; 1; 1; 1; 1; 1; 1; 1; 1; 1; 1; 1; 1; 1; 1; 1; 1; 10]%Z 0%Z.

Definition comp_max_value (t : component) : Z :=
  nth (component_code t)
      [100; 100; 100; 100; 100; 100; 100; 100; 100; 100; 100; 50; 50; 1; 10; 10; 50; 100]%Z
      0%Z.

Definition unit_choices : list unit_mode := [UNIT_MODE_1].

Definition meas_choices : list meas_type :=
  repeat MEAS_TYPE_NONE 20 ++ repeat MEAS_TYPE_VOLTAGE 1 ++ repeat MEAS_TYPE_CURRENT 1.

(** [range(-1, 10)] *)
Definition meas_label_choices : list Z :=
  map (fun k => (Z.of_nat k - 1)%Z) (seq 0 11).

Fixpoint remove_first (x : nat) (l : list nat) : list nat :=
  match l with
  | [] => []
  | y :: r => if x =? y then r else y :: remove_first x r
  end.

Definition is_dependent (t : component) : bool :=
  type_in t [TYPE_VCCS; TYPE_VCVS; TYPE_CCCS; TYPE_CCVS].

(** The draws of one round of [while True:]. *)
Record attempt_draws : Type := mk_attempt_draws {
  type_pick : pos -> nat;
  value_pick : pos -> nat;
  unit_pick : pos -> nat;
  measure_pick : pos -> nat;
  label_pick : pos -> nat;
  direction_draw : pos -> bool;
  control_pick : pos -> nat;
  rlc_edge_pick : nat;
  rlc_type_pick : nat;
  rlc_value_pick : nat
}.

Record draws : Type := mk_draws {
  m_pick : nat;
  n_pick : nat;
  attempts : list attempt_draws;
  convert_value_pick : pos -> nat;
  promote_pick : nat;
  promote_value_pick : nat;
  demote_value_pick : pos -> nat;
  integrator_pick : nat;
  integrator_value_pick : nat;
  integrator_demote_value_pick : pos -> nat
}.

(** [np.ones] for [has_*edge], [np.zeros] for every other array. *)
Definition blank_edge : edge :=
  mk_edge true TYPE_SHORT 0 0 UNIT_MODE_1 0 MEAS_TYPE_NONE 0 0 0.

Definition blank_grid (m n : nat) : grid :=
  mk_grid m n (fun _ _ => blank_edge) (fun _ _ => blank_edge).

Record sample_state : Type := mk_sample_state {
  s_grid : grid;
  comp_cnt : component -> Z;
  meas_label_stat : meas_type -> list Z;
  VC_sources : list pos;
  IC_sources : list pos
}.

(** Body of the two sampling loops; [outer] is [j == 0 or j == n-1] for a
    vertical edge and [i == 0 or i == m-1] for a horizontal one. *)
Definition sample_edge (d : attempt_draws) (outer : bool) (st : sample_state) (p : pos)
    : sample_state :=
  let g := s_grid st in
  let t := choice (if outer then num_comp_choices_outer else num_comp_choices)
                  (type_pick d p) TYPE_SHORT in
  let e := get_edge g p in
  let vc := if type_in t [TYPE_VCCS; TYPE_VCVS]
            then VC_sources st ++ [p] else VC_sources st in
  let ic := if type_in t [TYPE_CCCS; TYPE_CCVS]
            then IC_sources st ++ [p] else IC_sources st in
  if component_eqb t TYPE_OPEN then
    let e' := mk_edge false t (comp_label e) (comp_value e) (comp_value_unit e)
                      (comp_direction e) (comp_measure e) (comp_measure_label e)
                      (comp_measure_direction e) (comp_control_meas_label e) in
    mk_sample_state (set_edge g p e') (comp_cnt st) (meas_label_stat st) vc ic
  else
    let value := randint (comp_mean_value t) (comp_max_value t) (value_pick d p) in
    let unit := choice unit_choices (unit_pick d p) UNIT_MODE_1 in
    let cnt := fun x => if component_eqb x t then (comp_cnt st x + 1)%Z
                        else comp_cnt st x in
    let proposed_measure := choice meas_choices (measure_pick d p) MEAS_TYPE_NONE in
    let proposed_label := choice meas_label_choices (label_pick d p) 0%Z in
    let dependent := type_in t [TYPE_VCCS; TYPE_VCVS; TYPE_CCCS; TYPE_CCVS] in
    let ms := if dependent then MEAS_TYPE_NONE else proposed_measure in
    let ml := if dependent then (-1)%Z else proposed_label in
    let stat := if dependent then meas_label_stat st
                else fun k => if meas_eqb k proposed_measure
                              then meas_label_stat st k ++ [proposed_label]
                              else meas_label_stat st k in
    let direction := if direction_draw d p then 1%Z else 0%Z in
    let e' := mk_edge (has_edge e) t (cnt t) value unit direction ms ml
                      (comp_measure_direction e) (comp_control_meas_label e) in
    mk_sample_state (set_edge g p e') cnt stat vc ic.

Definition v_outer (n : nat) (p : pos) : bool :=
  match p with
  | V_at _ j => (j =? 0) || (j =? n - 1)
  | H_at _ _ => false
  end.

Definition h_outer (m : nat) (p : pos) : bool :=
  match p with
  | H_at i _ => (i =? 0) || (i =? m - 1)
  | V_at _ _ => false
  end.

Definition sample_edges (d : attempt_draws) (m n : nat) : sample_state :=
  let st0 := mk_sample_state (blank_grid m n) (fun _ => 0%Z) (fun _ => []) [] [] in
  let st1 := fold_left (fun st p => sample_edge d (v_outer n p) st p) (vpositions m n) st0 in
  fold_left (fun st p => sample_edge d (h_outer m p) st p) (hpositions m n) st1.

(** The four loops that give every controlled source its control label. *)
Definition bind_controls (d : attempt_draws) (labels : list Z) (sources : list pos)
    (g : grid) : grid :=
  fold_left (fun g p =>
               set_edge g p (with_control (get_edge g p)
                                          (choice labels (control_pick d p) 0%Z)))
            sources g.

Definition is_resistor_candidate (g : grid) (p : pos) : bool :=
  has_edge (get_edge g p) && component_eqb (comp_type (get_edge g p)) TYPE_RESISTOR.

(** [if rlc:] inside the sampling loop. *)
Definition ensure_reactive (d : attempt_draws) (g : grid) : grid :=
  let has_reactive :=
    existsb (fun p => type_in (comp_type (get_edge g p)) [TYPE_CAPACITOR; TYPE_INDUCTOR])
            (vpositions (dim_m g) (dim_n g)) in
  if has_reactive then g
  else
    match filter (is_resistor_candidate g) (positions g) with
    | [] => g
    | c0 :: rest =>
      let chosen_edge := choice (c0 :: rest) (rlc_edge_pick d) c0 in
      let make_type := choice [TYPE_CAPACITOR; TYPE_INDUCTOR] (rlc_type_pick d)
                              TYPE_CAPACITOR in
      set_edge g chosen_edge
        (with_value (with_type (get_edge g chosen_edge) make_type)
           (randint (comp_mean_value make_type) (comp_max_value make_type)
                    (rlc_value_pick d)))
    end.

(** One round of [while True:]: [None] stands for [continue]. *)
Definition sample_attempt (m n : nat) (rlc : bool) (d : attempt_draws) : option grid :=
  let st := sample_edges d m n in
  let num_vc_sources := List.length (VC_sources st) in
  let num_ic_sources := List.length (IC_sources st) in
  let num_vmeas := List.length (meas_label_stat st MEAS_TYPE_VOLTAGE) in
  let num_imeas := List.length (meas_label_stat st MEAS_TYPE_CURRENT) in
  let total_dep_sources := num_vc_sources + num_ic_sources in
  if (total_dep_sources <? 1) || (2 <? total_dep_sources) then None
  else if ((0 <? num_vc_sources) && (num_vmeas =? 0))
          || ((0 <? num_ic_sources) && (num_imeas =? 0)) then None
  else
    let g := bind_controls d (meas_label_stat st MEAS_TYPE_VOLTAGE) (VC_sources st)
                           (s_grid st) in
    let g := bind_controls d (meas_label_stat st MEAS_TYPE_CURRENT) (IC_sources st) g in
    Some (if rlc then ensure_reactive d g else g).

(** [while True:] over the successive rounds of draws. *)
Fixpoint sample_loop (m n : nat) (rlc : bool) (rounds : list attempt_draws) : option grid :=
  match rounds with
  | [] => None
  | d :: rest =>
    match sample_attempt m n rlc d with
    | Some g => Some g
    | None => sample_loop m n rlc rest
    end
  end.

(** First pass after sampling: every current source becomes a resistor. *)
Definition convert_current_sources (d : draws) (g : grid) : grid :=
  fold_left
    (fun g p =>
       if component_eqb (comp_type (get_edge g p)) TYPE_CURRENT_SOURCE then
         set_edge g p
           (with_value (with_type (get_edge g p) TYPE_RESISTOR)
              (randint (comp_mean_value TYPE_RESISTOR) (comp_max_value TYPE_RESISTOR)
                       (convert_value_pick d p)))
       else g)
    (positions g) g.

Definition positions_of_type (t : component) (g : grid) : list pos :=
  filter (fun p => component_eqb (comp_type (get_edge g p)) t) (positions g).

Definition voltage_positions (g : grid) : list pos :=
  positions_of_type TYPE_VOLTAGE_SOURCE g.

(** Candidates for promotion to a voltage source: present, not open. *)
Definition is_candidate (g : grid) (p : pos) : bool :=
  has_edge (get_edge g p) && negb (component_eqb (comp_type (get_edge g p)) TYPE_OPEN).

Definition demote_to_resistor (value_pick : pos -> nat) (g : grid) (p : pos) : grid :=
  set_edge g p
    (with_value (with_type (get_edge g p) TYPE_RESISTOR)
       (randint (comp_mean_value TYPE_RESISTOR) (comp_max_value TYPE_RESISTOR)
                (value_pick p))).

(** Lines 3024-3064: exactly one voltage source. *)
Definition enforce_voltage_source (d : draws) (g : grid) : grid :=
  match voltage_positions g with
  | [] =>
    match filter (is_candidate g) (positions g) with
    | [] => g
    | c0 :: rest =>
      let chosen_edge := choice (c0 :: rest) (promote_pick d) c0 in
      set_edge g chosen_edge
        (with_value (with_type (get_edge g chosen_edge) TYPE_VOLTAGE_SOURCE)
           (randint (comp_mean_value TYPE_VOLTAGE_SOURCE)
                    (comp_max_value TYPE_VOLTAGE_SOURCE) (promote_value_pick d)))
    end
  | [keep] => g
  | keep :: rest => fold_left (demote_to_resistor (demote_value_pick d)) rest g
  end.

(** ** [reassign_unique_labels] *)

Definition label_counters_init : counters :=
  map (fun t => (t, 0))
      [TYPE_RESISTOR; TYPE_CAPACITOR; TYPE_INDUCTOR; TYPE_VOLTAGE_SOURCE;
       TYPE_CURRENT_SOURCE; TYPE_VCCS; TYPE_VCVS; TYPE_CCCS; TYPE_CCVS;
       TYPE_OPAMP_INVERTING; TYPE_OPAMP_NONINVERTING; TYPE_OPAMP_BUFFER;
       TYPE_OPAMP_INTEGRATOR; TYPE_OPAMP_DIFFERENTIATOR; TYPE_OPAMP_SUMMING;
       TYPE_BJT_SMALL_SIGNAL; TYPE_MOSFET_SMALL_SIGNAL].

Definition relabel_edge (acc : grid * counters) (p : pos) : grid * counters :=
  let (g, component_counters) := acc in
  let t := comp_type (get_edge g p) in
  match counter_get component_counters t with
  | None => acc
  | Some k =>
    (set_edge g p (with_label (get_edge g p) (Z.of_nat (k + 1))),
     counter_set component_counters t (k + 1))
  end.

Definition reassign_unique_labels (g : grid) : grid :=
  fst (fold_left relabel_edge (positions g) (g, label_counters_init)).

(** Lines 3073-3118, only run [if integrator:]. *)
Definition enforce_integrator (d : draws) (g : grid) : grid :=
  match positions_of_type TYPE_OPAMP_INTEGRATOR g with
  | [] =>
    match filter (is_resistor_candidate g) (positions g) with
    | [] => g
    | c0 :: rest =>
      let chosen_edge := choice (c0 :: rest) (integrator_pick d) c0 in
      set_edge g chosen_edge
        (with_value (with_type (get_edge g chosen_edge) TYPE_OPAMP_INTEGRATOR)
           (randint (comp_mean_value TYPE_RESISTOR) (comp_max_value TYPE_RESISTOR)
                    (integrator_value_pick d)))
    end
  | [keep] => g
  | keep :: rest =>
    fold_left (demote_to_resistor (integrator_demote_value_pick d)) rest g
  end.

(** Lines 3122-3131, only run [if rlc:]. *)
Definition clear_source_measure (g : grid) : grid :=
  fold_left
    (fun g p =>
       if component_eqb (comp_type (get_edge g p)) TYPE_VOLTAGE_SOURCE
       then set_edge g p (with_measure (get_edge g p) MEAS_TYPE_NONE)
       else g)
    (positions g) g.

(** The passes between the sampling loop and the call of [Circuit]. *)
Definition enforce_constraints (integrator rlc : bool) (d : draws) (g : grid) : grid :=
  let g := convert_current_sources d g in
  let g := enforce_voltage_source d g in
  let g := reassign_unique_labels g in
  let g := if integrator
           then reassign_unique_labels (enforce_integrator d g) else g in
  if rlc then clear_source_measure g else g.

(** The grid sizes [m] and [n]. *)
Definition grid_size (simple_circuits : bool) (d : draws) : nat * nat :=
  let choices := num_grid_choices simple_circuits in
  let m := choice choices (m_pick d) 0 in
  let choices := if m =? 4 then remove_first 4 choices else choices in
  (m, choice choices (n_pick d) 0).

(** The edge arrays handed to [Circuit]; [None] when no round of draws
    was accepted. *)
Definition sampled_grid (simple_circuits integrator rlc : bool) (d : draws) : option grid :=
  let (m, n) := grid_size simple_circuits d in
  match sample_loop m n rlc (attempts d) with
  | None => None
  | Some g => Some (enforce_constraints integrator rlc d g)
  end.

Definition gen_circuit_v11 (symbolic simple_circuits integrator rlc : bool) (d : draws)
    : outcome circuit :=
  match sampled_grid simple_circuits integrator rlc d with
  | None => Diverged
  | Some g => Circuit 11 g (negb symbolic) rlc
  end.

(** ** Spec-side notions and sample inputs *)

(** The edge positions that touch junction [(i,j)]. *)
Definition incident_edges (g : grid) (i j : nat) : list pos :=
  (if 0 <? j then [H_at i (j - 1)] else []) ++
  (if j <? dim_n g - 1 then [H_at i j] else []) ++
  (if 0 <? i then [V_at (i - 1) j] else []) ++
  (if i <? dim_m g - 1 then [V_at i j] else []).

(** The constructor's result, or [d] when it raised. *)
Definition built (o : outcome circuit) (d : circuit) : circuit :=
  match o with
  | Ok c => c
  | _ => d
  end.

Definition no_circuit : circuit :=
  mk_circuit 0 (blank_grid 0 0) false false false [] (fun _ _ => 0%Z) [] None.

Definition sample_edge_of (t : component) (ms : meas_type) (ml ctl : Z) : edge :=
  mk_edge true t 1 5 UNIT_MODE_1 0 ms ml 0 ctl.

(** A 2 x 2 loop: a voltage source and a capacitor carrying voltage
    measurement 0 on the vertical edges, a CCCS controlled by label 0 and
    a resistor on the horizontal ones. *)
Definition loop_grid : grid :=
  mk_grid 2 2
    (fun _ j => match j with
                | 0 => sample_edge_of TYPE_VOLTAGE_SOURCE MEAS_TYPE_NONE (-1) 0
                | _ => sample_edge_of TYPE_CAPACITOR MEAS_TYPE_VOLTAGE 0 0
                end)
    (fun i _ => match i with
                | 0 => sample_edge_of TYPE_CCCS MEAS_TYPE_NONE (-1) 0
                | _ => sample_edge_of TYPE_RESISTOR MEAS_TYPE_NONE (-1) 0
                end).

Definition loop_circuit : circuit := built (Circuit 11 loop_grid false false) no_circuit.

(** Fields of a branch that re-grounding leaves alone. *)
Definition same_device (a b : branch) : Prop :=
  br_type a = br_type b /\ br_label a = br_label b /\ br_value a = br_value b /\
  br_value_unit a = br_value_unit b /\ br_measure a = br_measure b /\
  br_measure_label a = br_measure_label b /\
  br_meas_comp_same_direction a = br_meas_comp_same_direction b /\
  br_control_measure_label a = br_control_measure_label b /\
  br_order a = br_order b.


(** A branch that carries voltage measurement number 0. *)
Definition measures_voltage_0 (b : branch) : bool :=
  Z.eqb (br_measure_label b) 0 && meas_eqb (br_measure b) MEAS_TYPE_VOLTAGE.


(** Spec's words for re-grounding with ground node [v]: [v] becomes 0,
    every other node number [x] becomes [x + 1], the device is kept. *)
Definition regrounded (v : Z) (x y : branch) : Prop :=
  br_n1 y = (if Z.eqb (br_n1 x) v then 0 else br_n1 x + 1)%Z /\
  br_n2 y = (if Z.eqb (br_n2 x) v then 0 else br_n2 x + 1)%Z /\
  same_device y x.

Definition sample_branch (a b : Z) (t : component) (ms : meas_type) : branch :=
  mk_branch a b t 1 5 UNIT_MODE_1 ms (-1) true 0 0.

(** A source from node 0 to node 1 and a resistor back. *)
Definition raw_pair : list branch :=
  [ sample_branch 0 1 TYPE_VOLTAGE_SOURCE MEAS_TYPE_NONE;
    sample_branch 1 0 TYPE_RESISTOR MEAS_TYPE_NONE ].

Definition measures (kind : meas_type) (b : branch) : bool :=
  meas_eqb (br_measure b) kind.

(** Draws for a 2 x 2 grid: [tp], [ms] and [lb] give the picks of type,
    measurement and measurement label of the four edges, every other
    pick is 0. *)
Definition four_edges (a b c d : nat) (p : pos) : nat :=
  match p with
  | V_at 0 0 => a
  | V_at 0 1 => b
  | H_at 0 0 => c
  | H_at 1 0 => d
  | _ => 0
  end.

Definition round_of (tp ms lb : pos -> nat) : attempt_draws :=
  mk_attempt_draws tp (fun _ => 4) (fun _ => 0) ms lb (fun _ => false) (fun _ => 0) 0 0 0.

Definition draws_of (rounds : list attempt_draws) : draws :=
  mk_draws 0 0 rounds (fun _ => 0) 0 0 (fun _ => 0) 0 0 (fun _ => 0).

(** Voltage source, resistor with voltage measurement 0, VCVS, resistor. *)
Definition plain_draws : draws :=
  draws_of [round_of (four_edges 10 14 29 14) (four_edges 0 20 0 0) (four_edges 0 1 0 0)].

(** The same with a capacitor in place of the measured resistor. *)
Definition capacitor_draws : draws :=
  draws_of [round_of (four_edges 10 24 29 14) (four_edges 0 20 0 0) (four_edges 0 1 0 0)].

(** Three resistors, measured as current 0, voltage 0 and current 0, and
    a CCCS; the first resistor is then promoted to the voltage source. *)
Definition cccs_draws : draws :=
  draws_of [round_of (four_edges 14 14 32 14) (four_edges 21 20 0 21) (four_edges 1 1 0 1)].

Definition generated (d : draws) : circuit :=
  built (gen_circuit_v11 true false false false d) no_circuit.

(** The loop of [loop_grid] with a measured resistor and an op-amp of
    role [t] in place of the capacitor and the CCCS. *)
Definition opamp_grid (t : component) : grid :=
  mk_grid 2 2
    (fun _ j => match j with
                | 0 => sample_edge_of TYPE_VOLTAGE_SOURCE MEAS_TYPE_NONE (-1) 0
                | _ => sample_edge_of TYPE_RESISTOR MEAS_TYPE_VOLTAGE 0 0
                end)
    (fun i _ => match i with
                | 0 => sample_edge_of t MEAS_TYPE_NONE (-1) 0
                | _ => sample_edge_of TYPE_RESISTOR MEAS_TYPE_NONE (-1) 0
                end).

Definition opamp_circuit (t : component) : circuit :=
  built (Circuit 11 (opamp_grid t) false false) no_circuit.

(** The text of [spice_str], or the empty text when the generator raised. *)
Definition spice_text (o : outcome spice_state) : string :=
  match o with
  | Ok st => spice_str st
  | _ => EmptyString
  end.

Definition text_of_lines (lines : list string) : string :=
  String.concat newline lines.

(** The comment and the single device line of the op-amp fallback. *)
Definition fallback_text (annotate : bool) (br : branch) : string :=
  ("* Fallback: Simple op-amp (should be integrator)" ++ newline
   ++ "E" ++ str (label_num br) ++ " " ++ str (br_n2 br) ++ " 0 0 " ++ str (br_n1 br)
   ++ " " ++ (if annotate then str (br_value br) else "Ad") ++ newline)%string.

Definition fallback_warning (br : branch) : string :=
  ("Warning: Non-integrator op-amp type "
   ++ str (Z.of_nat (component_code (br_type br)))
   ++ " found in SPICE generation")%string.

Definition inverting_branch : branch :=
  mk_branch 1 2 TYPE_OPAMP_INVERTING 1 5 UNIT_MODE_1 MEAS_TYPE_NONE (-1) true 0 0.

(** ** Notions used to reason about the flood fill *)

Definition vis_at (vis : visited_map) (c : cell) : bool := vis (fst c) (snd c).

(** Number of junctions of the grid not visited yet. *)
Definition unvisited (g : grid) (vis : visited_map) : nat :=
  List.length (filter (fun c => negb (vis_at vis c)) (cells g)).

(** [vis'] extends [vis] by exactly the junctions of [new], which lie in
    the grid and satisfy [R]. *)
Definition grows (g : grid) (R : cell -> Prop) (vis vis' : visited_map) (new : list cell)
    : Prop :=
  (forall c, vis_at vis c = true -> vis_at vis' c = true) /\
  (forall c, In c new -> vis_at vis c = false /\ in_grid g c /\ R c) /\
  (forall c, vis_at vis' c = true -> vis_at vis c = true \/ In c new) /\
  (forall c, In c new -> vis_at vis' c = true).

(** Every short link out of [new] ends in a visited junction. *)
Definition closed_in (g : grid) (new : list cell) (vis : visited_map) : Prop :=
  forall c d, In c new -> short_link g c d -> vis_at vis d = true.

Definition closed (g : grid) (vis : visited_map) : Prop :=
  forall c d, vis_at vis c = true -> short_link g c d -> vis_at vis d = true.

(** What [dfs] is shown to do with enough fuel. *)
Definition dfs_correct (fuel : nat) (g : grid) : Prop :=
  forall i j vis comp,
    unvisited g vis < fuel ->
    exists vis' new,
      dfs fuel g i j (vis, comp) = Some (vis', comp ++ new) /\
      grows g (short_path g (i, j)) vis vis' new /\
      closed_in g new vis' /\
      (in_grid g (i, j) -> vis_at vis' (i, j) = true).

(** The state of the outer loop of [_get_grid_nodes] after some rounds. *)
Definition components_inv (g : grid) (vis : visited_map) (comps : list (list cell)) : Prop :=
  closed g vis /\
  (forall c, vis_at vis c = true <-> exists comp, In comp comps /\ In c comp) /\
  (forall comp c d, In comp comps -> In c comp ->
                    in_grid g c /\ (In d comp <-> short_path g c d)) /\
  ForallOrdPairs (fun a b => forall c, In c a -> ~ In c b) comps.

(** A 2 x 2 loop whose left vertical edge is an unmeasured short. *)
Definition shorted_grid : grid :=
  mk_grid 2 2
    (fun _ j => match j with
                | 0 => sample_edge_of TYPE_SHORT MEAS_TYPE_NONE (-1) 0
                | _ => sample_edge_of TYPE_RESISTOR MEAS_TYPE_VOLTAGE 0 0
                end)
    (fun i _ => match i with
                | 0 => sample_edge_of TYPE_VOLTAGE_SOURCE MEAS_TYPE_NONE (-1) 0
                | _ => sample_edge_of TYPE_RESISTOR MEAS_TYPE_NONE (-1) 0
                end).

(** ** Notions used to reason about the sampler *)

(** [P] holds of the edge at every position. *)
Definition all_edges (P : edge -> Prop) (g : grid) : Prop :=
  forall p, P (get_edge g p).

(** A dependent source carries no measurement request. *)
Definition unmeasured_if_dependent (e : edge) : Prop :=
  is_dependent (comp_type e) = true ->
  comp_measure e = MEAS_TYPE_NONE /\ comp_measure_label e = (-1)%Z.

(** Only open edges are absent. *)
Definition absent_only_if_open (e : edge) : Prop :=
  has_edge e = false -> comp_type e = TYPE_OPEN.

(** [p0] is the one position of the grid that holds a voltage source. *)
Definition only_source_at (g : grid) (p0 : pos) : Prop :=
  In p0 (positions g) /\
  forall q, In q (positions g) ->
            (comp_type (get_edge g q) = TYPE_VOLTAGE_SOURCE <-> q = p0).

(** [g'] has the size of [g], and [R] relates the edges of [g] and [g']
    position by position. *)
Definition related (R : edge -> edge -> Prop) (g g' : grid) : Prop :=
  dim_m g' = dim_m g /\ dim_n g' = dim_n g /\
  forall p, R (get_edge g p) (get_edge g' p).

(** The edge stays present or absent, and open or not open. *)
Definition keeps_presence (e e' : edge) : Prop :=
  has_edge e' = has_edge e /\
  (comp_type e' = TYPE_OPEN <-> comp_type e = TYPE_OPEN).

(** Moreover it stays a voltage source or none. *)
Definition keeps_source (e e' : edge) : Prop :=
  keeps_presence e e' /\
  (comp_type e' = TYPE_VOLTAGE_SOURCE <-> comp_type e = TYPE_VOLTAGE_SOURCE).

(** Voltage source branches that the loop body adds at junction [c]. *)
Definition sources_at (g : grid) (c : cell) : nat :=
  (if (snd c <? dim_n g - 1) && has_edge (hedge g (fst c) (snd c))
      && component_eqb (comp_type (hedge g (fst c) (snd c))) TYPE_VOLTAGE_SOURCE
   then 1 else 0) +
  (if (fst c <? dim_m g - 1) && has_edge (vedge g (fst c) (snd c))
      && component_eqb (comp_type (vedge g (fst c) (snd c))) TYPE_VOLTAGE_SOURCE
   then 1 else 0).

(** Every branch copies the type and the measurement of some edge. *)
Definition from_edges (g : grid) (bs : list branch) : Prop :=
  forall b, In b bs ->
    exists p, br_type b = comp_type (get_edge g p) /\
              br_measure b = comp_measure (get_edge g p) /\
              br_measure_label b = comp_measure_label (get_edge g p).

Definition branches_of (s : asm_state) : list branch :=
  match s with
  | Running bs _ => bs
  | Rejected bs => bs
  end.

(** The type drawn for position [p] in a round of draws. *)
Definition drawn_type (d : attempt_draws) (outer : bool) (p : pos) : component :=
  choice (if outer then num_comp_choices_outer else num_comp_choices)
         (type_pick d p) TYPE_SHORT.

(** More sample inputs: a loop of four resistors, the same loop with a
    voltage source on both vertical edges, and a grid whose only present
    edge dangles between two junctions. *)
Definition no_source_grid : grid :=
  mk_grid 2 2
    (fun _ _ => sample_edge_of TYPE_RESISTOR MEAS_TYPE_NONE (-1) 0)
    (fun _ _ => sample_edge_of TYPE_RESISTOR MEAS_TYPE_NONE (-1) 0).

Definition two_source_grid : grid :=
  mk_grid 2 2
    (fun _ _ => sample_edge_of TYPE_VOLTAGE_SOURCE MEAS_TYPE_NONE (-1) 0)
    (fun _ _ => sample_edge_of TYPE_RESISTOR MEAS_TYPE_NONE (-1) 0).

Definition absent_edge : edge :=
  mk_edge false TYPE_OPEN 0 0 UNIT_MODE_1 0 MEAS_TYPE_NONE 0 0 0.

Definition dangling_grid : grid :=
  mk_grid 2 2
    (fun _ j => match j with
                | 0 => sample_edge_of TYPE_RESISTOR MEAS_TYPE_VOLTAGE 0 0
                | _ => absent_edge
                end)
    (fun _ _ => absent_edge).

Definition dangling_circuit : circuit :=
  built (Circuit 11 dangling_grid false false) no_circuit.

Definition grid_of (o : option grid) : grid :=
  match o with
  | Some g => g
  | None => blank_grid 0 0
  end.

Definition measured_inverting_branch : branch :=
  mk_branch 1 2 TYPE_OPAMP_INVERTING 1 5 UNIT_MODE_1 MEAS_TYPE_CURRENT 3 true 0 0.

(** ** Further notions: where a branch comes from *)

(** The two junctions that an edge position joins, first the one the
    assembly loop stands on. *)
Definition first_end (p : pos) : cell :=
  match p with
  | V_at i j => (i, j)
  | H_at i j => (i, j)
  end.

Definition second_end (p : pos) : cell :=
  match p with
  | V_at i j => (i + 1, j)
  | H_at i j => (i, j + 1)
  end.

Definition node_at (gn : node_map) (c : cell) : Z := gn (fst c) (snd c).

(** Branch [br] is what the assembly makes of the edge at [p] under the
    node map [gn]: the edge is present, its ends carry different node
    numbers, its type and measurement are no conflicting pair, the
    terminals are these numbers (swapped when the direction bit is set),
    and the attributes are copied. *)
Definition branch_of_edge (g : grid) (gn : node_map) (p : pos) (br : branch) : Prop :=
  In p (positions g) /\
  has_edge (get_edge g p) = true /\
  node_at gn (first_end p) <> node_at gn (second_end p) /\
  _check_conflict_component_measure (comp_type (get_edge g p))
                                    (comp_measure (get_edge g p)) = false /\
  br_n1 br = (if truthy (comp_direction (get_edge g p))
              then node_at gn (second_end p) else node_at gn (first_end p)) /\
  br_n2 br = (if truthy (comp_direction (get_edge g p))
              then node_at gn (first_end p) else node_at gn (second_end p)) /\
  br_type br = comp_type (get_edge g p) /\
  br_label br = comp_label (get_edge g p) /\
  br_value br = comp_value (get_edge g p) /\
  br_measure br = comp_measure (get_edge g p) /\
  br_measure_label br = comp_measure_label (get_edge g p) /\
  br_control_measure_label br = comp_control_meas_label (get_edge g p).

(** The branch list is numbered by [order]: the k-th branch has order
    [start + k]. *)
Fixpoint ordered_from (start : nat) (bs : list branch) : Prop :=
  match bs with
  | [] => True
  | b :: rest => br_order b = start /\ ordered_from (S start) rest
  end.

(** The junction on the side of the second terminal of the branch made
    from the edge at [p]. *)
Definition second_terminal_end (g : grid) (p : pos) : cell :=
  if truthy (comp_direction (get_edge g p)) then first_end p else second_end p.

(** A loop with a voltage source, a resistor carrying voltage measurement
    0, a short carrying current measurement 1 and a plain resistor. *)
Definition measured_short_grid : grid :=
  mk_grid 2 2
    (fun _ j => match j with
                | 0 => sample_edge_of TYPE_VOLTAGE_SOURCE MEAS_TYPE_NONE (-1) 0
                | _ => sample_edge_of TYPE_RESISTOR MEAS_TYPE_VOLTAGE 0 0
                end)
    (fun i _ => match i with
                | 0 => sample_edge_of TYPE_SHORT MEAS_TYPE_CURRENT 1 0
                | _ => sample_edge_of TYPE_RESISTOR MEAS_TYPE_NONE (-1) 0
                end).

Definition measured_short_circuit : circuit :=
  built (Circuit 11 measured_short_grid false false) no_circuit.

Definition no_branch : branch :=
  mk_branch 0 0 TYPE_SHORT 0 0 UNIT_MODE_1 MEAS_TYPE_NONE 0 true 0 0.

(** The counter of a running assembly is the number of branches so far. *)
Definition order_inv (s : asm_state) : Prop :=
  ordered_from 0 (branches_of s) /\
  match s with
  | Running bs n => n = List.length bs
  | Rejected _ => True
  end.

(** ** Further notions: what [_to_SPICE] writes *)

(** The component types for which the loop of [_to_SPICE] has a case. *)
Definition spice_types : list component :=
  [TYPE_SHORT; TYPE_VOLTAGE_SOURCE; TYPE_CURRENT_SOURCE; TYPE_RESISTOR; TYPE_CAPACITOR;
   TYPE_INDUCTOR; TYPE_VCCS; TYPE_VCVS; TYPE_CCCS; TYPE_CCVS;
   TYPE_OPAMP_INVERTING; TYPE_OPAMP_NONINVERTING; TYPE_OPAMP_BUFFER;
   TYPE_OPAMP_INTEGRATOR; TYPE_OPAMP_DIFFERENTIATOR; TYPE_OPAMP_SUMMING].

(** A branch with a current measurement and a type that is written. *)
Definition has_ammeter (b : branch) : bool :=
  meas_eqb (br_measure b) MEAS_TYPE_CURRENT && type_in (br_type b) spice_types.

(** [st'] is [st] with [k] more ammeters; names and counters are kept. *)
Definition frame (k : nat) (st st' : spice_state) : Prop :=
  vmeas_counter st' = vmeas_counter st + k /\
  used_device_names st' = used_device_names st /\
  comp_counters st' = comp_counters st.

(** The first name tried for a branch, [f"{type_str}{label_num}"]. *)
Definition initial_name (b : branch) : string :=
  (SPICE_PREFFIX (br_type b) ++ str (label_num b))%string.

(** The name tried in the round of the naming loop that sets the counter
    to [k]. *)
Definition suffixed_name (type_str : string) (label_num : Z) (k : nat) : string :=
  (type_str ++ str label_num ++ "_" ++ str (Z.of_nat k))%string.

(** A loop as [measured_short_grid] whose two resistors carry different
    labels. *)
Definition labelled_grid : grid :=
  mk_grid 2 2
    (fun _ j => match j with
                | 0 => sample_edge_of TYPE_VOLTAGE_SOURCE MEAS_TYPE_NONE (-1) 0
                | _ => sample_edge_of TYPE_RESISTOR MEAS_TYPE_VOLTAGE 0 0
                end)
    (fun i _ => match i with
                | 0 => sample_edge_of TYPE_SHORT MEAS_TYPE_CURRENT 1 0
                | _ => mk_edge true TYPE_RESISTOR 2 5 UNIT_MODE_1 0 MEAS_TYPE_NONE (-1) 0 0
                end).

Definition labelled_circuit : circuit :=
  built (Circuit 11 labelled_grid false false) no_circuit.

Definition spice_state_of (o : outcome spice_state) : spice_state :=
  match o with
  | Ok st => st
  | _ => spice_init
  end.

(** ** [gen_circuit] as a whole *)

(** The arrays that [Circuit()] makes when it is called without
    arguments: [np.ones] for the presence and the labels, [np.zeros] for
    every other array. *)
Definition default_edge : edge :=
  mk_edge true TYPE_SHORT 1 0 UNIT_MODE_1 0 MEAS_TYPE_NONE 0 0 0.

(** [Circuit()]: [m = 3], [n = 4], [note = "v1"]. *)
Definition default_Circuit : outcome circuit :=
  Circuit 1 (mk_grid 3 4 (fun _ _ => default_edge) (fun _ _ => default_edge)) false false.

(** The dispatch on the note. The arm for note v10 is not embedded; [v10]
    stands for what it returns. *)
Definition gen_circuit (v10 : outcome circuit) (note : Z)
    (symbolic simple_circuits integrator rlc : bool) (d : draws) : outcome circuit :=
  if (note <=? 9)%Z then Raise NotImplementedError
  else if (note =? 10)%Z then v10
  else if (note =? 11)%Z then gen_circuit_v11 symbolic simple_circuits integrator rlc d
  else default_Circuit.

(** An open edge is absent. *)
Definition open_only_if_absent (e : edge) : Prop :=
  comp_type e = TYPE_OPEN -> has_edge e = false.

(** The types of the branches that the arm for note v11 can produce. *)
Definition v11_types (integrator : bool) : list component :=
  [TYPE_SHORT; TYPE_VOLTAGE_SOURCE; TYPE_RESISTOR; TYPE_CAPACITOR; TYPE_INDUCTOR;
   TYPE_VCCS; TYPE_VCVS; TYPE_CCCS; TYPE_CCVS]
  ++ (if integrator then [TYPE_OPAMP_INTEGRATOR] else []).

Definition has_v11_type (integrator : bool) (e : edge) : Prop :=
  type_in (comp_type e) (TYPE_OPEN :: v11_types integrator) = true.

(** * Properties *)

Unset Implicit Arguments.

(** ** Equality tests *)

Lemma component_eqb_eq : forall a b, component_eqb a b = true <-> a = b.
Proof.
  intros a b; split.
  - destruct a, b; simpl; intros H; try reflexivity; discriminate H.
  - intros ->. unfold component_eqb. apply Nat.eqb_refl.
Qed.

Lemma component_eqb_refl : forall a, component_eqb a a = true.
Proof. intros a. apply component_eqb_eq. reflexivity. Qed.

Lemma component_eqb_neq : forall a b, component_eqb a b = false <-> a <> b.
Proof.
  intros a b. split.
  - intros H E. apply component_eqb_eq in E. congruence.
  - intros H. destruct (component_eqb a b) eqn:E; [|reflexivity].
    apply component_eqb_eq in E. contradiction.
Qed.

Lemma meas_eqb_eq : forall a b, meas_eqb a b = true <-> a = b.
Proof.
  intros a b; split.
  - destruct a, b; simpl; intros H; try reflexivity; discriminate H.
  - intros ->. destruct b; reflexivity.
Qed.

(** ** The junction list *)

Lemma in_range2 : forall a b i j, In (i, j) (range2 a b) <-> i < a /\ j < b.
Proof.
  intros a b i j. unfold range2. rewrite in_flat_map. split.
  - intros [x [Hx Hin]]. apply in_map_iff in Hin. destruct Hin as [y [E Hy]].
    inversion E; subst. apply in_seq in Hx. apply in_seq in Hy. lia.
  - intros [Hi Hj]. exists i. split.
    + apply in_seq. lia.
    + apply in_map_iff. exists j. split; [reflexivity|]. apply in_seq. lia.
Qed.

Lemma in_cells : forall g c, In c (cells g) <-> in_grid g c.
Proof.
  intros g [i j]. unfold cells, in_grid. simpl. apply in_range2.
Qed.

(** ** Degree check *)

Lemma degree_flag_false : forall g l,
  fold_left (fun valid c => if _init_degree g (fst c) (snd c) =? 1 then false else valid)
            l false = false.
Proof.
  intros g l. induction l as [|c l IH]; simpl; [reflexivity|].
  destruct (_init_degree g (fst c) (snd c) =? 1); exact IH.
Qed.

Lemma degree_flag_true : forall g l,
  fold_left (fun valid c => if _init_degree g (fst c) (snd c) =? 1 then false else valid)
            l true = true <->
  (forall c, In c l -> _init_degree g (fst c) (snd c) <> 1).
Proof.
  intros g l. induction l as [|c l IH]; simpl.
  - split; [intros _ c []|reflexivity].
  - destruct (_init_degree g (fst c) (snd c) =? 1) eqn:E.
    + rewrite degree_flag_false. split; [discriminate|].
      intros H. apply Nat.eqb_eq in E. exfalso. apply (H c); auto.
    + rewrite IH. apply Nat.eqb_neq in E. split.
      * intros H x [<-|Hx]; auto.
      * intros H x Hx. apply H. auto.
Qed.

Lemma degree_check_spec : forall g,
  _check_circuit_valid_by_degree g = true <->
  (forall i j, i < dim_m g -> j < dim_n g -> _init_degree g i j <> 1).
Proof.
  intros g. unfold _check_circuit_valid_by_degree. rewrite degree_flag_true. split.
  - intros H i j Hi Hj. apply (H (i, j)). apply in_cells. split; assumption.
  - intros H [i j] Hin. apply in_cells in Hin. destruct Hin. simpl. apply H; assumption.
Qed.

(** A circuit only keeps [valid] when the degree check set it. *)
Lemma init_netlist_valid : forall note g v nl,
  _init_netlist note g v = Ok nl -> nl_valid nl = true -> v = true.
Proof.
  intros note g v nl H Hv. unfold _init_netlist in H.
  destruct (_get_grid_nodes g) as [[gn k]|]; [|discriminate].
  destruct (assemble note g gn) as [s|e|]; simpl in H; try discriminate.
  destruct s as [bs k'|bs].
  - destruct (negb (control_check bs)).
    + inversion H; subst. discriminate Hv.
    + destruct (vs_neg_node_old bs); inversion H; subst; exact Hv.
  - inversion H; subst. discriminate Hv.
Qed.

Lemma Circuit_valid_degree : forall note g ann rlc c,
  Circuit note g ann rlc = Ok c -> valid c = true ->
  _check_circuit_valid_by_degree g = true.
Proof.
  intros note g ann rlc c H Hv. unfold Circuit in H.
  destruct (_init_netlist note g (_check_circuit_valid_by_degree g)) as [nl|e|] eqn:E;
    simpl in H; try discriminate.
  inversion H; subst. simpl in Hv. eapply init_netlist_valid; eauto.
Qed.

Lemma degree_counts_incident : forall g i j,
  _init_degree g i j = List.length (filter (is_candidate g) (incident_edges g i j)).
Proof.
  intros g i j. unfold _init_degree, incident_edges, counts_for_degree, is_candidate.
  rewrite !filter_app, !length_app.
  destruct (0 <? j), (j <? dim_n g - 1), (0 <? i), (i <? dim_m g - 1); simpl;
    repeat match goal with
           | |- context [if ?b then _ else _] => destruct b
           end; reflexivity.
Qed.

(** C4. In a circuit marked valid every junction has degree 0 or at least
    2, the degree of a junction being the number of its incident edges
    that are present and not open; a circuit with a junction of degree
    exactly 1 is marked invalid. *)
Theorem valid_circuit_degrees : forall note g ann rlc c,
  Circuit note g ann rlc = Ok c ->
  (forall i j,
     _init_degree g i j = List.length (filter (is_candidate g) (incident_edges g i j))) /\
  (valid c = true ->
   forall i j, i < dim_m g -> j < dim_n g ->
     _init_degree g i j = 0 \/ 2 <= _init_degree g i j) /\
  ((exists i j, i < dim_m g /\ j < dim_n g /\ _init_degree g i j = 1) ->
   valid c = false).
Proof.
  intros note g ann rlc c HC. split; [apply degree_counts_incident|]. split.
  - intros Hv i j Hi Hj.
    pose proof (Circuit_valid_degree _ _ _ _ _ HC Hv) as Hd.
    rewrite degree_check_spec in Hd. specialize (Hd i j Hi Hj). lia.
  - intros [i [j [Hi [Hj H1]]]].
    destruct (valid c) eqn:Hv; [|reflexivity].
    pose proof (Circuit_valid_degree _ _ _ _ _ HC Hv) as Hd.
    rewrite degree_check_spec in Hd. specialize (Hd i j Hi Hj). contradiction.
Qed.

Lemma loop_circuit_built : Circuit 11 loop_grid false false = Ok loop_circuit.
Proof. vm_compute. reflexivity. Qed.

Lemma valid_circuit_degrees_witness :
  (Circuit 11 loop_grid false false = Ok loop_circuit /\
   valid loop_circuit = true /\
   (_init_degree loop_grid 0 1 = 0 \/ 2 <= _init_degree loop_grid 0 1)) /\
  (Circuit 11 dangling_grid false false = Ok dangling_circuit /\
   _init_degree dangling_grid 0 0 = 1 /\
   valid dangling_circuit = false).
Proof.
  split.
  - split; [vm_compute; reflexivity|]. split; [vm_compute; reflexivity|].
    refine (proj1 (proj2 (valid_circuit_degrees 11 loop_grid false false loop_circuit _))
              _ 0 1 _ _).
    + vm_compute; reflexivity.
    + vm_compute; reflexivity.
    + simpl; lia.
    + simpl; lia.
  - split; [vm_compute; reflexivity|]. split; [vm_compute; reflexivity|].
    refine (proj2 (proj2 (valid_circuit_degrees 11 dangling_grid false false
                            dangling_circuit _)) _).
    + vm_compute; reflexivity.
    + exists 0, 0. simpl. split; [lia|]. split; [lia|]. vm_compute; reflexivity.
Defined.

(** ** What a valid circuit went through *)

Lemma same_device_remap : forall v b, same_device (remap_branch v b) b.
Proof. intros v b. unfold same_device. simpl. repeat split. Qed.

Lemma reground_as_map : forall bs,
  exists f, reground bs = map f bs /\ forall b, same_device (f b) b.
Proof.
  intros bs. unfold reground. destruct (vs_neg_node_old bs) as [v|].
  - exists (remap_branch v). split; [reflexivity|]. apply same_device_remap.
  - exists (fun b => b). split; [symmetry; apply map_id|].
    intros b. unfold same_device. repeat split.
Qed.

Lemma count_map_ext : forall (p : branch -> bool) f bs,
  (forall b, p (f b) = p b) ->
  count_branches p (map f bs) = count_branches p bs.
Proof.
  intros p f bs H. unfold count_branches.
  induction bs as [|b bs IH]; simpl; [reflexivity|].
  rewrite H. destruct (p b); simpl; rewrite IH; reflexivity.
Qed.

Lemma count_reground : forall (p : branch -> bool) bs,
  (forall a b, same_device a b -> p a = p b) ->
  count_branches p (reground bs) = count_branches p bs.
Proof.
  intros p bs H. destruct (reground_as_map bs) as [f [E Hf]].
  rewrite E. apply count_map_ext. intros b. apply H. apply Hf.
Qed.

Lemma Circuit_valid_inv : forall note g ann rlc c,
  Circuit note g ann rlc = Ok c -> valid c = true ->
  exists gn k bs n,
    _get_grid_nodes g = Some (gn, k) /\
    assemble note g gn = Ok (Running bs n) /\
    control_check bs = true /\
    branches c = reground bs.
Proof.
  intros note g ann rlc c H Hv. unfold Circuit, _init_netlist in H.
  destruct (_get_grid_nodes g) as [[gn k]|]; [|discriminate].
  destruct (assemble note g gn) as [s|e|] eqn:Ea; simpl in H; try discriminate.
  destruct s as [bs n|bs].
  - destruct (control_check bs) eqn:Ec; simpl in H.
    + exists gn, k, bs, n.
      split; [reflexivity|]. split; [assumption|]. split; [assumption|].
      unfold reground.
      destruct (vs_neg_node_old bs) eqn:Ev; simpl in H; inversion H; subst; simpl;
        unfold reground; rewrite ?Ev; reflexivity.
    + inversion H; subst. discriminate Hv.
  - inversion H; subst. discriminate Hv.
Qed.

(** ** Control binding as the constructor checks it *)

(** C9. The control check runs over every branch, and a branch that is not
    a dependent source carries the default control label 0; so a valid
    circuit with at least one branch whose control label is 0 has exactly
    one branch with a voltage measurement labelled 0. *)
Theorem default_control_label_needs_voltage_0 : forall note g ann rlc c,
  Circuit note g ann rlc = Ok c ->
  valid c = true ->
  (exists br, In br (branches c) /\ br_control_measure_label br = 0%Z) ->
  count_branches measures_voltage_0 (branches c) = 1.
Proof.
  intros note g ann rlc c HC Hv [br [Hin H0]].
  destruct (Circuit_valid_inv _ _ _ _ _ HC Hv) as [gn [k [bs [n [_ [_ [Hc Hb]]]]]]].
  rewrite Hb in *.
  rewrite count_reground.
  2:{ intros a b [_ [_ [_ [_ [Hm [Hl _]]]]]]. unfold measures_voltage_0.
      rewrite Hm, Hl. reflexivity. }
  destruct (reground_as_map bs) as [f [E Hf]]. rewrite E in Hin.
  apply in_map_iff in Hin. destruct Hin as [b0 [Eb Hin0]].
  unfold control_check in Hc. rewrite forallb_forall in Hc.
  specialize (Hc b0 Hin0). apply Nat.eqb_eq in Hc.
  assert (Hctl : br_control_measure_label b0 = 0%Z).
  { destruct (Hf b0) as [_ [_ [_ [_ [_ [_ [_ [Hx _]]]]]]]]. rewrite Eb in Hx. congruence. }
  unfold control_matches in Hc. rewrite Hctl in Hc. exact Hc.
Qed.

Lemma default_control_label_needs_voltage_0_witness :
  Circuit 11 loop_grid false false = Ok loop_circuit /\
  valid loop_circuit = true /\
  count_branches measures_voltage_0 (branches loop_circuit) = 1.
Proof.
  split; [vm_compute; reflexivity|]. split; [vm_compute; reflexivity|].
  apply (default_control_label_needs_voltage_0 11 loop_grid false false loop_circuit).
  - vm_compute; reflexivity.
  - vm_compute; reflexivity.
  - exists (nth 3 (branches loop_circuit) (mk_branch 0 0 TYPE_SHORT 0 0 UNIT_MODE_1 MEAS_TYPE_NONE 0 true 1 0)).
    split; [vm_compute; auto 10 | vm_compute; reflexivity].
Defined.

(** ** Re-grounding *)

Lemma find_first : forall (p : branch -> bool) pre b post,
  (forall x, In x pre -> p x = false) -> p b = true ->
  find p (pre ++ b :: post) = Some b.
Proof.
  intros p pre b post Hpre Hb. induction pre as [|x pre IH]; simpl.
  - rewrite Hb. reflexivity.
  - rewrite (Hpre x) by (left; reflexivity). apply IH.
    intros y Hy. apply Hpre. right. exact Hy.
Qed.

Lemma find_none_all : forall (p : branch -> bool) bs,
  (forall x, In x bs -> p x = false) -> find p bs = None.
Proof.
  intros p bs H. induction bs as [|x bs IH]; simpl; [reflexivity|].
  rewrite (H x) by (left; reflexivity). apply IH. intros y Hy. apply H. right. exact Hy.
Qed.

Lemma Forall2_map_r : forall (R : branch -> branch -> Prop) f bs,
  (forall b, R b (f b)) -> Forall2 R bs (map f bs).
Proof.
  intros R f bs H. induction bs as [|b bs IH]; simpl; constructor; auto.
Qed.

Lemma regrounded_remap : forall v b, regrounded v b (remap_branch v b).
Proof.
  intros v b. unfold regrounded, remap_branch, remap_node; simpl.
  split; [reflexivity|]. split; [reflexivity|]. apply same_device_remap.
Qed.

(** C5. When the assembled branch list has a voltage source, re-grounding
    takes the second terminal of the first one in scan order, turns that
    node into 0 and every other node number [x] into [x + 1] in every
    branch; without a voltage source all node numbers stay as they are.
    The branch list of a valid circuit is the assembled list after this
    step. *)
Theorem reground_spec :
  (forall bs pre b post,
     bs = pre ++ b :: post ->
     (forall x, In x pre -> br_type x <> TYPE_VOLTAGE_SOURCE) ->
     br_type b = TYPE_VOLTAGE_SOURCE ->
     Forall2 (regrounded (br_n2 b)) bs (reground bs)) /\
  (forall bs,
     (forall x, In x bs -> br_type x <> TYPE_VOLTAGE_SOURCE) -> reground bs = bs) /\
  (forall note g ann rlc c,
     Circuit note g ann rlc = Ok c -> valid c = true ->
     exists gn k bs n,
       _get_grid_nodes g = Some (gn, k) /\
       assemble note g gn = Ok (Running bs n) /\
       branches c = reground bs).
Proof.
  split; [|split].
  - intros bs pre b post E Hpre Hb. subst bs. unfold reground, vs_neg_node_old.
    rewrite find_first.
    + apply Forall2_map_r. apply regrounded_remap.
    + intros x Hx. apply component_eqb_neq. apply Hpre. exact Hx.
    + apply component_eqb_eq. exact Hb.
  - intros bs H. unfold reground, vs_neg_node_old.
    rewrite find_none_all; [reflexivity|].
    intros x Hx. apply component_eqb_neq. apply H. exact Hx.
  - intros note g ann rlc c HC Hv.
    destruct (Circuit_valid_inv _ _ _ _ _ HC Hv) as [gn [k [bs [n [H1 [H2 [_ H3]]]]]]].
    exists gn, k, bs, n. auto.
Qed.

Lemma reground_spec_witness :
  Forall2 (regrounded 1) raw_pair (reground raw_pair) /\
  reground [sample_branch 1 0 TYPE_RESISTOR MEAS_TYPE_NONE]
  = [sample_branch 1 0 TYPE_RESISTOR MEAS_TYPE_NONE] /\
  (exists gn k bs n,
     _get_grid_nodes loop_grid = Some (gn, k) /\
     assemble 11%Z loop_grid gn = Ok (Running bs n) /\
     branches loop_circuit = reground bs).
Proof.
  split; [|split].
  - apply (proj1 reground_spec raw_pair []
             (sample_branch 0 1 TYPE_VOLTAGE_SOURCE MEAS_TYPE_NONE)
             [sample_branch 1 0 TYPE_RESISTOR MEAS_TYPE_NONE]).
    + reflexivity.
    + intros x [].
    + reflexivity.
  - apply (proj1 (proj2 reground_spec)).
    intros x [<-|[]]. simpl. discriminate.
  - apply (proj2 (proj2 reground_spec) 11%Z loop_grid false false loop_circuit).
    + vm_compute; reflexivity.
    + vm_compute; reflexivity.
Defined.

Lemma vs_neg_after_remap : forall bs v w,
  vs_neg_node_old bs = Some v ->
  vs_neg_node_old (map (remap_branch w) bs) = Some (remap_node w v).
Proof.
  intros bs v w. unfold vs_neg_node_old.
  induction bs as [|x bs IH]; simpl; [discriminate|].
  destruct (component_eqb (br_type x) TYPE_VOLTAGE_SOURCE) eqn:Ex.
  - intros E. inversion E; subst. reflexivity.
  - exact IH.
Qed.

(** C6, as the code has it. Running the remap again on a re-grounded list
    that has a voltage source keeps node 0 but moves every other node
    number [x] to [x + 1]; only a list without voltage source is left
    unchanged. *)
Theorem reground_twice :
  forall bs,
    ((exists b, In b bs /\ br_type b = TYPE_VOLTAGE_SOURCE) ->
     vs_neg_node_old (reground bs) = Some 0%Z /\
     Forall2 (regrounded 0) (reground bs) (reground (reground bs))) /\
    ((forall b, In b bs -> br_type b <> TYPE_VOLTAGE_SOURCE) ->
     reground (reground bs) = reground bs).
Proof.
  intros bs. split.
  - intros [b [Hin Hb]].
    assert (Hv : exists v, vs_neg_node_old bs = Some v).
    { unfold vs_neg_node_old.
      destruct (find (fun b0 => component_eqb (br_type b0) TYPE_VOLTAGE_SOURCE) bs) eqn:E.
      - eexists; reflexivity.
      - exfalso. apply (find_none _ _ E) in Hin. apply component_eqb_neq in Hin.
        contradiction. }
    destruct Hv as [v Ev].
    assert (E0 : vs_neg_node_old (reground bs) = Some 0%Z).
    { unfold reground. rewrite Ev. rewrite (vs_neg_after_remap bs v v Ev).
      unfold remap_node. rewrite Z.eqb_refl. reflexivity. }
    split; [exact E0|].
    unfold reground at 2. rewrite E0.
    apply Forall2_map_r. apply regrounded_remap.
  - intros H. pose proof (proj1 (proj2 reground_spec) bs H) as E.
    rewrite E. exact E.
Qed.

Lemma reground_twice_witness :
  (vs_neg_node_old (reground raw_pair) = Some 0%Z /\
   Forall2 (regrounded 0) (reground raw_pair) (reground (reground raw_pair))) /\
  reground (reground [sample_branch 1 0 TYPE_RESISTOR MEAS_TYPE_NONE])
  = reground [sample_branch 1 0 TYPE_RESISTOR MEAS_TYPE_NONE].
Proof.
  split.
  - apply (proj1 (reground_twice raw_pair)).
    exists (sample_branch 0 1 TYPE_VOLTAGE_SOURCE MEAS_TYPE_NONE).
    split; [left; reflexivity | reflexivity].
  - apply (proj2 (reground_twice [sample_branch 1 0 TYPE_RESISTOR MEAS_TYPE_NONE])).
    intros b [<-|[]]. simpl. discriminate.
Defined.

(** C6 as stated fails: a second run over the re-grounded pair changes the
    node numbers of both branches. *)
Lemma reground_not_idempotent :
  reground raw_pair
  = [ sample_branch 1 0 TYPE_VOLTAGE_SOURCE MEAS_TYPE_NONE;
      sample_branch 0 1 TYPE_RESISTOR MEAS_TYPE_NONE ] /\
  reground (reground raw_pair)
  = [ sample_branch 2 0 TYPE_VOLTAGE_SOURCE MEAS_TYPE_NONE;
      sample_branch 0 2 TYPE_RESISTOR MEAS_TYPE_NONE ] /\
  reground (reground raw_pair) <> reground raw_pair.
Proof.
  split; [reflexivity|]. split; [reflexivity|]. vm_compute. discriminate.
Qed.

(** ** Statistics *)

Lemma count_split : forall (p q : branch -> bool) bs,
  count_branches (fun b => p b && q b) bs + count_branches (fun b => negb (p b) && q b) bs
  = count_branches q bs.
Proof.
  intros p q bs. unfold count_branches.
  induction bs as [|b bs IH]; simpl; [reflexivity|].
  destruct (p b), (q b); simpl; lia.
Qed.

(** C8, as the code has it. The two measurement counts of the stat record
    only count resistor branches: each equals the number of resistor
    branches with that measurement kind, and falls short of the number of
    all branches with that kind by the number of measured branches of
    another type. *)
Theorem stat_counts_resistor_measurements : forall circ,
  num_voltage_measurements (compute_stat_info circ)
  = count_branches (fun br => has_type TYPE_RESISTOR br && measures MEAS_TYPE_VOLTAGE br)
                   (branches circ) /\
  num_current_measurements (compute_stat_info circ)
  = count_branches (fun br => has_type TYPE_RESISTOR br && measures MEAS_TYPE_CURRENT br)
                   (branches circ) /\
  num_voltage_measurements (compute_stat_info circ)
  + count_branches (fun br => negb (has_type TYPE_RESISTOR br)
                              && measures MEAS_TYPE_VOLTAGE br) (branches circ)
  = count_branches (measures MEAS_TYPE_VOLTAGE) (branches circ) /\
  num_current_measurements (compute_stat_info circ)
  + count_branches (fun br => negb (has_type TYPE_RESISTOR br)
                              && measures MEAS_TYPE_CURRENT br) (branches circ)
  = count_branches (measures MEAS_TYPE_CURRENT) (branches circ).
Proof.
  intros circ. split; [reflexivity|]. split; [reflexivity|]. split.
  - apply (count_split (has_type TYPE_RESISTOR) (measures MEAS_TYPE_VOLTAGE)).
  - apply (count_split (has_type TYPE_RESISTOR) (measures MEAS_TYPE_CURRENT)).
Qed.

(** C8 as stated fails: a generated valid circuit whose only voltage
    measurement sits on a capacitor reports no voltage measurement. *)
Lemma stat_misses_capacitor_measurement :
  gen_circuit_v11 true false false false capacitor_draws = Ok (generated capacitor_draws) /\
  valid (generated capacitor_draws) = true /\
  count_branches (measures MEAS_TYPE_VOLTAGE) (branches (generated capacitor_draws)) = 1 /\
  num_voltage_measurements (compute_stat_info (generated capacitor_draws)) = 0.
Proof. vm_compute. repeat split. Qed.

(** ** Control binding of current-controlled sources *)

(** C2 on a generated circuit: the CCCS of [cccs_draws] is bound to label
    0, two branches carry current measurement 0, the circuit is still
    marked valid, and the assertion of [_to_SPICE] fails. *)
Lemma cccs_binding_not_checked :
  gen_circuit_v11 true false false false cccs_draws = Ok (generated cccs_draws) /\
  valid (generated cccs_draws) = true /\
  (exists br, In br (branches (generated cccs_draws)) /\
              br_type br = TYPE_CCCS /\
              List.length (control_matches MEAS_TYPE_CURRENT
                                           (branches (generated cccs_draws)) br) = 2) /\
  _to_SPICE (generated cccs_draws) = Raise AssertionError.
Proof.
  split; [vm_compute; reflexivity|]. split; [vm_compute; reflexivity|]. split.
  - exists (nth 0 (branches (generated cccs_draws)) inverting_branch).
    split; [vm_compute; auto|]. split; vm_compute; reflexivity.
  - vm_compute. reflexivity.
Qed.

(** The part of the control check that the constructor does make: in a
    valid circuit every branch, whatever its type, is bound to exactly one
    voltage measurement. *)
Lemma voltage_binding_checked : forall note g ann rlc c br,
  Circuit note g ann rlc = Ok c -> valid c = true -> In br (branches c) ->
  List.length (control_matches MEAS_TYPE_VOLTAGE (branches c) br) = 1.
Proof.
  intros note g ann rlc c br HC Hv Hin.
  destruct (Circuit_valid_inv _ _ _ _ _ HC Hv) as [gn [k [bs [n [_ [_ [Hc Hb]]]]]]].
  rewrite Hb in *.
  destruct (reground_as_map bs) as [f [E Hf]]. rewrite E in *.
  apply in_map_iff in Hin. destruct Hin as [b0 [Eb Hin0]]. subst br.
  unfold control_check in Hc. rewrite forallb_forall in Hc.
  specialize (Hc b0 Hin0). apply Nat.eqb_eq in Hc.
  rewrite <- Hc. unfold control_matches.
  change (count_branches (fun b => (br_measure_label b =? br_control_measure_label (f b0))%Z
                                   && meas_eqb (br_measure b) MEAS_TYPE_VOLTAGE) (map f bs)
          = count_branches (fun b => (br_measure_label b =? br_control_measure_label b0)%Z
                                     && meas_eqb (br_measure b) MEAS_TYPE_VOLTAGE) bs).
  destruct (Hf b0) as [_ [_ [_ [_ [_ [_ [_ [Hx _]]]]]]]]. rewrite Hx.
  apply count_map_ext. intros b.
  destruct (Hf b) as [_ [_ [_ [_ [Hm [Hl _]]]]]]. rewrite Hm, Hl. reflexivity.
Qed.

(** ** Op-amp branches in the SPICE text *)

Local Open Scope string_scope.

Lemma append_assoc : forall a b c : string, (a ++ b) ++ c = a ++ (b ++ c).
Proof.
  intros a b c. induction a as [|x a IH]; simpl; [reflexivity|].
  rewrite IH. reflexivity.
Qed.

Lemma unique_device_name_fresh : forall fuel type_str ln t name cc used,
  name_used name used = false ->
  unique_device_name fuel type_str ln t name cc used = Ok (name, cc).
Proof.
  intros fuel type_str ln t name cc used H. destruct fuel; simpl; rewrite H; reflexivity.
Qed.

(** C7, as the code has it. For a branch whose type is one of the five
    non-integrator op-amp roles and whose device name is new, the
    generator records the warning and appends, in place of the integrator
    expansion, one comment line and one dependent voltage source from the
    second terminal with the first terminal as controlling node (no
    resistor, no capacitor, no synthetic node); with a current measurement
    it further appends an ammeter line and retargets the source. *)
Theorem opamp_fallback_expansion : forall annotate an all_branches sorted st br,
  type_in (br_type br) opamp_fallback_types = true ->
  name_used ("X" ++ str (label_num br)) (used_device_names st) = false ->
  exists st',
    spice_branch annotate an all_branches sorted st br = Ok st' /\
    diagnostics st' = (diagnostics st ++ [fallback_warning br])%list /\
    (br_measure br <> MEAS_TYPE_CURRENT ->
     spice_str st' = spice_str st ++ fallback_text annotate br /\
     vmeas_counter st' = vmeas_counter st) /\
    (br_measure br = MEAS_TYPE_CURRENT ->
     let mid_node := "N" ++ str (br_n1 br) ++ str (br_n2 br) in
     let e_name := "E" ++ str (label_num br) in
     spice_str st'
     = replace (e_name ++ " " ++ str (br_n2 br) ++ " 0 0")
               (e_name ++ " " ++ mid_node ++ " 0 0")
               (spice_str st ++ fallback_text annotate br
                ++ fmt_line [vi_name (vmeas_counter st + 1); mid_node; str (br_n2 br); "0"]) /\
     vmeas_counter st' = (vmeas_counter st + 1)%nat).
Proof.
  intros annotate an all_branches sorted st br Ht Hn.
  assert (Hp : SPICE_PREFFIX (br_type br) = "X").
  { destruct (br_type br); simpl in Ht; try discriminate; reflexivity. }
  unfold spice_branch. rewrite Hp.
  rewrite unique_device_name_fresh by exact Hn. simpl bind. simpl fst. simpl snd.
  unfold emit_branch, emit_short, emit_two_terminal, emit_current_controlled,
    emit_voltage_controlled, emit_opamp.
  assert (H1 : component_eqb (br_type br) TYPE_SHORT = false)
    by (destruct (br_type br); simpl in Ht; try discriminate; reflexivity).
  assert (H2 : type_in (br_type br)
                 [TYPE_VOLTAGE_SOURCE; TYPE_CURRENT_SOURCE; TYPE_RESISTOR;
                  TYPE_CAPACITOR; TYPE_INDUCTOR] = false)
    by (destruct (br_type br); simpl in Ht; try discriminate; reflexivity).
  assert (H3 : type_in (br_type br) [TYPE_CCVS; TYPE_CCCS] = false)
    by (destruct (br_type br); simpl in Ht; try discriminate; reflexivity).
  assert (H4 : type_in (br_type br) [TYPE_VCVS; TYPE_VCCS] = false)
    by (destruct (br_type br); simpl in Ht; try discriminate; reflexivity).
  assert (H5 : component_eqb (br_type br) TYPE_OPAMP_INTEGRATOR = false)
    by (destruct (br_type br); simpl in Ht; try discriminate; reflexivity).
  rewrite H1, H2, H3, H4, H5, Ht. simpl bind.
  eexists. split; [reflexivity|].
  unfold emit_opamp_fallback.
  destruct (meas_eqb (br_measure br) MEAS_TYPE_CURRENT) eqn:Em.
  - apply meas_eqb_eq in Em. simpl. split; [reflexivity|]. split.
    + intros Hne. contradiction.
    + intros _. split; [|reflexivity].
      unfold fallback_text, fmt_line, node1, node2.
      repeat (rewrite ?append_assoc; simpl). reflexivity.
  - simpl. split; [reflexivity|]. split.
    + intros _. split; [|reflexivity].
      unfold fallback_text, fmt_line, node1, node2.
      repeat (rewrite ?append_assoc; simpl). reflexivity.
    + intros E. rewrite E in Em. discriminate.
Qed.

Lemma opamp_fallback_expansion_witness :
  (exists st',
     spice_branch false dc_analysis [inverting_branch] [inverting_branch]
                  spice_init inverting_branch = Ok st' /\
     diagnostics st' = [fallback_warning inverting_branch] /\
     spice_str st' = fallback_text false inverting_branch) /\
  (exists st',
     spice_branch false dc_analysis [measured_inverting_branch] [measured_inverting_branch]
                  spice_init measured_inverting_branch = Ok st' /\
     spice_str st'
     = text_of_lines [ "* Fallback: Simple op-amp (should be integrator)";
                       "E1 N12 0 0 1 Ad";
                       "VI1 N12 2 0";
                       EmptyString ] /\
     vmeas_counter st' = 1%nat).
Proof.
  split.
  - destruct (opamp_fallback_expansion false dc_analysis [inverting_branch]
                [inverting_branch] spice_init inverting_branch)
      as [st' [H1 [H2 [H3 _]]]].
    + reflexivity.
    + reflexivity.
    + exists st'. split; [exact H1|]. split; [exact H2|].
      apply H3. simpl. discriminate.
  - destruct (opamp_fallback_expansion false dc_analysis [measured_inverting_branch]
                [measured_inverting_branch] spice_init measured_inverting_branch)
      as [st' [H1 [_ [_ H4]]]].
    + reflexivity.
    + reflexivity.
    + exists st'. split; [exact H1|].
      destruct (H4 eq_refl) as [E1 E2]. split; [|exact E2].
      rewrite E1. vm_compute. reflexivity.
Defined.

(** C7 as stated fails: with an inverting op-amp on the loop the text
    has one [E] line for it, with an integrator at the same place it has
    the resistor, the capacitor and the source of the integrator. *)
Lemma fallback_is_not_integrator_expansion :
  valid (opamp_circuit TYPE_OPAMP_INVERTING) = true /\
  valid (opamp_circuit TYPE_OPAMP_INTEGRATOR) = true /\
  spice_text (_to_SPICE (opamp_circuit TYPE_OPAMP_INVERTING))
  = text_of_lines
      [ "* Fallback: Simple op-amp (should be integrator)";
        "E1 2 0 0 1 Ad";
        "V1 1 0 <Empty>";
        "R1 2 4 <Empty>";
        "R1_1 0 4 <Empty>";
        EmptyString ] /\
  spice_text (_to_SPICE (opamp_circuit TYPE_OPAMP_INTEGRATOR))
  = text_of_lines
      [ "* Integrator template: R-C feedback with op-amp";
        "Rint1 1 31 <Empty>";
        "Cint1 2 31 <Empty>";
        "Eint1 2 0 0 31 Ad";
        "V1 1 0 <Empty>";
        "R1 2 4 <Empty>";
        "R1_1 0 4 <Empty>";
        EmptyString ] /\
  spice_text (_to_SPICE (opamp_circuit TYPE_OPAMP_INVERTING))
  <> spice_text (_to_SPICE (opamp_circuit TYPE_OPAMP_INTEGRATOR)).
Proof.
  split; [vm_compute; reflexivity|]. split; [vm_compute; reflexivity|].
  split; [vm_compute; reflexivity|]. split; [vm_compute; reflexivity|].
  vm_compute. discriminate.
Qed.

Local Close Scope string_scope.

(** ** The flood fill *)

Lemma traversable_spec : forall e,
  traversable e = true <->
  has_edge e = true /\ comp_type e = TYPE_SHORT /\ comp_measure e = MEAS_TYPE_NONE.
Proof.
  intros e. unfold traversable. rewrite !andb_true_iff, component_eqb_eq, meas_eqb_eq.
  tauto.
Qed.

Lemma short_link_in_grid : forall g c d, short_link g c d -> in_grid g c /\ in_grid g d.
Proof.
  intros g c d H. inversion H; subst; unfold in_grid; simpl; lia.
Qed.

Lemma short_link_sym : forall g c d, short_link g c d -> short_link g d c.
Proof.
  intros g c d H. inversion H; subst.
  - apply link_up; assumption.
  - apply link_down; assumption.
  - apply link_left; assumption.
  - apply link_right; assumption.
Qed.

Lemma short_path_trans : forall g a b c,
  short_path g a b -> short_path g b c -> short_path g a c.
Proof.
  intros g a b c Hab Hbc. induction Hbc.
  - exact Hab.
  - eapply path_step; [apply IHHbc; exact Hab | exact H].
Qed.

Lemma short_path_one : forall g a b, short_link g a b -> short_path g a b.
Proof. intros g a b H. eapply path_step; [apply path_here | exact H]. Qed.

Lemma short_path_sym : forall g a b, short_path g a b -> short_path g b a.
Proof.
  intros g a b H. induction H.
  - apply path_here.
  - eapply short_path_trans; [apply short_path_one; apply short_link_sym; exact H0 | exact IHshort_path].
Qed.

Lemma short_path_in_grid : forall g a b,
  short_path g a b -> in_grid g a -> in_grid g b.
Proof.
  intros g a b H Ha. induction H; [exact Ha|].
  apply (short_link_in_grid _ _ _ H0).
Qed.

Lemma closed_path : forall g vis a b,
  closed g vis -> short_path g a b -> vis_at vis a = true -> vis_at vis b = true.
Proof.
  intros g vis a b Hc H Ha. induction H; [exact Ha|].
  eapply Hc; [apply IHshort_path; exact Ha | exact H0].
Qed.

(** *** Counting what is left to visit *)

Lemma vis_at_mark : forall vis i j c,
  vis_at (mark vis i j) c = if (fst c =? i) && (snd c =? j) then true else vis_at vis c.
Proof. intros vis i j [x y]. reflexivity. Qed.

Lemma vis_at_mark_same : forall vis i j, vis_at (mark vis i j) (i, j) = true.
Proof. intros. rewrite vis_at_mark. simpl. rewrite !Nat.eqb_refl. reflexivity. Qed.

Lemma vis_at_mark_mono : forall vis i j c,
  vis_at vis c = true -> vis_at (mark vis i j) c = true.
Proof.
  intros vis i j c H. rewrite vis_at_mark. destruct (_ && _); [reflexivity | exact H].
Qed.

Lemma filter_length_le : forall (p q : cell -> bool) l,
  (forall c, p c = true -> q c = true) ->
  List.length (filter p l) <= List.length (filter q l).
Proof.
  intros p q l H. induction l as [|c l IH]; simpl; [lia|].
  destruct (p c) eqn:Ep.
  - rewrite (H c Ep). simpl. lia.
  - destruct (q c); simpl; lia.
Qed.

Lemma filter_length_lt : forall (p q : cell -> bool) l x,
  (forall c, p c = true -> q c = true) ->
  In x l -> p x = false -> q x = true ->
  List.length (filter p l) < List.length (filter q l).
Proof.
  intros p q l x H. induction l as [|c l IH]; simpl; [intros []|].
  intros [->|Hin] Hp Hq.
  - rewrite Hp, Hq. simpl. pose proof (filter_length_le p q l H). lia.
  - specialize (IH Hin Hp Hq). destruct (p c) eqn:Ep.
    + rewrite (H c Ep). simpl. lia.
    + destruct (q c); simpl; lia.
Qed.

Lemma unvisited_mono : forall g vis vis',
  (forall c, vis_at vis c = true -> vis_at vis' c = true) ->
  unvisited g vis' <= unvisited g vis.
Proof.
  intros g vis vis' H. unfold unvisited. apply filter_length_le.
  intros c Hc. apply negb_true_iff in Hc. apply negb_true_iff.
  destruct (vis_at vis c) eqn:E; [|reflexivity].
  rewrite (H c E) in Hc. discriminate.
Qed.

Lemma unvisited_mark : forall g vis i j,
  in_grid g (i, j) -> vis_at vis (i, j) = false ->
  unvisited g (mark vis i j) < unvisited g vis.
Proof.
  intros g vis i j Hin Hv. unfold unvisited.
  apply filter_length_lt with (x := (i, j)).
  - intros c Hc. apply negb_true_iff in Hc. apply negb_true_iff.
    destruct (vis_at vis c) eqn:E; [|reflexivity].
    rewrite (vis_at_mark_mono vis i j c E) in Hc. discriminate.
  - apply in_cells. exact Hin.
  - rewrite vis_at_mark_same. reflexivity.
  - rewrite Hv. reflexivity.
Qed.

Lemma length_range2 : forall a b, List.length (range2 a b) = a * b.
Proof.
  intros a b. unfold range2.
  assert (H : forall l, List.length (flat_map (fun i : nat => map (fun j : nat => (i, j)) (seq 0 b)) l)
                        = List.length l * b).
  { induction l as [|x l IH]; simpl; [reflexivity|].
    rewrite length_app, length_map, length_seq, IH. reflexivity. }
  rewrite H, length_seq. reflexivity.
Qed.

Lemma filter_all_true : forall l : list cell, filter (fun _ => true) l = l.
Proof.
  induction l as [|c l IH]; simpl; [reflexivity|]. rewrite IH. reflexivity.
Qed.

Lemma unvisited_bound : forall g vis, unvisited g vis < S (dim_m g * dim_n g).
Proof.
  intros g vis. unfold unvisited.
  pose proof (filter_length_le (fun c => negb (vis_at vis c)) (fun _ => true) (cells g)
                               (fun _ _ => eq_refl)) as H.
  rewrite (filter_all_true (cells g)) in H. unfold cells in H at 2. rewrite length_range2 in H. lia.
Qed.

(** *** One call of [dfs] *)

Lemma grows_refl : forall g R vis, grows g R vis vis [].
Proof.
  intros g R vis. unfold grows.
  split; [intros c H; exact H|].
  split; [intros c []|].
  split; [intros c H; left; exact H|].
  intros c [].
Qed.

Lemma grows_app : forall g R v1 v2 v3 n n',
  grows g R v1 v2 n -> grows g R v2 v3 n' -> grows g R v1 v3 (n ++ n').
Proof.
  intros g R v1 v2 v3 n n' [A1 [A2 [A3 A4]]] [B1 [B2 [B3 B4]]].
  unfold grows.
  split; [intros c H; apply B1; apply A1; exact H|].
  split.
  { intros c H. apply in_app_or in H. destruct H as [H|H]; [apply A2; exact H|].
    destruct (B2 c H) as [Hv [Hg HR]]. split; [|split; assumption].
    destruct (vis_at v1 c) eqn:E; [|reflexivity].
    rewrite (A1 c E) in Hv. discriminate. }
  split.
  { intros c H. destruct (B3 c H) as [H2|H2].
    - destruct (A3 c H2) as [H1|H1]; [left; exact H1|].
      right. apply in_or_app. left. exact H1.
    - right. apply in_or_app. right. exact H2. }
  intros c H. apply in_app_or in H. destruct H as [H|H].
  - apply B1. apply A4. exact H.
  - apply B4. exact H.
Qed.

Lemma grows_weaken : forall g (R R' : cell -> Prop) v v' n,
  (forall c, R c -> R' c) -> grows g R v v' n -> grows g R' v v' n.
Proof.
  intros g R R' v v' n H [A1 [A2 [A3 A4]]]. unfold grows.
  split; [exact A1|]. split; [|split; [exact A3 | exact A4]].
  intros c Hc. destruct (A2 c Hc) as [X [Y Z]]. auto.
Qed.

Lemma closed_in_app : forall g n n' v2 v3,
  closed_in g n v2 -> (forall c, vis_at v2 c = true -> vis_at v3 c = true) ->
  closed_in g n' v3 -> closed_in g (n ++ n') v3.
Proof.
  intros g n n' v2 v3 H1 Hm H2 c d Hin Hl.
  apply in_app_or in Hin. destruct Hin as [Hin|Hin].
  - apply Hm. eapply H1; eauto.
  - eapply H2; eauto.
Qed.

Lemma dfs_call : forall fuel g r d (b : bool) vis comp,
  dfs_correct fuel g -> unvisited g vis < fuel ->
  (b = true -> short_link g r d) ->
  exists vis' new,
    (if b then dfs fuel g (fst d) (snd d) (vis, comp) else Some (vis, comp))
    = Some (vis', comp ++ new) /\
    grows g (short_path g r) vis vis' new /\
    closed_in g new vis' /\
    (b = true -> vis_at vis' d = true).
Proof.
  intros fuel g r [x y] b vis comp IH Hlt Hl. destruct b.
  - specialize (Hl eq_refl).
    destruct (IH x y vis comp Hlt) as [vis' [new [E [G [C V]]]]].
    exists vis', new. split; [exact E|]. split.
    + eapply grows_weaken; [|exact G]. intros c Hc.
      eapply short_path_trans; [apply short_path_one; exact Hl | exact Hc].
    + split; [exact C|]. intros _. apply V. apply (short_link_in_grid _ _ _ Hl).
  - exists vis, []. rewrite app_nil_r. split; [reflexivity|].
    split; [apply grows_refl|]. split; [intros c d []|discriminate].
Qed.

Lemma dfs_unfold : forall fuel g i j vis component,
  dfs (S fuel) g i j (vis, component) =
  if (dim_m g <=? i) || (dim_n g <=? j) || vis i j then Some (vis, component)
  else
    let st1 := (mark vis i j, component ++ [(i, j)]) in
    match (if (0 <? i) && traversable (vedge g (i - 1) j)
           then dfs fuel g (i - 1) j st1 else Some st1) with
    | None => None
    | Some st2 =>
      match (if (0 <? j) && traversable (hedge g i (j - 1))
             then dfs fuel g i (j - 1) st2 else Some st2) with
      | None => None
      | Some st3 =>
        match (if (i <? dim_m g - 1) && traversable (vedge g i j)
               then dfs fuel g (i + 1) j st3 else Some st3) with
        | None => None
        | Some st4 =>
          if (j <? dim_n g - 1) && traversable (hedge g i j)
          then dfs fuel g i (j + 1) st4 else Some st4
        end
      end
    end.
Proof. reflexivity. Qed.

(** The four tests of [dfs] are the short links that leave [(i,j)]. *)
Lemma link_cases : forall g i j d,
  short_link g (i, j) d ->
  ((0 <? i) && traversable (vedge g (i - 1) j) = true /\ d = (i - 1, j)) \/
  ((0 <? j) && traversable (hedge g i (j - 1)) = true /\ d = (i, j - 1)) \/
  ((i <? dim_m g - 1) && traversable (vedge g i j) = true /\ d = (i + 1, j)) \/
  ((j <? dim_n g - 1) && traversable (hedge g i j) = true /\ d = (i, j + 1)).
Proof.
  intros g i j d H. inversion H; subst.
  - right; right; left. split.
    + apply andb_true_iff. split; [apply Nat.ltb_lt; lia|].
      apply traversable_spec. auto.
    + rewrite Nat.add_1_r. reflexivity.
  - left. simpl. rewrite Nat.sub_0_r. split; [|reflexivity].
    apply traversable_spec. auto.
  - right; right; right. split.
    + apply andb_true_iff. split; [apply Nat.ltb_lt; lia|].
      apply traversable_spec. auto.
    + rewrite Nat.add_1_r. reflexivity.
  - right; left. simpl. rewrite Nat.sub_0_r. split; [|reflexivity].
    apply traversable_spec. auto.
Qed.

Lemma link_up_of_test : forall g i j,
  in_grid g (i, j) -> (0 <? i) && traversable (vedge g (i - 1) j) = true ->
  short_link g (i, j) (i - 1, j).
Proof.
  intros g i j [Hi Hj] H. simpl in *. apply andb_true_iff in H. destruct H as [H0 Ht].
  apply Nat.ltb_lt in H0. destruct i as [|i]; [lia|]. simpl in *.
  rewrite Nat.sub_0_r in *. apply traversable_spec in Ht. destruct Ht as [A [B C]].
  apply link_up; auto.
Qed.

Lemma link_left_of_test : forall g i j,
  in_grid g (i, j) -> (0 <? j) && traversable (hedge g i (j - 1)) = true ->
  short_link g (i, j) (i, j - 1).
Proof.
  intros g i j [Hi Hj] H. simpl in *. apply andb_true_iff in H. destruct H as [H0 Ht].
  apply Nat.ltb_lt in H0. destruct j as [|j]; [lia|]. simpl in *.
  rewrite Nat.sub_0_r in *. apply traversable_spec in Ht. destruct Ht as [A [B C]].
  apply link_left; auto.
Qed.

Lemma link_down_of_test : forall g i j,
  in_grid g (i, j) -> (i <? dim_m g - 1) && traversable (vedge g i j) = true ->
  short_link g (i, j) (i + 1, j).
Proof.
  intros g i j [Hi Hj] H. simpl in *. apply andb_true_iff in H. destruct H as [H0 Ht].
  apply Nat.ltb_lt in H0. rewrite Nat.add_1_r.
  apply traversable_spec in Ht. destruct Ht as [A [B C]].
  apply link_down; auto. lia.
Qed.

Lemma link_right_of_test : forall g i j,
  in_grid g (i, j) -> (j <? dim_n g - 1) && traversable (hedge g i j) = true ->
  short_link g (i, j) (i, j + 1).
Proof.
  intros g i j [Hi Hj] H. simpl in *. apply andb_true_iff in H. destruct H as [H0 Ht].
  apply Nat.ltb_lt in H0. rewrite Nat.add_1_r.
  apply traversable_spec in Ht. destruct Ht as [A [B C]].
  apply link_right; auto. lia.
Qed.

Lemma grows_mark : forall g vis i j,
  in_grid g (i, j) -> vis_at vis (i, j) = false ->
  grows g (short_path g (i, j)) vis (mark vis i j) [(i, j)].
Proof.
  intros g vis i j Hin Hv. unfold grows.
  split; [intros c H; apply vis_at_mark_mono; exact H|].
  split.
  { intros c [<-|[]]. split; [exact Hv|]. split; [exact Hin | apply path_here]. }
  split.
  { intros [x y] H. rewrite vis_at_mark in H. simpl in H.
    destruct ((x =? i) && (y =? j)) eqn:E.
    - apply andb_true_iff in E. destruct E as [E1 E2].
      apply Nat.eqb_eq in E1. apply Nat.eqb_eq in E2. subst. right. left. reflexivity.
    - left. exact H. }
  intros c [<-|[]]. apply vis_at_mark_same.
Qed.

Lemma dfs_spec : forall fuel g, dfs_correct fuel g.
Proof.
  induction fuel as [|fuel IH]; intros g i j vis comp Hlt; [lia|].
  rewrite dfs_unfold.
  destruct ((dim_m g <=? i) || (dim_n g <=? j) || vis i j) eqn:Estop.
  - exists vis, []. rewrite app_nil_r. split; [reflexivity|].
    split; [apply grows_refl|]. split; [intros c d []|].
    intros [Hi Hj]. simpl in Hi, Hj.
    apply orb_true_iff in Estop. destruct Estop as [Estop|Estop]; [|exact Estop].
    apply orb_true_iff in Estop. destruct Estop as [E|E]; apply Nat.leb_le in E; lia.
  - apply orb_false_iff in Estop. destruct Estop as [Estop Hv].
    apply orb_false_iff in Estop. destruct Estop as [Ei Ej].
    apply Nat.leb_gt in Ei. apply Nat.leb_gt in Ej.
    assert (Hin : in_grid g (i, j)) by (split; assumption).
    change (vis i j) with (vis_at vis (i, j)) in Hv.
    pose proof (unvisited_mark g vis i j Hin Hv) as Hm.
    pose proof (grows_mark g vis i j Hin Hv) as G1.
    cbv zeta.
    destruct (dfs_call fuel g (i, j) (i - 1, j)
                ((0 <? i) && traversable (vedge g (i - 1) j))
                (mark vis i j) (comp ++ [(i, j)]) (IH g) ltac:(lia)
                (link_up_of_test g i j Hin))
      as [v2 [n2 [E2 [G2 [C2 V2]]]]].
    simpl fst in E2; simpl snd in E2.
    pose proof (unvisited_mono g _ _ (proj1 G2)) as M2.
    destruct (dfs_call fuel g (i, j) (i, j - 1)
                ((0 <? j) && traversable (hedge g i (j - 1)))
                v2 ((comp ++ [(i, j)]) ++ n2) (IH g) ltac:(lia)
                (link_left_of_test g i j Hin))
      as [v3 [n3 [E3 [G3 [C3 V3]]]]].
    simpl fst in E3; simpl snd in E3.
    pose proof (unvisited_mono g _ _ (proj1 G3)) as M3.
    destruct (dfs_call fuel g (i, j) (i + 1, j)
                ((i <? dim_m g - 1) && traversable (vedge g i j))
                v3 (((comp ++ [(i, j)]) ++ n2) ++ n3) (IH g) ltac:(lia)
                (link_down_of_test g i j Hin))
      as [v4 [n4 [E4 [G4 [C4 V4]]]]].
    simpl fst in E4; simpl snd in E4.
    pose proof (unvisited_mono g _ _ (proj1 G4)) as M4.
    destruct (dfs_call fuel g (i, j) (i, j + 1)
                ((j <? dim_n g - 1) && traversable (hedge g i j))
                v4 ((((comp ++ [(i, j)]) ++ n2) ++ n3) ++ n4) (IH g) ltac:(lia)
                (link_right_of_test g i j Hin))
      as [v5 [n5 [E5 [G5 [C5 V5]]]]].
    simpl fst in E5; simpl snd in E5.
    exists v5, ([(i, j)] ++ n2 ++ n3 ++ n4 ++ n5).
    split.
    { cbv beta iota zeta. unfold dfs_state, cell in *.
      rewrite E2. cbv beta iota. rewrite E3. cbv beta iota.
      rewrite E4. cbv beta iota. rewrite E5. rewrite !app_assoc. reflexivity. }
    pose proof (grows_app _ _ _ _ _ _ _ G1
                  (grows_app _ _ _ _ _ _ _ G2
                     (grows_app _ _ _ _ _ _ _ G3 (grows_app _ _ _ _ _ _ _ G4 G5)))) as G.
    split; [exact G|].
    assert (T5 : forall c, vis_at v4 c = true -> vis_at v5 c = true) by apply G5.
    assert (T4 : forall c, vis_at v3 c = true -> vis_at v5 c = true)
      by (intros c H; apply T5; apply (proj1 G4); exact H).
    assert (T3 : forall c, vis_at v2 c = true -> vis_at v5 c = true)
      by (intros c H; apply T4; apply (proj1 G3); exact H).
    assert (T2 : forall c, vis_at (mark vis i j) c = true -> vis_at v5 c = true)
      by (intros c H; apply T3; apply (proj1 G2); exact H).
    split.
    + intros c d Hc Hl. simpl in Hc. destruct Hc as [<-|Hc].
      * destruct (link_cases g i j d Hl) as [[B ->]|[[B ->]|[[B ->]|[B ->]]]].
        -- apply T3. apply V2. exact B.
        -- apply T4. apply V3. exact B.
        -- apply T5. apply V4. exact B.
        -- apply V5. exact B.
      * apply in_app_or in Hc. destruct Hc as [Hc|Hc]; [apply T3; eapply C2; eauto|].
        apply in_app_or in Hc. destruct Hc as [Hc|Hc]; [apply T4; eapply C3; eauto|].
        apply in_app_or in Hc. destruct Hc as [Hc|Hc]; [apply T5; eapply C4; eauto|].
        eapply C5; eauto.
    + intros _. apply T2. apply vis_at_mark_same.
Qed.

(** *** The outer loop *)

Lemma ForallOrdPairs_snoc : forall (R : list cell -> list cell -> Prop) l x,
  ForallOrdPairs R l -> (forall a, In a l -> R a x) -> ForallOrdPairs R (l ++ [x]).
Proof.
  intros R l x H. induction H as [|a l Ha Hl IH]; intros Hx; simpl.
  - constructor; constructor.
  - constructor.
    + apply Forall_app. split; [exact Ha|].
      constructor; [|constructor]. apply Hx. left. reflexivity.
    + apply IH. intros b Hb. apply Hx. right. exact Hb.
Qed.

Lemma components_inv_init : forall g, components_inv g (fun _ _ => false) [].
Proof.
  intros g. unfold components_inv.
  split; [intros c d H; discriminate H|].
  split; [intros c; split; [intros H; discriminate H | intros [comp [[] _]]]|].
  split; [intros comp c d []|constructor].
Qed.

Lemma components_round : forall g vis comps i j,
  components_inv g vis comps -> in_grid g (i, j) ->
  exists vis' comps',
    components_step (S (dim_m g * dim_n g)) g (Some (vis, comps)) (i, j)
    = Some (vis', comps') /\
    components_inv g vis' comps' /\
    (forall c, vis_at vis c = true -> vis_at vis' c = true) /\
    vis_at vis' (i, j) = true.
Proof.
  intros g vis comps i j [Hcl [Hcov [Hcls Hdis]]] Hin.
  unfold components_step. simpl fst. simpl snd.
  destruct (vis i j) eqn:Hv.
  - exists vis, comps. split; [reflexivity|].
    split; [unfold components_inv; auto|]. split; [auto | exact Hv].
  - destruct (dfs_spec (S (dim_m g * dim_n g)) g i j vis [] (unvisited_bound g vis))
      as [vis' [new [E [[G1 [G2 [G3 G4]]] [C V]]]]].
    change ([] ++ new) with new in E. rewrite E.
    exists vis', (comps ++ [new]). split; [reflexivity|].
    assert (Hcl' : closed g vis').
    { intros c d Hc Hl. destruct (G3 c Hc) as [H|H].
      - apply G1. eapply Hcl; eauto.
      - eapply C; eauto. }
    assert (Hroot : vis_at vis' (i, j) = true) by (apply V; exact Hin).
    assert (K : forall d, In d new <-> short_path g (i, j) d).
    { intros d. split.
      - intros Hd. apply G2. exact Hd.
      - intros Hp. pose proof (closed_path g vis' _ _ Hcl' Hp Hroot) as Hd.
        destruct (G3 d Hd) as [H|H]; [|exact H].
        exfalso. pose proof (closed_path g vis _ _ Hcl (short_path_sym _ _ _ Hp) H) as X.
        unfold vis_at in X. simpl in X. congruence. }
    split; [|split; [exact G1 | exact Hroot]].
    unfold components_inv. split; [exact Hcl'|]. split; [|split].
    + intros c. split.
      * intros Hc. destruct (G3 c Hc) as [H|H].
        -- apply Hcov in H. destruct H as [comp [H1 H2]].
           exists comp. split; [apply in_or_app; left; exact H1 | exact H2].
        -- exists new. split; [apply in_or_app; right; left; reflexivity | exact H].
      * intros [comp [H1 H2]]. apply in_app_or in H1. destruct H1 as [H1|[<-|[]]].
        -- apply G1. apply Hcov. exists comp. auto.
        -- apply G4. exact H2.
    + intros comp c d H1 H2. apply in_app_or in H1. destruct H1 as [H1|[<-|[]]].
      * apply Hcls; assumption.
      * split; [apply G2; exact H2|].
        pose proof (proj1 (K c) H2) as Pc. rewrite K. split.
        -- intros Pd. eapply short_path_trans; [apply short_path_sym; exact Pc | exact Pd].
        -- intros Pd. eapply short_path_trans; [exact Pc | exact Pd].
    + apply ForallOrdPairs_snoc; [exact Hdis|].
      intros a Ha c Hc Hn. destruct (G2 c Hn) as [Hf _].
      assert (Ht : vis_at vis c = true) by (apply Hcov; exists a; auto).
      congruence.
Qed.

Lemma components_fold : forall g l vis comps,
  components_inv g vis comps -> (forall c, In c l -> in_grid g c) ->
  exists vis' comps',
    fold_left (components_step (S (dim_m g * dim_n g)) g) l (Some (vis, comps))
    = Some (vis', comps') /\
    components_inv g vis' comps' /\
    (forall c, vis_at vis c = true -> vis_at vis' c = true) /\
    (forall c, In c l -> vis_at vis' c = true).
Proof.
  intros g l. induction l as [|[i j] l IH]; intros vis comps Hinv Hl.
  - exists vis, comps. simpl. split; [reflexivity|]. split; [exact Hinv|].
    split; [auto | intros c []].
  - destruct (components_round g vis comps i j Hinv (Hl _ (or_introl eq_refl)))
      as [v1 [c1 [E1 [I1 [M1 R1]]]]].
    destruct (IH v1 c1 I1 (fun c Hc => Hl c (or_intror Hc)))
      as [v2 [c2 [E2 [I2 [M2 R2]]]]].
    exists v2, c2. cbn [fold_left]. rewrite E1. split; [exact E2|].
    split; [exact I2|]. split; [intros c Hc; apply M2; apply M1; exact Hc|].
    intros c [<-|Hc]; [apply M2; exact R1 | apply R2; exact Hc].
Qed.

(** *** Numbering the components *)

Lemma fold_set_node : forall comp gn v (c : cell),
  In c comp \/ gn (fst c) (snd c) = v ->
  fold_left (fun acc x => set_node acc (fst x) (snd x) v) comp gn (fst c) (snd c) = v.
Proof.
  induction comp as [|x comp IH]; intros gn v c H; simpl.
  - destruct H as [[]|H]. exact H.
  - apply IH. unfold set_node.
    destruct ((fst c =? fst x) && (snd c =? snd x)) eqn:E; [right; reflexivity|].
    destruct H as [[->|H]|H]; [|left; exact H | right; exact H].
    rewrite !Nat.eqb_refl in E. discriminate.
Qed.

Lemma fold_set_node_other : forall comp gn v (c : cell),
  ~ In c comp ->
  fold_left (fun acc x => set_node acc (fst x) (snd x) v) comp gn (fst c) (snd c)
  = gn (fst c) (snd c).
Proof.
  induction comp as [|x comp IH]; intros gn v c H; simpl; [reflexivity|].
  rewrite IH by (intros Hc; apply H; right; exact Hc).
  unfold set_node. destruct ((fst c =? fst x) && (snd c =? snd x)) eqn:E; [|reflexivity].
  apply andb_true_iff in E. destruct E as [E1 E2].
  apply Nat.eqb_eq in E1. apply Nat.eqb_eq in E2.
  exfalso. apply H. left. destruct c, x; simpl in *; subst; reflexivity.
Qed.

Lemma fill_nodes_other : forall comps i gn (c : cell),
  (forall comp, In comp comps -> ~ In c comp) ->
  fill_nodes comps i gn (fst c) (snd c) = gn (fst c) (snd c).
Proof.
  induction comps as [|comp comps IH]; intros i gn c H; simpl; [reflexivity|].
  rewrite IH by (intros x Hx; apply H; right; exact Hx).
  apply fold_set_node_other. apply H. left. reflexivity.
Qed.

Lemma fill_nodes_at : forall comps i gn k comp (c : cell),
  ForallOrdPairs (fun a b => forall c, In c a -> ~ In c b) comps ->
  nth_error comps k = Some comp -> In c comp ->
  fill_nodes comps i gn (fst c) (snd c) = (i + Z.of_nat k)%Z.
Proof.
  induction comps as [|x comps IH]; intros i gn k comp c Hd Hn Hc.
  - destruct k; discriminate Hn.
  - inversion Hd as [|a l Ha Hl]; subst. destruct k as [|k]; simpl in Hn.
    + inversion Hn; subst. simpl fill_nodes.
      rewrite fill_nodes_other.
      * rewrite fold_set_node by (left; exact Hc). lia.
      * intros y Hy. rewrite Forall_forall in Ha. apply Ha; assumption.
    + simpl fill_nodes. rewrite (IH _ _ k comp c Hl Hn Hc). lia.
Qed.

Lemma grid_components_spec : forall g,
  exists vis comps,
    grid_components g = Some comps /\
    components_inv g vis comps /\
    (forall c, in_grid g c -> vis_at vis c = true).
Proof.
  intros g.
  destruct (components_fold g (cells g) (fun _ _ => false) [] (components_inv_init g)
              (fun c Hc => proj1 (in_cells g c) Hc))
    as [vis [comps [E [I [_ R]]]]].
  exists vis, comps. unfold grid_components.
  match goal with
  | |- context [fold_left ?f ?l ?a] =>
    replace (fold_left f l a) with (Some (vis, comps)) by (symmetry; exact E)
  end.
  split; [reflexivity|]. split; [exact I|].
  intros c Hc. apply R. apply in_cells. exact Hc.
Qed.

(** The flood fill always returns. *)
Lemma _get_grid_nodes_total : forall g, exists gn k, _get_grid_nodes g = Some (gn, k).
Proof.
  intros g. destruct (grid_components_spec g) as [vis [comps [E _]]].
  unfold _get_grid_nodes. rewrite E. eexists; eexists; reflexivity.
Qed.

Lemma resolver_spec : forall g,
  exists gn k,
    _get_grid_nodes g = Some (gn, k) /\
    (forall a, in_grid g a -> (0 <= gn (fst a) (snd a))%Z) /\
    forall a b, in_grid g a -> in_grid g b ->
      (gn (fst a) (snd a) = gn (fst b) (snd b) <-> short_path g a b).
Proof.
  intros g. destruct (grid_components_spec g) as [vis [comps [E [I R]]]].
  unfold _get_grid_nodes. rewrite E. eexists; eexists. split; [reflexivity|].
  destruct I as [_ [Hcov [Hcls Hdis]]]. split.
  - intros a Ha.
    destruct (proj1 (Hcov a) (R a Ha)) as [ca [Hca Ia]].
    destruct (In_nth_error _ _ Hca) as [ka Ka].
    rewrite (fill_nodes_at comps 0 (fun _ _ => 0%Z) ka ca a Hdis Ka Ia). lia.
  - intros a b Ha Hb.
    destruct (proj1 (Hcov a) (R a Ha)) as [ca [Hca Ia]].
    destruct (proj1 (Hcov b) (R b Hb)) as [cb [Hcb Ib]].
    destruct (In_nth_error _ _ Hca) as [ka Ka].
    destruct (In_nth_error _ _ Hcb) as [kb Kb].
    rewrite (fill_nodes_at comps 0 (fun _ _ => 0%Z) ka ca a Hdis Ka Ia).
    split.
    + rewrite (fill_nodes_at comps 0 (fun _ _ => 0%Z) kb cb b Hdis Kb Ib).
      intros H. assert (ka = kb) by lia. subst kb.
      rewrite Ka in Kb. inversion Kb; subst cb.
      apply (Hcls ca a b Hca Ia). exact Ib.
    + intros Hp. apply (Hcls ca a b Hca Ia) in Hp.
      rewrite (fill_nodes_at comps 0 (fun _ _ => 0%Z) ka ca b Hdis Ka Hp). reflexivity.
Qed.

Lemma reground_grid_nodes_eq : forall v (gn : node_map) a b,
  (0 <= gn (fst a) (snd a))%Z -> (0 <= gn (fst b) (snd b))%Z ->
  (reground_grid_nodes v gn (fst a) (snd a) = reground_grid_nodes v gn (fst b) (snd b)
   <-> gn (fst a) (snd a) = gn (fst b) (snd b)).
Proof.
  intros v gn a b Ha Hb. unfold reground_grid_nodes.
  destruct (Z.eqb_spec (gn (fst a) (snd a) + 1) (v + 1)),
           (Z.eqb_spec (gn (fst b) (snd b) + 1) (v + 1)); lia.
Qed.

(** C3. The resolver returns for every grid, and two junctions of the grid
    get the same node number exactly when a chain of present edges of
    type short without measurement joins them; the node numbers that a
    constructed circuit keeps after re-grounding still tell the same. *)
Theorem same_node_iff_short_path : forall g,
  (exists gn k,
     _get_grid_nodes g = Some (gn, k) /\
     forall a b, in_grid g a -> in_grid g b ->
       (gn (fst a) (snd a) = gn (fst b) (snd b) <-> short_path g a b)) /\
  (forall note ann rlc c,
     Circuit note g ann rlc = Ok c ->
     forall a b, in_grid g a -> in_grid g b ->
       (grid_nodes c (fst a) (snd a) = grid_nodes c (fst b) (snd b)
        <-> short_path g a b)).
Proof.
  intros g. destruct (resolver_spec g) as [gn [k [E [Hpos H]]]]. split.
  - exists gn, k. split; [exact E | exact H].
  - intros note ann rlc c HC a b Ha Hb.
    unfold Circuit, _init_netlist in HC. rewrite E in HC.
    assert (Hr : forall v,
              reground_grid_nodes v gn (fst a) (snd a)
              = reground_grid_nodes v gn (fst b) (snd b) <-> short_path g a b).
    { intros v. rewrite reground_grid_nodes_eq by (apply Hpos; assumption).
      apply H; assumption. }
    destruct (assemble note g gn) as [s|e|]; simpl in HC; try discriminate.
    destruct s as [bs n|bs].
    + destruct (control_check bs); simpl in HC.
      * destruct (vs_neg_node_old bs) as [v|]; simpl in HC; inversion HC; subst; simpl.
        -- apply Hr.
        -- apply H; assumption.
      * inversion HC; subst; simpl. apply H; assumption.
    + inversion HC; subst; simpl. apply H; assumption.
Qed.

Lemma same_node_iff_short_path_witness :
  (exists gn k,
     _get_grid_nodes shorted_grid = Some (gn, k) /\
     (gn 0 0 = gn 1 0 <-> short_path shorted_grid (0, 0) (1, 0))) /\
  (grid_nodes loop_circuit 0 0 = grid_nodes loop_circuit 1 0
   <-> short_path loop_grid (0, 0) (1, 0)).
Proof.
  split.
  - destruct (proj1 (same_node_iff_short_path shorted_grid)) as [gn [k [E H]]].
    exists gn, k. split; [exact E|].
    apply (H (0, 0) (1, 0)); unfold in_grid; simpl; lia.
  - apply (proj2 (same_node_iff_short_path loop_grid) 11%Z false false loop_circuit
             loop_circuit_built (0, 0) (1, 0)); unfold in_grid; simpl; lia.
Defined.

(** ** Edge positions and edge updates *)

Lemma pos_eqb_eq : forall p q, pos_eqb p q = true <-> p = q.
Proof.
  intros [i j|i j] [a b|a b]; simpl; split; intros H; try discriminate.
  - apply andb_true_iff in H. destruct H as [H1 H2].
    apply Nat.eqb_eq in H1. apply Nat.eqb_eq in H2. subst. reflexivity.
  - inversion H; subst. rewrite !Nat.eqb_refl. reflexivity.
  - apply andb_true_iff in H. destruct H as [H1 H2].
    apply Nat.eqb_eq in H1. apply Nat.eqb_eq in H2. subst. reflexivity.
  - inversion H; subst. rewrite !Nat.eqb_refl. reflexivity.
Qed.

Lemma pos_eq_dec : forall p q : pos, {p = q} + {p <> q}.
Proof.
  intros p q. destruct (pos_eqb p q) eqn:E.
  - left. apply pos_eqb_eq. exact E.
  - right. intros H. apply pos_eqb_eq in H. congruence.
Qed.

Lemma get_set_same : forall g p e, get_edge (set_edge g p e) p = e.
Proof. intros g [i j|i j] e; simpl; rewrite !Nat.eqb_refl; reflexivity. Qed.

Lemma get_set_other : forall g p q e, p <> q -> get_edge (set_edge g p e) q = get_edge g q.
Proof.
  intros g [i j|i j] [a b|a b] e H; simpl; try reflexivity.
  - destruct ((a =? i) && (b =? j)) eqn:E; [|reflexivity].
    apply andb_true_iff in E. destruct E as [E1 E2].
    apply Nat.eqb_eq in E1. apply Nat.eqb_eq in E2. subst. contradiction.
  - destruct ((a =? i) && (b =? j)) eqn:E; [|reflexivity].
    apply andb_true_iff in E. destruct E as [E1 E2].
    apply Nat.eqb_eq in E1. apply Nat.eqb_eq in E2. subst. contradiction.
Qed.

Lemma get_set : forall g p q e,
  get_edge (set_edge g p e) q = if pos_eqb p q then e else get_edge g q.
Proof.
  intros g p q e. destruct (pos_eqb p q) eqn:E.
  - apply pos_eqb_eq in E. subst. apply get_set_same.
  - apply get_set_other. intros H. apply pos_eqb_eq in H. congruence.
Qed.

Lemma set_edge_dims : forall g p e,
  dim_m (set_edge g p e) = dim_m g /\ dim_n (set_edge g p e) = dim_n g.
Proof. intros g [i j|i j] e; split; reflexivity. Qed.

Lemma positions_set_edge : forall g p e, positions (set_edge g p e) = positions g.
Proof.
  intros g p e. unfold positions. destruct (set_edge_dims g p e) as [-> ->]. reflexivity.
Qed.

Lemma NoDup_range2 : forall a b, NoDup (range2 a b).
Proof.
  intros a b. unfold range2.
  assert (H : forall l, NoDup l ->
            NoDup (flat_map (fun i : nat => map (fun j : nat => (i, j)) (seq 0 b)) l)).
  { induction l as [|x l IH]; intros Hl; simpl; [constructor|].
    inversion Hl; subst. apply NoDup_app.
    - apply Injective_map_NoDup; [|apply seq_NoDup].
      intros u v E. inversion E. reflexivity.
    - apply IH. assumption.
    - intros c Hc Hc'. apply in_map_iff in Hc. destruct Hc as [y [<- _]].
      apply in_flat_map in Hc'. destruct Hc' as [z [Hz Hc']].
      apply in_map_iff in Hc'. destruct Hc' as [w [E _]]. inversion E; subst.
      contradiction. }
  apply H. apply seq_NoDup.
Qed.

Lemma in_vpositions : forall m n p,
  In p (vpositions m n) <-> exists i j, p = V_at i j /\ i < m - 1 /\ j < n.
Proof.
  intros m n p. unfold vpositions. rewrite in_map_iff. split.
  - intros [[i j] [<- H]]. apply in_range2 in H. exists i, j. simpl. auto.
  - intros [i [j [-> H]]]. exists (i, j). split; [reflexivity|]. apply in_range2. exact H.
Qed.

Lemma in_hpositions : forall m n p,
  In p (hpositions m n) <-> exists i j, p = H_at i j /\ i < m /\ j < n - 1.
Proof.
  intros m n p. unfold hpositions. rewrite in_map_iff. split.
  - intros [[i j] [<- H]]. apply in_range2 in H. exists i, j. simpl. auto.
  - intros [i [j [-> H]]]. exists (i, j). split; [reflexivity|]. apply in_range2. exact H.
Qed.

Lemma NoDup_positions : forall g, NoDup (positions g).
Proof.
  intros g. unfold positions. apply NoDup_app.
  - unfold vpositions. apply Injective_map_NoDup; [|apply NoDup_range2].
    intros [a b] [c d] E. inversion E. reflexivity.
  - unfold hpositions. apply Injective_map_NoDup; [|apply NoDup_range2].
    intros [a b] [c d] E. inversion E. reflexivity.
  - intros p Hv Hh. apply in_vpositions in Hv. apply in_hpositions in Hh.
    destruct Hv as [i [j [-> _]]]. destruct Hh as [a [b [E _]]]. discriminate E.
Qed.

Lemma all_edges_set : forall (P : edge -> Prop) g p e,
  all_edges P g -> P e -> all_edges P (set_edge g p e).
Proof.
  intros P g p e H He q. rewrite get_set. destruct (pos_eqb p q); [exact He | apply H].
Qed.

Lemma choice_in : forall (A : Type) (l : list A) k d, l <> [] -> In (choice l k d) l.
Proof.
  intros A l k d H. unfold choice. apply nth_In.
  apply Nat.mod_upper_bound. destruct l; [contradiction | simpl; lia].
Qed.

(** ** Branches come from edges *)

Lemma add_edge_from_edges : forall g p a b bs k,
  from_edges g bs -> from_edges g (branches_of (add_edge (get_edge g p) a b bs k)).
Proof.
  intros g p a b bs k H. unfold add_edge.
  destruct (a =? b)%Z.
  - destruct (negb _); exact H.
  - destruct (_check_conflict_component_measure _ _); [exact H|].
    simpl. intros x Hx. apply in_app_or in Hx. destruct Hx as [Hx|[<-|[]]].
    + apply H. exact Hx.
    + exists p. simpl. auto.
Qed.

Lemma netlist_cell_from_edges : forall note g gn acc c s,
  (forall s0, acc = Ok s0 -> from_edges g (branches_of s0)) ->
  netlist_cell note g gn acc c = Ok s -> from_edges g (branches_of s).
Proof.
  intros note g gn acc c s Hacc H. unfold netlist_cell in H.
  destruct acc as [[bs k|bs]|e|]; try discriminate.
  - specialize (Hacc _ eq_refl). simpl in Hacc.
    destruct (note <=? 9)%Z; [discriminate|].
    destruct ((snd c <? dim_n g - 1) && has_edge (hedge g (fst c) (snd c))).
    + destruct (component_eqb (comp_type (hedge g (fst c) (snd c))) TYPE_OPEN);
        [discriminate|].
      simpl in H.
      pose proof (add_edge_from_edges g (H_at (fst c) (snd c)) (gn (fst c) (snd c))
                    (gn (fst c) (snd c + 1)) bs k Hacc) as H1.
      simpl get_edge in H1.
      destruct (add_edge (hedge g (fst c) (snd c)) (gn (fst c) (snd c))
                         (gn (fst c) (snd c + 1)) bs k) as [bs1 k1|bs1].
      * destruct ((fst c <? dim_m g - 1) && has_edge (vedge g (fst c) (snd c)));
          inversion H; subst; [|exact H1].
        apply (add_edge_from_edges g (V_at (fst c) (snd c))). exact H1.
      * inversion H; subst. exact H1.
    + simpl in H.
      destruct ((fst c <? dim_m g - 1) && has_edge (vedge g (fst c) (snd c)));
        inversion H; subst; [|exact Hacc].
      apply (add_edge_from_edges g (V_at (fst c) (snd c))). exact Hacc.
  - inversion H; subst. apply Hacc. reflexivity.
Qed.

Lemma assemble_fold_from_edges : forall note g gn l acc s,
  (forall s0, acc = Ok s0 -> from_edges g (branches_of s0)) ->
  fold_left (netlist_cell note g gn) l acc = Ok s -> from_edges g (branches_of s).
Proof.
  intros note g gn l. induction l as [|c l IH]; intros acc s Hacc H; simpl in H.
  - apply Hacc. exact H.
  - apply (IH _ _ (fun s0 E => netlist_cell_from_edges note g gn acc c s0 Hacc E) H).
Qed.

Lemma Circuit_branches_from_edges : forall note g ann rlc c,
  Circuit note g ann rlc = Ok c ->
  exists bs f, from_edges g bs /\ branches c = map f bs /\ forall b, same_device (f b) b.
Proof.
  intros note g ann rlc c H. unfold Circuit, _init_netlist in H.
  destruct (_get_grid_nodes g) as [[gn k]|]; [|discriminate].
  destruct (assemble note g gn) as [s|e|] eqn:Ea; simpl in H; try discriminate.
  assert (Hs : from_edges g (branches_of s)).
  { apply (assemble_fold_from_edges note g gn (cells g) (Ok (Running [] 0)) s); [|exact Ea].
    intros s0 E. inversion E; subst. intros b []. }
  assert (Hid : forall bs : list branch, bs = map (fun b => b) bs)
    by (intros bs; symmetry; apply map_id).
  assert (Hsd : forall b, same_device b b) by (intros b; unfold same_device; repeat split).
  destruct s as [bs n|bs]; simpl in Hs.
  - destruct (control_check bs); simpl in H.
    + destruct (vs_neg_node_old bs) as [v|] eqn:Ev; simpl in H; inversion H; subst; simpl.
      * destruct (reground_as_map bs) as [f [E Hf]]. exists bs, f. auto.
      * exists bs, (fun b => b). auto.
    + inversion H; subst; simpl. exists bs, (fun b => b). auto.
  - inversion H; subst; simpl. exists bs, (fun b => b). auto.
Qed.

(** ** The sampler never measures a dependent source *)

Lemma fold_all_edges : forall (P : edge -> Prop) (step : grid -> pos -> grid),
  (forall g p, all_edges P g -> all_edges P (step g p)) ->
  forall l g, all_edges P g -> all_edges P (fold_left step l g).
Proof.
  intros P step Hstep l. induction l as [|p l IH]; intros g Hg; simpl; [exact Hg|].
  apply IH. apply Hstep. exact Hg.
Qed.

Lemma sample_edge_unmeasured : forall d outer st p,
  all_edges unmeasured_if_dependent (s_grid st) ->
  all_edges unmeasured_if_dependent (s_grid (sample_edge d outer st p)).
Proof.
  intros d outer st p H. unfold sample_edge.
  fold (drawn_type d outer p).
  destruct (component_eqb (drawn_type d outer p) TYPE_OPEN) eqn:Eo; simpl.
  - apply all_edges_set; [exact H|]. apply component_eqb_eq in Eo.
    unfold unmeasured_if_dependent. simpl. rewrite Eo. discriminate.
  - apply all_edges_set; [exact H|].
    unfold unmeasured_if_dependent, is_dependent. simpl.
    intros Hd. rewrite Hd. auto.
Qed.

Lemma sample_edges_unmeasured : forall d m n,
  all_edges unmeasured_if_dependent (s_grid (sample_edges d m n)).
Proof.
  intros d m n. unfold sample_edges.
  assert (H : forall (f : pos -> bool) l st,
            all_edges unmeasured_if_dependent (s_grid st) ->
            all_edges unmeasured_if_dependent
              (s_grid (fold_left (fun st p => sample_edge d (f p) st p) l st))).
  { intros f l. induction l as [|p l IH]; intros st Hst; simpl; [exact Hst|].
    apply IH. apply sample_edge_unmeasured. exact Hst. }
  apply H. apply H. simpl. intros p. destruct p; simpl;
    unfold unmeasured_if_dependent; simpl; discriminate.
Qed.

(** An update that keeps the type or moves to a type that is not a
    dependent source, and keeps the measurement or clears it to none on
    such a type. *)
Lemma unmeasured_retype : forall e e',
  unmeasured_if_dependent e ->
  (comp_type e' = comp_type e /\ comp_measure e' = comp_measure e /\
   comp_measure_label e' = comp_measure_label e) \/
  is_dependent (comp_type e') = false ->
  unmeasured_if_dependent e'.
Proof.
  intros e e' H [[Ht [Hm Hl]]|Hn]; unfold unmeasured_if_dependent in *.
  - rewrite Ht, Hm, Hl. exact H.
  - rewrite Hn. discriminate.
Qed.

Lemma bind_controls_unmeasured : forall d labels sources g,
  all_edges unmeasured_if_dependent g ->
  all_edges unmeasured_if_dependent (bind_controls d labels sources g).
Proof.
  intros d labels sources g H. unfold bind_controls.
  apply fold_all_edges; [|exact H].
  intros g0 p H0. apply all_edges_set; [exact H0|].
  eapply unmeasured_retype; [apply (H0 p)|]. left. simpl. auto.
Qed.

Lemma ensure_reactive_unmeasured : forall d g,
  all_edges unmeasured_if_dependent g ->
  all_edges unmeasured_if_dependent (ensure_reactive d g).
Proof.
  intros d g H. unfold ensure_reactive.
  destruct (existsb _ _); [exact H|].
  destruct (filter (is_resistor_candidate g) (positions g)) as [|c0 rest]; [exact H|].
  apply all_edges_set; [exact H|].
  eapply unmeasured_retype; [apply (H c0)|]. right. simpl.
  assert (Hc : In (choice [TYPE_CAPACITOR; TYPE_INDUCTOR] (rlc_type_pick d) TYPE_CAPACITOR)
                  [TYPE_CAPACITOR; TYPE_INDUCTOR]) by (apply choice_in; discriminate).
  destruct Hc as [<-|[<-|[]]]; reflexivity.
Qed.

Lemma convert_unmeasured : forall d g,
  all_edges unmeasured_if_dependent g ->
  all_edges unmeasured_if_dependent (convert_current_sources d g).
Proof.
  intros d g H. unfold convert_current_sources.
  apply fold_all_edges; [|exact H].
  intros g0 p H0. destruct (component_eqb _ _); [|exact H0].
  apply all_edges_set; [exact H0|].
  eapply unmeasured_retype; [apply (H0 p)|]. right. reflexivity.
Qed.

Lemma demote_unmeasured : forall vp g p,
  all_edges unmeasured_if_dependent g ->
  all_edges unmeasured_if_dependent (demote_to_resistor vp g p).
Proof.
  intros vp g p H. unfold demote_to_resistor.
  apply all_edges_set; [exact H|].
  eapply unmeasured_retype; [apply (H p)|]. right. reflexivity.
Qed.

Lemma enforce_voltage_unmeasured : forall d g,
  all_edges unmeasured_if_dependent g ->
  all_edges unmeasured_if_dependent (enforce_voltage_source d g).
Proof.
  intros d g H. unfold enforce_voltage_source.
  destruct (voltage_positions g) as [|keep [|x rest]].
  - destruct (filter (is_candidate g) (positions g)) as [|c0 rest]; [exact H|].
    apply all_edges_set; [exact H|].
    eapply unmeasured_retype; [apply (H c0)|]. right. reflexivity.
  - exact H.
  - apply fold_all_edges; [|exact H]. intros g0 p. apply demote_unmeasured.
Qed.

Lemma enforce_integrator_unmeasured : forall d g,
  all_edges unmeasured_if_dependent g ->
  all_edges unmeasured_if_dependent (enforce_integrator d g).
Proof.
  intros d g H. unfold enforce_integrator.
  destruct (positions_of_type TYPE_OPAMP_INTEGRATOR g) as [|keep [|x rest]].
  - destruct (filter (is_resistor_candidate g) (positions g)) as [|c0 rest]; [exact H|].
    apply all_edges_set; [exact H|].
    eapply unmeasured_retype; [apply (H c0)|]. right. reflexivity.
  - exact H.
  - apply fold_all_edges; [|exact H]. intros g0 p. apply demote_unmeasured.
Qed.

Lemma relabel_fold_all_edges : forall (P : edge -> Prop),
  (forall e l, P e -> P (with_label e l)) ->
  forall l g cc, all_edges P g -> all_edges P (fst (fold_left relabel_edge l (g, cc))).
Proof.
  intros P HP l. induction l as [|p l IH]; intros g cc H; simpl; [exact H|].
  destruct (counter_get cc (comp_type (get_edge g p))) as [k|].
  - apply IH. apply all_edges_set; [exact H|]. apply HP. apply H.
  - apply IH. exact H.
Qed.

Lemma reassign_unmeasured : forall g,
  all_edges unmeasured_if_dependent g ->
  all_edges unmeasured_if_dependent (reassign_unique_labels g).
Proof.
  intros g H. unfold reassign_unique_labels. apply relabel_fold_all_edges; [|exact H].
  intros e l He. eapply unmeasured_retype; [exact He|]. left. simpl. auto.
Qed.

Lemma clear_unmeasured : forall g,
  all_edges unmeasured_if_dependent g ->
  all_edges unmeasured_if_dependent (clear_source_measure g).
Proof.
  intros g H. unfold clear_source_measure.
  apply fold_all_edges; [|exact H].
  intros g0 p H0. destruct (component_eqb _ _) eqn:E; [|exact H0].
  apply all_edges_set; [exact H0|]. apply component_eqb_eq in E.
  eapply unmeasured_retype; [apply (H0 p)|]. right. simpl. rewrite E. reflexivity.
Qed.

Lemma enforce_constraints_unmeasured : forall integrator rlc d g,
  all_edges unmeasured_if_dependent g ->
  all_edges unmeasured_if_dependent (enforce_constraints integrator rlc d g).
Proof.
  intros integrator rlc d g H. unfold enforce_constraints.
  assert (H3 : all_edges unmeasured_if_dependent
                 (reassign_unique_labels
                    (enforce_voltage_source d (convert_current_sources d g)))).
  { apply reassign_unmeasured, enforce_voltage_unmeasured, convert_unmeasured. exact H. }
  assert (H4 : all_edges unmeasured_if_dependent
                 (if integrator
                  then reassign_unique_labels
                         (enforce_integrator d
                            (reassign_unique_labels
                               (enforce_voltage_source d (convert_current_sources d g))))
                  else reassign_unique_labels
                         (enforce_voltage_source d (convert_current_sources d g)))).
  { destruct integrator; [|exact H3].
    apply reassign_unmeasured, enforce_integrator_unmeasured. exact H3. }
  destruct rlc; [apply clear_unmeasured|]; exact H4.
Qed.

Lemma sample_attempt_unmeasured : forall m n rlc d g,
  sample_attempt m n rlc d = Some g -> all_edges unmeasured_if_dependent g.
Proof.
  intros m n rlc d g H. unfold sample_attempt in H.
  destruct (_ || _); [discriminate|]. destruct (_ || _); [discriminate|].
  inversion H; subst; clear H.
  assert (Hb : all_edges unmeasured_if_dependent
                 (bind_controls d (meas_label_stat (sample_edges d m n) MEAS_TYPE_CURRENT)
                    (IC_sources (sample_edges d m n))
                    (bind_controls d
                       (meas_label_stat (sample_edges d m n) MEAS_TYPE_VOLTAGE)
                       (VC_sources (sample_edges d m n)) (s_grid (sample_edges d m n))))).
  { apply bind_controls_unmeasured, bind_controls_unmeasured, sample_edges_unmeasured. }
  destruct rlc; [apply ensure_reactive_unmeasured|]; exact Hb.
Qed.

Lemma sample_loop_some : forall m n rlc rounds g,
  sample_loop m n rlc rounds = Some g ->
  exists d, In d rounds /\ sample_attempt m n rlc d = Some g.
Proof.
  intros m n rlc rounds g. induction rounds as [|d rest IH]; simpl; [discriminate|].
  destruct (sample_attempt m n rlc d) as [g0|] eqn:E.
  - intros H. inversion H; subst. exists d. auto.
  - intros H. destruct (IH H) as [d' [Hin E']]. exists d'. auto.
Qed.

Lemma sampled_grid_unmeasured : forall simple integrator rlc d g,
  sampled_grid simple integrator rlc d = Some g -> all_edges unmeasured_if_dependent g.
Proof.
  intros simple integrator rlc d g H. unfold sampled_grid in H.
  destruct (grid_size simple d) as [m n].
  destruct (sample_loop m n rlc (attempts d)) as [g0|] eqn:E; [|discriminate].
  inversion H; subst. apply enforce_constraints_unmeasured.
  destruct (sample_loop_some _ _ _ _ _ E) as [a [_ Ea]].
  apply (sample_attempt_unmeasured _ _ _ _ _ Ea).
Qed.

(** C10. Under note v11 an edge whose sampled type is a dependent source
    gets measurement kind none and measurement label -1; this still holds
    of every dependent-source edge of the arrays handed to [Circuit], and
    so no dependent-source branch of a generated circuit carries a
    measurement request. *)
Theorem dependent_sources_unmeasured : forall symbolic simple integrator rlc d,
  (forall a outer st p,
     unmeasured_if_dependent (get_edge (s_grid (sample_edge a outer st p)) p)) /\
  (forall g, sampled_grid simple integrator rlc d = Some g ->
             all_edges unmeasured_if_dependent g) /\
  (forall c, gen_circuit_v11 symbolic simple integrator rlc d = Ok c ->
     forall b, In b (branches c) -> is_dependent (br_type b) = true ->
       br_measure b = MEAS_TYPE_NONE /\ br_measure_label b = (-1)%Z).
Proof.
  intros symbolic simple integrator rlc d. split; [|split].
  - intros a outer st p. unfold sample_edge. fold (drawn_type a outer p).
    destruct (component_eqb (drawn_type a outer p) TYPE_OPEN) eqn:Eo; simpl;
      rewrite get_set_same; unfold unmeasured_if_dependent, is_dependent; simpl.
    + apply component_eqb_eq in Eo. rewrite Eo. discriminate.
    + intros Hd. rewrite Hd. auto.
  - apply sampled_grid_unmeasured.
  - intros c H b Hb Hd. unfold gen_circuit_v11 in H.
    destruct (sampled_grid simple integrator rlc d) as [g|] eqn:Eg; [|discriminate].
    pose proof (sampled_grid_unmeasured _ _ _ _ _ Eg) as Hg.
    destruct (Circuit_branches_from_edges _ _ _ _ _ H) as [bs [f [Hbs [Eb Hf]]]].
    rewrite Eb in Hb. apply in_map_iff in Hb. destruct Hb as [b0 [<- Hb0]].
    destruct (Hf b0) as [Ht [_ [_ [_ [Hm [Hl _]]]]]].
    rewrite Ht in Hd. rewrite Hm, Hl.
    destruct (Hbs b0 Hb0) as [p [Et [Em El]]].
    rewrite Et in Hd. rewrite Em, El. apply (Hg p). exact Hd.
Qed.

Lemma dependent_sources_unmeasured_witness :
  unmeasured_if_dependent
    (get_edge (s_grid (sample_edge (round_of (four_edges 10 14 29 14)
                                             (four_edges 0 20 0 0) (four_edges 0 1 0 0))
                                   true
                                   (mk_sample_state (blank_grid 2 2) (fun _ => 0%Z)
                                                    (fun _ => []) [] [])
                                   (H_at 0 0)))
              (H_at 0 0)) /\
  (sampled_grid false false false plain_draws
   = Some (grid_of (sampled_grid false false false plain_draws)) /\
   all_edges unmeasured_if_dependent
             (grid_of (sampled_grid false false false plain_draws))) /\
  (gen_circuit_v11 true false false false plain_draws = Ok (generated plain_draws) /\
   br_type (nth 0 (branches (generated plain_draws)) inverting_branch) = TYPE_VCVS /\
   br_measure (nth 0 (branches (generated plain_draws)) inverting_branch)
   = MEAS_TYPE_NONE /\
   br_measure_label (nth 0 (branches (generated plain_draws)) inverting_branch)
   = (-1)%Z).
Proof.
  split; [|split].
  - apply (proj1 (dependent_sources_unmeasured true false false false plain_draws)).
  - split; [vm_compute; reflexivity|].
    apply (proj1 (proj2 (dependent_sources_unmeasured true false false false
                           plain_draws))).
    vm_compute; reflexivity.
  - split; [vm_compute; reflexivity|]. split; [vm_compute; reflexivity|].
    apply (proj2 (proj2 (dependent_sources_unmeasured true false false false
                           plain_draws))
             (generated plain_draws)).
    + vm_compute; reflexivity.
    + vm_compute; auto.
    + vm_compute; reflexivity.
Defined.

(** ** Counting the voltage source branches of an assembled list *)

Lemma count_app_one : forall (p : branch -> bool) bs b,
  count_branches p (bs ++ [b]) = count_branches p bs + (if p b then 1 else 0).
Proof.
  intros p bs b. unfold count_branches. rewrite filter_app, length_app. simpl.
  destruct (p b); reflexivity.
Qed.

Lemma add_edge_count : forall e a b bs k bs1 k1,
  add_edge e a b bs k = Running bs1 k1 ->
  count_branches (has_type TYPE_VOLTAGE_SOURCE) bs1
  = count_branches (has_type TYPE_VOLTAGE_SOURCE) bs
    + (if component_eqb (comp_type e) TYPE_VOLTAGE_SOURCE then 1 else 0).
Proof.
  intros e a b bs k bs1 k1 H. unfold add_edge in H.
  destruct (a =? b)%Z.
  - destruct (component_eqb (comp_type e) TYPE_SHORT) eqn:Es; simpl in H; [|discriminate].
    inversion H; subst. apply component_eqb_eq in Es. rewrite Es. simpl. lia.
  - destruct (_check_conflict_component_measure _ _); [discriminate|].
    inversion H; subst. rewrite count_app_one. reflexivity.
Qed.

Lemma netlist_cell_count : forall note g gn bs k c bs1 k1,
  netlist_cell note g gn (Ok (Running bs k)) c = Ok (Running bs1 k1) ->
  count_branches (has_type TYPE_VOLTAGE_SOURCE) bs1
  = count_branches (has_type TYPE_VOLTAGE_SOURCE) bs + sources_at g c.
Proof.
  intros note g gn bs k c bs1 k1 H. unfold netlist_cell in H. unfold sources_at.
  destruct (note <=? 9)%Z; [discriminate|].
  destruct ((snd c <? dim_n g - 1) && has_edge (hedge g (fst c) (snd c))) eqn:Eh.
  - destruct (component_eqb (comp_type (hedge g (fst c) (snd c))) TYPE_OPEN);
      [discriminate|].
    simpl in H.
    destruct (add_edge (hedge g (fst c) (snd c)) (gn (fst c) (snd c))
                       (gn (fst c) (snd c + 1)) bs k) as [bs2 k2|bs2] eqn:E1;
      [|discriminate].
    apply add_edge_count in E1.
    destruct ((fst c <? dim_m g - 1) && has_edge (vedge g (fst c) (snd c))) eqn:Ev.
    + inversion H as [E2]. apply add_edge_count in E2.
      rewrite E2, E1. simpl. lia.
    + inversion H; subst. rewrite E1. simpl. lia.
  - simpl in H.
    destruct ((fst c <? dim_m g - 1) && has_edge (vedge g (fst c) (snd c))) eqn:Ev.
    + inversion H as [E2]. apply add_edge_count in E2. rewrite E2. simpl. lia.
    + inversion H; subst. simpl. lia.
Qed.

Lemma netlist_fold_stops : forall note g gn l acc,
  (forall bs k, acc <> Ok (Running bs k)) ->
  fold_left (netlist_cell note g gn) l acc = acc.
Proof.
  intros note g gn l. induction l as [|c l IH]; intros acc H; simpl; [reflexivity|].
  assert (E : netlist_cell note g gn acc c = acc).
  { destruct acc as [[bs k|bs]|e|]; try reflexivity. exfalso. apply (H bs k). reflexivity. }
  rewrite E. apply IH. exact H.
Qed.

Lemma assemble_fold_count : forall note g gn l bs k bs' k',
  fold_left (netlist_cell note g gn) l (Ok (Running bs k)) = Ok (Running bs' k') ->
  count_branches (has_type TYPE_VOLTAGE_SOURCE) bs'
  = count_branches (has_type TYPE_VOLTAGE_SOURCE) bs + list_sum (map (sources_at g) l).
Proof.
  intros note g gn l. induction l as [|c l IH]; intros bs k bs' k' H; cbn [fold_left] in H.
  - inversion H; subst. simpl. lia.
  - destruct (netlist_cell note g gn (Ok (Running bs k)) c) as [[bs1 k1|bs1]|e|] eqn:E.
    + rewrite (IH _ _ _ _ H). rewrite (netlist_cell_count _ _ _ _ _ _ _ _ E). simpl. lia.
    + rewrite netlist_fold_stops in H by (intros; discriminate). discriminate.
    + rewrite netlist_fold_stops in H by (intros; discriminate). discriminate.
    + rewrite netlist_fold_stops in H by (intros; discriminate). discriminate.
Qed.

Lemma sum_single : forall (f : cell -> nat) l c0,
  NoDup l -> In c0 l -> f c0 = 1 -> (forall c, In c l -> c <> c0 -> f c = 0) ->
  list_sum (map f l) = 1.
Proof.
  intros f l c0 Hn. induction Hn as [|x l Hx Hn IH]; intros Hin H1 H0; [destruct Hin|].
  simpl. destruct Hin as [->|Hin].
  - rewrite H1.
    assert (Z : list_sum (map f l) = 0).
    { clear IH. induction l as [|y l IHl]; simpl; [reflexivity|].
      rewrite (H0 y) by (try (right; left; reflexivity);
                         intros ->; apply Hx; left; reflexivity).
      inversion Hn; subst. apply IHl; auto.
      - intros H. apply Hx. right. exact H.
      - intros c Hc. apply H0. destruct Hc as [->|Hc]; [left; reflexivity|].
        right. right. exact Hc. }
    rewrite Z. reflexivity.
  - rewrite (H0 x) by (try (left; reflexivity); intros ->; contradiction).
    simpl. apply IH; auto. intros c Hc. apply H0. right. exact Hc.
Qed.

Lemma present_source : forall g p,
  all_edges absent_only_if_open g ->
  comp_type (get_edge g p) = TYPE_VOLTAGE_SOURCE -> has_edge (get_edge g p) = true.
Proof.
  intros g p J Ht. destruct (has_edge (get_edge g p)) eqn:E; [reflexivity|].
  apply (J p) in E. rewrite E in Ht. discriminate.
Qed.

Lemma edge_is_source : forall g p0 q,
  only_source_at g p0 -> all_edges absent_only_if_open g -> In q (positions g) ->
  has_edge (get_edge g q)
  && component_eqb (comp_type (get_edge g q)) TYPE_VOLTAGE_SOURCE = pos_eqb p0 q.
Proof.
  intros g p0 q [Hp0 HU] J Hq. destruct (pos_eqb p0 q) eqn:E.
  - apply pos_eqb_eq in E. subst q.
    assert (Ht : comp_type (get_edge g p0) = TYPE_VOLTAGE_SOURCE)
      by (apply HU; [exact Hp0 | reflexivity]).
    rewrite (present_source g p0 J Ht), Ht. reflexivity.
  - assert (Hn : comp_type (get_edge g q) <> TYPE_VOLTAGE_SOURCE).
    { intros Ht. apply (HU q Hq) in Ht. subst q.
      rewrite (proj2 (pos_eqb_eq p0 p0) eq_refl) in E. discriminate. }
    apply component_eqb_neq in Hn. rewrite Hn. apply andb_false_r.
Qed.

Lemma sources_at_indicator : forall g p0 c,
  only_source_at g p0 -> all_edges absent_only_if_open g -> In c (cells g) ->
  sources_at g c
  = (if pos_eqb p0 (H_at (fst c) (snd c)) then 1 else 0)
    + (if pos_eqb p0 (V_at (fst c) (snd c)) then 1 else 0).
Proof.
  intros g p0 [i j] HU J Hc. apply in_cells in Hc. destruct Hc as [Hi Hj].
  simpl in Hi, Hj. unfold sources_at. simpl fst. simpl snd.
  pose proof HU as [Hp0 _].
  unfold positions in Hp0. apply in_app_or in Hp0.
  f_equal.
  - rewrite <- andb_assoc. destruct (j <? dim_n g - 1) eqn:Ej.
    + apply Nat.ltb_lt in Ej. simpl.
      change (hedge g i j) with (get_edge g (H_at i j)).
      rewrite (edge_is_source g p0 (H_at i j) HU J); [reflexivity|].
      unfold positions. apply in_or_app. right. apply in_hpositions.
      exists i, j. auto.
    + simpl. destruct (pos_eqb p0 (H_at i j)) eqn:E; [|reflexivity].
      apply pos_eqb_eq in E. subst p0. exfalso.
      apply Nat.ltb_ge in Ej. destruct Hp0 as [H|H].
      * apply in_vpositions in H. destruct H as [a [b [X _]]]. discriminate X.
      * apply in_hpositions in H. destruct H as [a [b [X [_ Hb]]]].
        inversion X; subst. lia.
  - rewrite <- andb_assoc. destruct (i <? dim_m g - 1) eqn:Ei.
    + apply Nat.ltb_lt in Ei. simpl.
      change (vedge g i j) with (get_edge g (V_at i j)).
      rewrite (edge_is_source g p0 (V_at i j) HU J); [reflexivity|].
      unfold positions. apply in_or_app. left. apply in_vpositions.
      exists i, j. auto.
    + simpl. destruct (pos_eqb p0 (V_at i j)) eqn:E; [|reflexivity].
      apply pos_eqb_eq in E. subst p0. exfalso.
      apply Nat.ltb_ge in Ei. destruct Hp0 as [H|H].
      * apply in_vpositions in H. destruct H as [a [b [X [Ha _]]]].
        inversion X; subst. lia.
      * apply in_hpositions in H. destruct H as [a [b [X _]]]. discriminate X.
Qed.

Lemma sources_sum_one : forall g p0,
  only_source_at g p0 -> all_edges absent_only_if_open g ->
  list_sum (map (sources_at g) (cells g)) = 1.
Proof.
  intros g p0 HU J.
  assert (Hc0 : exists c0, In c0 (cells g) /\
                 (p0 = V_at (fst c0) (snd c0) \/ p0 = H_at (fst c0) (snd c0))).
  { destruct HU as [Hp0 _]. unfold positions in Hp0. apply in_app_or in Hp0.
    destruct Hp0 as [H|H].
    - apply in_vpositions in H. destruct H as [i [j [-> [Hi Hj]]]].
      exists (i, j). split; [apply in_cells; split; simpl; lia | left; reflexivity].
    - apply in_hpositions in H. destruct H as [i [j [-> [Hi Hj]]]].
      exists (i, j). split; [apply in_cells; split; simpl; lia | right; reflexivity]. }
  destruct Hc0 as [c0 [Hin Hk]].
  apply (sum_single (sources_at g) (cells g) c0 (NoDup_range2 _ _) Hin).
  - rewrite (sources_at_indicator g p0 c0 HU J Hin).
    destruct Hk as [-> | ->]; simpl; rewrite !Nat.eqb_refl; reflexivity.
  - intros c Hc Hne. rewrite (sources_at_indicator g p0 c HU J Hc).
    destruct Hk as [-> | ->]; simpl;
      destruct ((fst c0 =? fst c) && (snd c0 =? snd c)) eqn:E; try reflexivity;
      apply andb_true_iff in E; destruct E as [E1 E2];
      apply Nat.eqb_eq in E1; apply Nat.eqb_eq in E2;
      exfalso; apply Hne; destruct c, c0; simpl in *; subst; reflexivity.
Qed.

Lemma valid_circuit_one_source : forall note g ann rlc c p0,
  Circuit note g ann rlc = Ok c -> valid c = true ->
  only_source_at g p0 -> all_edges absent_only_if_open g ->
  count_branches (has_type TYPE_VOLTAGE_SOURCE) (branches c) = 1.
Proof.
  intros note g ann rlc c p0 HC Hv HU J.
  destruct (Circuit_valid_inv _ _ _ _ _ HC Hv) as [gn [k [bs [n [_ [Ha [_ Hb]]]]]]].
  rewrite Hb. rewrite count_reground.
  - unfold assemble in Ha. rewrite (assemble_fold_count _ _ _ _ _ _ _ _ Ha).
    rewrite (sources_sum_one g p0 HU J). reflexivity.
  - intros a b [Ht _]. unfold has_type. rewrite Ht. reflexivity.
Qed.

(** ** Passes that keep presence and sources *)

Lemma keeps_presence_refl : forall e, keeps_presence e e.
Proof. intros e. unfold keeps_presence. tauto. Qed.

Lemma keeps_presence_trans : forall a b c,
  keeps_presence a b -> keeps_presence b c -> keeps_presence a c.
Proof.
  intros a b c [H1 H2] [H3 H4]. unfold keeps_presence. split; [congruence | tauto].
Qed.

Lemma keeps_source_refl : forall e, keeps_source e e.
Proof. intros e. split; [apply keeps_presence_refl | tauto]. Qed.

Lemma keeps_source_trans : forall a b c,
  keeps_source a b -> keeps_source b c -> keeps_source a c.
Proof.
  intros a b c [H1 H2] [H3 H4]. split; [eapply keeps_presence_trans; eauto | tauto].
Qed.

Lemma related_refl : forall (R : edge -> edge -> Prop) g,
  (forall e, R e e) -> related R g g.
Proof. intros R g H. unfold related. auto. Qed.

Lemma related_trans : forall (R : edge -> edge -> Prop) g1 g2 g3,
  (forall a b c, R a b -> R b c -> R a c) ->
  related R g1 g2 -> related R g2 g3 -> related R g1 g3.
Proof.
  intros R g1 g2 g3 HT [A1 [A2 A3]] [B1 [B2 B3]]. unfold related.
  split; [congruence|]. split; [congruence|]. intros p. eapply HT; eauto.
Qed.

Lemma related_weaken : forall (R R' : edge -> edge -> Prop) g g',
  (forall a b, R a b -> R' a b) -> related R g g' -> related R' g g'.
Proof. intros R R' g g' H [A [B C]]. unfold related. auto. Qed.

Lemma related_set : forall (R : edge -> edge -> Prop) g p e,
  (forall x, R x x) -> R (get_edge g p) e -> related R g (set_edge g p e).
Proof.
  intros R g p e HR He. unfold related.
  destruct (set_edge_dims g p e) as [-> ->]. split; [reflexivity|]. split; [reflexivity|].
  intros q. rewrite get_set. destruct (pos_eqb p q) eqn:E; [|apply HR].
  apply pos_eqb_eq in E. subst q. exact He.
Qed.

Lemma related_positions : forall (R : edge -> edge -> Prop) g g',
  related R g g' -> positions g' = positions g.
Proof. intros R g g' [A [B _]]. unfold positions. rewrite A, B. reflexivity. Qed.

Lemma fold_related : forall (R : edge -> edge -> Prop) (step : grid -> pos -> grid),
  (forall e, R e e) -> (forall a b c, R a b -> R b c -> R a c) ->
  (forall g p, related R g (step g p)) ->
  forall l g, related R g (fold_left step l g).
Proof.
  intros R step HR HT Hs l. induction l as [|p l IH]; intros g; simpl.
  - apply related_refl. exact HR.
  - eapply related_trans; [exact HT | apply Hs | apply IH].
Qed.

(** A fold whose step at [p] only touches the edge at [p], run over
    distinct positions whose edges satisfy [Q]. *)
Lemma fold_related_on : forall (R : edge -> edge -> Prop) (Q : edge -> Prop)
    (step : grid -> pos -> grid),
  (forall e, R e e) -> (forall a b c, R a b -> R b c -> R a c) ->
  (forall g p, Q (get_edge g p) -> related R g (step g p)) ->
  (forall g p q, p <> q -> get_edge (step g p) q = get_edge g q) ->
  forall l g, NoDup l -> (forall p, In p l -> Q (get_edge g p)) ->
              related R g (fold_left step l g).
Proof.
  intros R Q step HR HT Hs Hf l. induction l as [|p l IH]; intros g Hn HQ; simpl.
  - apply related_refl. exact HR.
  - inversion Hn; subst. eapply related_trans; [exact HT | apply Hs; apply HQ; left; reflexivity|].
    apply IH; [assumption|]. intros q Hq. rewrite Hf.
    + apply HQ. right. exact Hq.
    + intros ->. contradiction.
Qed.

Lemma presence_keeps_absent : forall g g',
  related keeps_presence g g' -> all_edges absent_only_if_open g ->
  all_edges absent_only_if_open g'.
Proof.
  intros g g' [_ [_ H]] J p. destruct (H p) as [Hh Ho].
  unfold absent_only_if_open. rewrite Hh, Ho. apply J.
Qed.

Lemma presence_keeps_candidate : forall g g' p,
  related keeps_presence g g' -> is_candidate g' p = is_candidate g p.
Proof.
  intros g g' p [_ [_ H]]. destruct (H p) as [Hh Ho]. unfold is_candidate.
  rewrite Hh. f_equal. f_equal.
  destruct (component_eqb (comp_type (get_edge g' p)) TYPE_OPEN) eqn:E1,
           (component_eqb (comp_type (get_edge g p)) TYPE_OPEN) eqn:E2; try reflexivity.
  - apply component_eqb_eq in E1. apply Ho in E1. apply component_eqb_neq in E2.
    contradiction.
  - apply component_eqb_eq in E2. apply Ho in E2. apply component_eqb_neq in E1.
    contradiction.
Qed.

Lemma source_keeps_only : forall g g' p0,
  related keeps_source g g' -> only_source_at g p0 -> only_source_at g' p0.
Proof.
  intros g g' p0 HR [Hp HU]. pose proof (related_positions _ _ _ HR) as EP.
  destruct HR as [_ [_ H]]. unfold only_source_at. rewrite EP. split; [exact Hp|].
  intros q Hq. destruct (H q) as [_ Hs]. rewrite Hs. apply HU. exact Hq.
Qed.

(** An update of the edge at [p] that leaves presence and type alone. *)
Lemma keeps_source_same_type : forall e e',
  has_edge e' = has_edge e -> comp_type e' = comp_type e -> keeps_source e e'.
Proof.
  intros e e' Hh Ht. unfold keeps_source, keeps_presence. rewrite Hh, Ht. tauto.
Qed.

(** A change of type between two types that are neither open nor a
    voltage source. *)
Lemma keeps_source_retype : forall e e',
  has_edge e' = has_edge e ->
  comp_type e <> TYPE_OPEN -> comp_type e <> TYPE_VOLTAGE_SOURCE ->
  comp_type e' <> TYPE_OPEN -> comp_type e' <> TYPE_VOLTAGE_SOURCE ->
  keeps_source e e'.
Proof.
  intros e e' Hh A B C D. unfold keeps_source, keeps_presence. rewrite Hh. tauto.
Qed.

Lemma bind_controls_keeps : forall d labels sources g,
  related keeps_source g (bind_controls d labels sources g).
Proof.
  intros d labels sources g. unfold bind_controls.
  apply fold_related; [apply keeps_source_refl | apply keeps_source_trans|].
  intros g0 p. apply related_set; [apply keeps_source_refl|].
  apply keeps_source_same_type; reflexivity.
Qed.

Lemma resistor_candidate_type : forall g p l,
  In p (filter (is_resistor_candidate g) l) -> comp_type (get_edge g p) = TYPE_RESISTOR.
Proof.
  intros g p l H. apply filter_In in H. destruct H as [_ H].
  unfold is_resistor_candidate in H. apply andb_true_iff in H. destruct H as [_ H].
  apply component_eqb_eq. exact H.
Qed.

Lemma ensure_reactive_keeps : forall d g, related keeps_source g (ensure_reactive d g).
Proof.
  intros d g. unfold ensure_reactive.
  destruct (existsb _ _); [apply related_refl; apply keeps_source_refl|].
  destruct (filter (is_resistor_candidate g) (positions g)) as [|c0 rest] eqn:Ef;
    [apply related_refl; apply keeps_source_refl|].
  apply related_set; [apply keeps_source_refl|].
  assert (Hc : In (choice (c0 :: rest) (rlc_edge_pick d) c0)
                  (filter (is_resistor_candidate g) (positions g)))
    by (rewrite Ef; apply choice_in; discriminate).
  apply resistor_candidate_type in Hc.
  assert (Hm : In (choice [TYPE_CAPACITOR; TYPE_INDUCTOR] (rlc_type_pick d) TYPE_CAPACITOR)
                  [TYPE_CAPACITOR; TYPE_INDUCTOR]) by (apply choice_in; discriminate).
  apply keeps_source_retype; simpl; try reflexivity; try (rewrite Hc; discriminate);
    destruct Hm as [<-|[<-|[]]]; discriminate.
Qed.

Lemma convert_keeps : forall d g, related keeps_source g (convert_current_sources d g).
Proof.
  intros d g. unfold convert_current_sources.
  apply fold_related; [apply keeps_source_refl | apply keeps_source_trans|].
  intros g0 p. destruct (component_eqb _ _) eqn:E;
    [|apply related_refl; apply keeps_source_refl].
  apply component_eqb_eq in E.
  apply related_set; [apply keeps_source_refl|].
  apply keeps_source_retype; simpl; try reflexivity; try (rewrite E; discriminate);
    discriminate.
Qed.

Lemma relabel_fold_keeps : forall l g cc,
  related keeps_source g (fst (fold_left relabel_edge l (g, cc))).
Proof.
  induction l as [|p l IH]; intros g cc; simpl.
  - apply related_refl. apply keeps_source_refl.
  - destruct (counter_get cc (comp_type (get_edge g p))) as [k|]; [|apply IH].
    eapply related_trans; [apply keeps_source_trans | | apply IH].
    apply related_set; [apply keeps_source_refl|].
    apply keeps_source_same_type; reflexivity.
Qed.

Lemma reassign_keeps : forall g, related keeps_source g (reassign_unique_labels g).
Proof. intros g. unfold reassign_unique_labels. apply relabel_fold_keeps. Qed.

Lemma clear_keeps : forall g, related keeps_source g (clear_source_measure g).
Proof.
  intros g. unfold clear_source_measure.
  apply fold_related; [apply keeps_source_refl | apply keeps_source_trans|].
  intros g0 p. destruct (component_eqb _ _);
    [|apply related_refl; apply keeps_source_refl].
  apply related_set; [apply keeps_source_refl|].
  apply keeps_source_same_type; reflexivity.
Qed.

Lemma demote_other : forall vp g p q,
  p <> q -> get_edge (demote_to_resistor vp g p) q = get_edge g q.
Proof. intros vp g p q H. unfold demote_to_resistor. apply get_set_other. exact H. Qed.

Lemma NoDup_filter_pos : forall (f : pos -> bool) l, NoDup l -> NoDup (filter f l).
Proof.
  intros f l H. induction H as [|x l Hx Hn IH]; simpl; [constructor|].
  destruct (f x); [|exact IH]. constructor; [|exact IH].
  intros Hin. apply filter_In in Hin. destruct Hin. contradiction.
Qed.

Lemma enforce_integrator_keeps : forall d g,
  related keeps_source g (enforce_integrator d g).
Proof.
  intros d g. unfold enforce_integrator.
  destruct (positions_of_type TYPE_OPAMP_INTEGRATOR g) as [|keep [|x rest]] eqn:Ep.
  - destruct (filter (is_resistor_candidate g) (positions g)) as [|c0 rest] eqn:Ef;
      [apply related_refl; apply keeps_source_refl|].
    apply related_set; [apply keeps_source_refl|].
    assert (Hc : In (choice (c0 :: rest) (integrator_pick d) c0)
                    (filter (is_resistor_candidate g) (positions g)))
      by (rewrite Ef; apply choice_in; discriminate).
    apply resistor_candidate_type in Hc.
    apply keeps_source_retype; simpl; try reflexivity; try (rewrite Hc; discriminate);
      discriminate.
  - apply related_refl. apply keeps_source_refl.
  - apply (fold_related_on keeps_source
             (fun e => comp_type e = TYPE_OPAMP_INTEGRATOR)).
    + apply keeps_source_refl.
    + apply keeps_source_trans.
    + intros g0 p Hq. unfold demote_to_resistor.
      apply related_set; [apply keeps_source_refl|].
      apply keeps_source_retype; simpl; try reflexivity; try (rewrite Hq; discriminate);
        discriminate.
    + intros g0 p q. apply demote_other.
    + assert (Hn : NoDup (keep :: x :: rest)).
      { rewrite <- Ep. apply NoDup_filter_pos. apply NoDup_positions. }
      inversion Hn; assumption.
    + intros p Hp.
      assert (Hin : In p (positions_of_type TYPE_OPAMP_INTEGRATOR g))
        by (rewrite Ep; right; exact Hp).
      apply filter_In in Hin. destruct Hin as [_ Hin]. apply component_eqb_eq. exact Hin.
Qed.

(** ** The voltage source pass *)

Lemma candidate_not_open : forall g p l,
  In p (filter (is_candidate g) l) ->
  has_edge (get_edge g p) = true /\ comp_type (get_edge g p) <> TYPE_OPEN.
Proof.
  intros g p l H. apply filter_In in H. destruct H as [_ H].
  unfold is_candidate in H. apply andb_true_iff in H. destruct H as [H1 H2].
  split; [exact H1|]. apply negb_true_iff in H2. apply component_eqb_neq. exact H2.
Qed.

Lemma in_voltage_positions : forall g q,
  In q (voltage_positions g) <->
  In q (positions g) /\ comp_type (get_edge g q) = TYPE_VOLTAGE_SOURCE.
Proof.
  intros g q. unfold voltage_positions, positions_of_type.
  rewrite filter_In, component_eqb_eq. tauto.
Qed.

Lemma demote_fold_spec : forall vp l g,
  let g' := fold_left (demote_to_resistor vp) l g in
  (forall q, In q l -> comp_type (get_edge g' q) = TYPE_RESISTOR) /\
  (forall q, ~ In q l -> get_edge g' q = get_edge g q).
Proof.
  intros vp l. induction l as [|p l IH]; intros g; simpl.
  - split; [intros q []|reflexivity].
  - destruct (IH (demote_to_resistor vp g p)) as [A B]. split.
    + intros q [<-|Hq].
      * destruct (in_dec pos_eq_dec p l) as [Hin|Hout]; [apply A; exact Hin|].
        rewrite (B p Hout). unfold demote_to_resistor. rewrite get_set_same. reflexivity.
      * apply A. exact Hq.
    + intros q Hq. rewrite B by (intros H; apply Hq; right; exact H).
      apply demote_other. intros ->. apply Hq. left. reflexivity.
Qed.

Lemma enforce_voltage_keeps_presence : forall d g,
  related keeps_presence g (enforce_voltage_source d g).
Proof.
  intros d g. unfold enforce_voltage_source.
  destruct (voltage_positions g) as [|keep [|x rest]] eqn:Ep.
  - destruct (filter (is_candidate g) (positions g)) as [|c0 rest] eqn:Ef;
      [apply related_refl; apply keeps_presence_refl|].
    apply related_set; [apply keeps_presence_refl|].
    assert (Hc : In (choice (c0 :: rest) (promote_pick d) c0)
                    (filter (is_candidate g) (positions g)))
      by (rewrite Ef; apply choice_in; discriminate).
    apply candidate_not_open in Hc. destruct Hc as [_ Hc].
    unfold keeps_presence. simpl. split; [reflexivity|].
    split; [discriminate | intros H; contradiction].
  - apply related_refl. apply keeps_presence_refl.
  - apply (fold_related_on keeps_presence
             (fun e => comp_type e = TYPE_VOLTAGE_SOURCE)).
    + apply keeps_presence_refl.
    + apply keeps_presence_trans.
    + intros g0 p Hq. unfold demote_to_resistor.
      apply related_set; [apply keeps_presence_refl|].
      unfold keeps_presence. simpl. split; [reflexivity|]. rewrite Hq.
      split; discriminate.
    + intros g0 p q. apply demote_other.
    + assert (Hn : NoDup (keep :: x :: rest)).
      { rewrite <- Ep. apply NoDup_filter_pos. apply NoDup_positions. }
      inversion Hn; assumption.
    + intros p Hp.
      assert (Hin : In p (voltage_positions g)) by (rewrite Ep; right; exact Hp).
      apply in_voltage_positions in Hin. apply Hin.
Qed.

(** With no sampled source one candidate is promoted, and it is then the
    only source. *)
Lemma enforce_voltage_promotes : forall d g,
  voltage_positions g = [] ->
  filter (is_candidate g) (positions g) <> [] ->
  exists p, In p (filter (is_candidate g) (positions g)) /\
            only_source_at (enforce_voltage_source d g) p.
Proof.
  intros d g Ev Hc. unfold enforce_voltage_source. rewrite Ev.
  destruct (filter (is_candidate g) (positions g)) as [|c0 rest] eqn:Ef; [contradiction|].
  set (chosen := choice (c0 :: rest) (promote_pick d) c0).
  assert (Hin : In chosen (c0 :: rest)) by (apply choice_in; discriminate).
  exists chosen. split; [exact Hin|].
  assert (Hpos : In chosen (positions g)).
  { rewrite <- Ef in Hin. apply filter_In in Hin. apply Hin. }
  unfold only_source_at. rewrite positions_set_edge. split; [exact Hpos|].
  intros q Hq. rewrite get_set. destruct (pos_eqb chosen q) eqn:E.
  - apply pos_eqb_eq in E. subst q. simpl. split; reflexivity.
  - split.
    + intros Ht. exfalso.
      assert (X : In q (voltage_positions g)) by (apply in_voltage_positions; auto).
      rewrite Ev in X. destruct X.
    + intros ->. rewrite (proj2 (pos_eqb_eq chosen chosen) eq_refl) in E. discriminate.
Qed.

(** With sampled sources the first in scan order stays the only source
    and the others become resistors. *)
Lemma enforce_voltage_demotes : forall d g keep rest,
  voltage_positions g = keep :: rest ->
  only_source_at (enforce_voltage_source d g) keep /\
  (forall q, In q rest ->
             comp_type (get_edge (enforce_voltage_source d g) q) = TYPE_RESISTOR).
Proof.
  intros d g keep rest Ev.
  assert (Hn : NoDup (keep :: rest)).
  { rewrite <- Ev. apply NoDup_filter_pos. apply NoDup_positions. }
  assert (Hk : In keep (positions g)).
  { assert (X : In keep (voltage_positions g)) by (rewrite Ev; left; reflexivity).
    apply in_voltage_positions in X. apply X. }
  pose proof (related_positions _ _ _ (enforce_voltage_keeps_presence d g)) as EP.
  assert (G : exists g', enforce_voltage_source d g = g' /\
                (forall q, In q rest -> comp_type (get_edge g' q) = TYPE_RESISTOR) /\
                (forall q, ~ In q rest -> get_edge g' q = get_edge g q)).
  { unfold enforce_voltage_source. rewrite Ev. destruct rest as [|x rest].
    - exists g. split; [reflexivity|]. split; [intros q []|reflexivity].
    - eexists. split; [reflexivity|]. apply demote_fold_spec. }
  destruct G as [g' [Eg [A B]]]. rewrite Eg in *. split; [|exact A].
  unfold only_source_at. rewrite EP. split; [exact Hk|].
  intros q Hq. destruct (in_dec pos_eq_dec q rest) as [Hin|Hout].
  - rewrite (A q Hin). split; [discriminate|]. intros ->.
    inversion Hn; subst. contradiction.
  - rewrite (B q Hout). split.
    + intros Ht.
      assert (X : In q (voltage_positions g)) by (apply in_voltage_positions; auto).
      rewrite Ev in X. destruct X as [<-|X]; [reflexivity | contradiction].
    + intros ->.
      assert (X : In keep (voltage_positions g)) by (rewrite Ev; left; reflexivity).
      apply in_voltage_positions in X. apply X.
Qed.

Lemma enforce_voltage_only_source : forall d g,
  (exists p, In p (positions g) /\ is_candidate g p = true) ->
  exists p0, only_source_at (enforce_voltage_source d g) p0.
Proof.
  intros d g [p [Hp Hc]].
  destruct (voltage_positions g) as [|keep rest] eqn:Ev.
  - destruct (enforce_voltage_promotes d g Ev) as [p0 [_ H]].
    + intros E. assert (X : In p (filter (is_candidate g) (positions g)))
        by (apply filter_In; auto).
      rewrite E in X. destruct X.
    + exists p0. exact H.
  - exists keep. apply (enforce_voltage_demotes d g keep rest Ev).
Qed.

(** All passes together. *)
Lemma enforce_constraints_only_source : forall integrator rlc d g,
  all_edges absent_only_if_open g ->
  (exists p, In p (positions g) /\ is_candidate g p = true) ->
  all_edges absent_only_if_open (enforce_constraints integrator rlc d g) /\
  exists p0, only_source_at (enforce_constraints integrator rlc d g) p0.
Proof.
  intros integrator rlc d g J [p [Hp Hc]]. unfold enforce_constraints.
  set (g1 := convert_current_sources d g).
  set (g2 := enforce_voltage_source d g1).
  set (g3 := reassign_unique_labels g2).
  set (g4 := if integrator then reassign_unique_labels (enforce_integrator d g3) else g3).
  assert (R1 : related keeps_presence g g1).
  { eapply related_weaken; [|apply convert_keeps]. intros a b [H _]. exact H. }
  assert (J1 : all_edges absent_only_if_open g1)
    by (apply (presence_keeps_absent g g1 R1 J)).
  assert (Cand1 : exists p, In p (positions g1) /\ is_candidate g1 p = true).
  { exists p. rewrite (related_positions _ _ _ R1).
    rewrite (presence_keeps_candidate g g1 p R1). auto. }
  assert (J2 : all_edges absent_only_if_open g2)
    by (apply (presence_keeps_absent g1 g2 (enforce_voltage_keeps_presence d g1) J1)).
  destruct (enforce_voltage_only_source d g1 Cand1) as [p0 U2]. fold g2 in U2.
  assert (R3 : related keeps_source g2 g3) by apply reassign_keeps.
  assert (R4 : related keeps_source g3 g4).
  { unfold g4. destruct integrator; [|apply related_refl; apply keeps_source_refl].
    eapply related_trans; [apply keeps_source_trans | apply enforce_integrator_keeps|].
    apply reassign_keeps. }
  assert (R24 : related keeps_source g2 g4)
    by (eapply related_trans; [apply keeps_source_trans | exact R3 | exact R4]).
  assert (R25 : related keeps_source g2 (if rlc then clear_source_measure g4 else g4)).
  { destruct rlc; [|exact R24].
    eapply related_trans; [apply keeps_source_trans | exact R24 | apply clear_keeps]. }
  split.
  - eapply presence_keeps_absent; [|exact J2].
    eapply related_weaken; [|exact R25]. intros a b [H _]. exact H.
  - exists p0. eapply source_keeps_only; [exact R25 | exact U2].
Qed.

(** ** What an accepted round of draws looks like *)

Lemma sample_edge_step : forall d outer st p,
  exists e1,
    s_grid (sample_edge d outer st p) = set_edge (s_grid st) p e1 /\
    (has_edge e1 = false ->
     comp_type e1 = TYPE_OPEN \/ has_edge (get_edge (s_grid st) p) = false) /\
    (forall q, In q (VC_sources (sample_edge d outer st p)
                     ++ IC_sources (sample_edge d outer st p)) ->
               In q (VC_sources st ++ IC_sources st) \/
               (q = p /\ is_dependent (comp_type e1) = true)).
Proof.
  intros d outer st p. unfold sample_edge. fold (drawn_type d outer p).
  assert (HV : forall q,
            In q ((if type_in (drawn_type d outer p) [TYPE_VCCS; TYPE_VCVS]
                   then VC_sources st ++ [p] else VC_sources st)
                  ++ (if type_in (drawn_type d outer p) [TYPE_CCCS; TYPE_CCVS]
                      then IC_sources st ++ [p] else IC_sources st)) ->
            In q (VC_sources st ++ IC_sources st) \/
            (q = p /\ is_dependent (drawn_type d outer p) = true)).
  { intros q Hq. apply in_app_or in Hq. destruct Hq as [Hq|Hq].
    - destruct (type_in (drawn_type d outer p) [TYPE_VCCS; TYPE_VCVS]) eqn:E.
      + apply in_app_or in Hq. destruct Hq as [Hq|[<-|[]]].
        * left. apply in_or_app. left. exact Hq.
        * right. split; [reflexivity|].
          destruct (drawn_type d outer p); simpl in E; try discriminate; reflexivity.
      + left. apply in_or_app. left. exact Hq.
    - destruct (type_in (drawn_type d outer p) [TYPE_CCCS; TYPE_CCVS]) eqn:E.
      + apply in_app_or in Hq. destruct Hq as [Hq|[<-|[]]].
        * left. apply in_or_app. right. exact Hq.
        * right. split; [reflexivity|].
          destruct (drawn_type d outer p); simpl in E; try discriminate; reflexivity.
      + left. apply in_or_app. right. exact Hq. }
  destruct (component_eqb (drawn_type d outer p) TYPE_OPEN) eqn:Eo.
  - eexists. split; [reflexivity|]. simpl. split; [|exact HV].
    intros _. left. apply component_eqb_eq. exact Eo.
  - eexists. split; [reflexivity|]. simpl. split; [|exact HV].
    intros H. right. exact H.
Qed.

Lemma sample_fold_inv : forall d (f : pos -> bool) l st,
  NoDup l ->
  (forall q, In q l -> get_edge (s_grid st) q = blank_edge) ->
  all_edges absent_only_if_open (s_grid st) ->
  (forall q, In q (VC_sources st ++ IC_sources st) ->
             ~ In q l /\ is_dependent (comp_type (get_edge (s_grid st) q)) = true) ->
  let st' := fold_left (fun st p => sample_edge d (f p) st p) l st in
  all_edges absent_only_if_open (s_grid st') /\
  (forall q, In q (VC_sources st' ++ IC_sources st') ->
             (In q l \/ In q (VC_sources st ++ IC_sources st)) /\
             is_dependent (comp_type (get_edge (s_grid st') q)) = true) /\
  (forall q, ~ In q l -> get_edge (s_grid st') q = get_edge (s_grid st) q) /\
  dim_m (s_grid st') = dim_m (s_grid st) /\ dim_n (s_grid st') = dim_n (s_grid st).
Proof.
  intros d f l. induction l as [|p l IH]; intros st Hn Hb J HD; simpl.
  - split; [exact J|]. split; [|auto].
    intros q Hq. split; [right; exact Hq | apply HD; exact Hq].
  - inversion Hn as [|x y Hp Hn']; subst.
    destruct (sample_edge_step d (f p) st p) as [e1 [Eg [He HS]]].
    set (st1 := sample_edge d (f p) st p) in *.
    assert (B1 : forall q, In q l -> get_edge (s_grid st1) q = blank_edge).
    { intros q Hq. rewrite Eg. rewrite get_set_other.
      - apply Hb. right. exact Hq.
      - intros ->. contradiction. }
    assert (J1 : all_edges absent_only_if_open (s_grid st1)).
    { rewrite Eg. apply all_edges_set; [exact J|]. intros Hf.
      destruct (He Hf) as [H|H]; [exact H|].
      rewrite (Hb p (or_introl eq_refl)) in H. discriminate H. }
    assert (D1 : forall q, In q (VC_sources st1 ++ IC_sources st1) ->
                 ~ In q l /\ is_dependent (comp_type (get_edge (s_grid st1) q)) = true).
    { intros q Hq. destruct (HS q Hq) as [Hold|[-> Hd]].
      - destruct (HD q Hold) as [Hnot Hd]. split.
        + intros H. apply Hnot. right. exact H.
        + rewrite Eg. rewrite get_set_other; [exact Hd|].
          intros ->. apply Hnot. left. reflexivity.
      - split; [exact Hp|]. rewrite Eg, get_set_same. exact Hd. }
    destruct (IH st1 Hn' B1 J1 D1) as [A1 [A2 [A3 [A4 A5]]]].
    split; [exact A1|]. split; [|split; [|split]].
    + intros q Hq. destruct (A2 q Hq) as [Hw Hd]. split; [|exact Hd].
      destruct Hw as [Hw|Hw]; [left; right; exact Hw|].
      destruct (HS q Hw) as [Hold|[-> _]]; [right; exact Hold | left; left; reflexivity].
    + intros q Hq. rewrite A3 by (intros H; apply Hq; right; exact H).
      rewrite Eg. apply get_set_other. intros ->. apply Hq. left. reflexivity.
    + rewrite A4, Eg. apply set_edge_dims.
    + rewrite A5, Eg. apply set_edge_dims.
Qed.

Lemma get_blank : forall m n q, get_edge (blank_grid m n) q = blank_edge.
Proof. intros m n [i j|i j]; reflexivity. Qed.

Lemma sample_edges_spec : forall d m n,
  let st := sample_edges d m n in
  all_edges absent_only_if_open (s_grid st) /\
  dim_m (s_grid st) = m /\ dim_n (s_grid st) = n /\
  (forall q, In q (VC_sources st ++ IC_sources st) ->
             In q (vpositions m n ++ hpositions m n) /\
             is_dependent (comp_type (get_edge (s_grid st) q)) = true).
Proof.
  intros d m n. unfold sample_edges.
  set (st0 := mk_sample_state (blank_grid m n) (fun _ => 0%Z) (fun _ => []) [] []).
  pose proof (NoDup_positions (blank_grid m n)) as Hn. unfold positions in Hn. simpl in Hn.
  destruct (sample_fold_inv d (fun p => v_outer n p) (vpositions m n) st0)
    as [A1 [A2 [A3 [A4 A5]]]].
  - apply (NoDup_app_remove_r _ _ Hn).
  - intros q _. apply get_blank.
  - intros q. simpl. rewrite get_blank. intros H. discriminate H.
  - intros q [].
  - set (st1 := fold_left (fun st p => sample_edge d (v_outer n p) st p)
                          (vpositions m n) st0) in *.
    destruct (sample_fold_inv d (fun p => h_outer m p) (hpositions m n) st1)
      as [B1 [B2 [B3 [B4 B5]]]].
    + apply (NoDup_app_remove_l _ _ Hn).
    + intros q Hq. rewrite A3; [apply get_blank|].
      intros Hv. apply in_vpositions in Hv. apply in_hpositions in Hq.
      destruct Hv as [i [j [-> _]]]. destruct Hq as [a [b [X _]]]. discriminate X.
    + exact A1.
    + intros q Hq. destruct (A2 q Hq) as [[Hv|[]] Hd]. split; [|exact Hd].
      intros Hh. apply in_vpositions in Hv. apply in_hpositions in Hh.
      destruct Hv as [i [j [-> _]]]. destruct Hh as [a [b [X _]]]. discriminate X.
    + split; [exact B1|]. split; [rewrite B4, A4; reflexivity|].
      split; [rewrite B5, A5; reflexivity|].
      intros q Hq. destruct (B2 q Hq) as [Hw Hd]. split; [|exact Hd].
      apply in_or_app. destruct Hw as [Hw|Hw]; [right; exact Hw|].
      destruct (A2 q Hw) as [[Hv|[]] _]. left. exact Hv.
Qed.

Lemma sample_attempt_spec : forall m n rlc d g,
  sample_attempt m n rlc d = Some g ->
  all_edges absent_only_if_open g /\
  exists p, In p (positions g) /\ is_candidate g p = true.
Proof.
  intros m n rlc d g H. unfold sample_attempt in H.
  destruct (sample_edges_spec d m n) as [J [Dm [Dn HD]]].
  set (st := sample_edges d m n) in *.
  cbv zeta in H.
  match type of H with
  | (if ?b then _ else _) = _ => destruct b eqn:Et
  end; [discriminate|].
  match type of H with
  | (if ?b then _ else _) = _ => destruct b eqn:Et2
  end; [discriminate|].
  apply orb_false_iff in Et. destruct Et as [Et _]. apply Nat.ltb_ge in Et.
  assert (Hq : exists q, In q (VC_sources st ++ IC_sources st)).
  { destruct (VC_sources st ++ IC_sources st) as [|q l] eqn:E.
    - apply (f_equal (@List.length pos)) in E. rewrite length_app in E. simpl in E. lia.
    - exists q. left. reflexivity. }
  destruct Hq as [q Hq]. destruct (HD q Hq) as [Hpos Hdep].
  assert (Hc : is_candidate (s_grid st) q = true).
  { unfold is_candidate. apply andb_true_iff. split.
    - destruct (has_edge (get_edge (s_grid st) q)) eqn:E; [reflexivity|].
      apply (J q) in E. rewrite E in Hdep. discriminate Hdep.
    - apply negb_true_iff. apply component_eqb_neq. intros E.
      rewrite E in Hdep. discriminate Hdep. }
  assert (Hp : In q (positions (s_grid st)))
    by (unfold positions; rewrite Dm, Dn; exact Hpos).
  set (g1 := bind_controls d (meas_label_stat st MEAS_TYPE_CURRENT) (IC_sources st)
               (bind_controls d (meas_label_stat st MEAS_TYPE_VOLTAGE) (VC_sources st)
                  (s_grid st))) in *.
  assert (R1 : related keeps_source (s_grid st) g1).
  { eapply related_trans; [apply keeps_source_trans | apply bind_controls_keeps|].
    apply bind_controls_keeps. }
  assert (Eg : g = if rlc then ensure_reactive d g1 else g1)
    by (injection H as H; symmetry; exact H).
  assert (R2 : related keeps_source (s_grid st) g).
  { rewrite Eg. destruct rlc; [|exact R1].
    eapply related_trans; [apply keeps_source_trans | exact R1|].
    apply ensure_reactive_keeps. }
  assert (R3 : related keeps_presence (s_grid st) g)
    by (eapply related_weaken; [|exact R2]; intros a b [X _]; exact X).
  split; [apply (presence_keeps_absent _ _ R3 J)|].
  exists q. rewrite (related_positions _ _ _ R3).
  rewrite (presence_keeps_candidate _ _ q R3). auto.
Qed.

Lemma sampled_grid_spec : forall simple integrator rlc d g,
  sampled_grid simple integrator rlc d = Some g ->
  all_edges absent_only_if_open g /\ exists p0, only_source_at g p0.
Proof.
  intros simple integrator rlc d g H. unfold sampled_grid in H.
  destruct (grid_size simple d) as [m n].
  destruct (sample_loop m n rlc (attempts d)) as [g0|] eqn:E; [|discriminate].
  inversion H; subst.
  destruct (sample_loop_some _ _ _ _ _ E) as [a [_ Ea]].
  destruct (sample_attempt_spec _ _ _ _ _ Ea) as [J C].
  apply enforce_constraints_only_source; assumption.
Qed.

(** C1. Every circuit that [gen_circuit] (note v11) returns marked valid
    has exactly one voltage source branch.  The enforcement pass gets
    there as follows: with no sampled source and some present edge that
    is not open, one such edge is promoted and is then the only source of
    the grid; with sampled sources, the first in scan order stays the only
    source and every other one becomes a resistor. *)
Theorem exactly_one_voltage_source : forall symbolic simple integrator rlc d,
  (forall c, gen_circuit_v11 symbolic simple integrator rlc d = Ok c ->
             valid c = true ->
             count_branches (has_type TYPE_VOLTAGE_SOURCE) (branches c) = 1) /\
  (forall g, voltage_positions g = [] ->
             filter (is_candidate g) (positions g) <> [] ->
             exists p, In p (filter (is_candidate g) (positions g)) /\
                       only_source_at (enforce_voltage_source d g) p) /\
  (forall g keep rest,
     voltage_positions g = keep :: rest ->
     only_source_at (enforce_voltage_source d g) keep /\
     forall q, In q rest ->
               comp_type (get_edge (enforce_voltage_source d g) q) = TYPE_RESISTOR).
Proof.
  intros symbolic simple integrator rlc d. split; [|split].
  - intros c H Hv. unfold gen_circuit_v11 in H.
    destruct (sampled_grid simple integrator rlc d) as [g|] eqn:Eg; [|discriminate].
    destruct (sampled_grid_spec _ _ _ _ _ Eg) as [J [p0 U]].
    apply (valid_circuit_one_source _ _ _ _ _ p0 H Hv U J).
  - intros g. apply enforce_voltage_promotes.
  - intros g keep rest. apply enforce_voltage_demotes.
Qed.

Lemma exactly_one_voltage_source_witness :
  (gen_circuit_v11 true false false false plain_draws = Ok (generated plain_draws) /\
   valid (generated plain_draws) = true /\
   count_branches (has_type TYPE_VOLTAGE_SOURCE) (branches (generated plain_draws)) = 1) /\
  (voltage_positions no_source_grid = [] /\
   exists p, In p (filter (is_candidate no_source_grid) (positions no_source_grid)) /\
             only_source_at (enforce_voltage_source plain_draws no_source_grid) p) /\
  (voltage_positions two_source_grid = [V_at 0 0; V_at 0 1] /\
   only_source_at (enforce_voltage_source plain_draws two_source_grid) (V_at 0 0) /\
   comp_type (get_edge (enforce_voltage_source plain_draws two_source_grid) (V_at 0 1))
   = TYPE_RESISTOR).
Proof.
  split; [|split].
  - split; [vm_compute; reflexivity|]. split; [vm_compute; reflexivity|].
    apply (proj1 (exactly_one_voltage_source true false false false plain_draws)).
    + vm_compute; reflexivity.
    + vm_compute; reflexivity.
  - split; [reflexivity|].
    apply (proj1 (proj2 (exactly_one_voltage_source true false false false plain_draws))).
    + reflexivity.
    + vm_compute. discriminate.
  - split; [reflexivity|].
    destruct (proj2 (proj2 (exactly_one_voltage_source true false false false
                              plain_draws))
                two_source_grid (V_at 0 0) [V_at 0 1] eq_refl) as [H1 H2].
    split; [exact H1|]. apply H2. left. reflexivity.
Defined.

(** * Further properties of the assembled netlist *)

(** ** Every branch has a present edge behind it *)

Lemma add_edge_provenance : forall g gn p bs k,
  In p (positions g) -> has_edge (get_edge g p) = true ->
  (forall b, In b bs -> exists q, branch_of_edge g gn q b) ->
  forall b, In b (branches_of (add_edge (get_edge g p) (node_at gn (first_end p))
                                        (node_at gn (second_end p)) bs k)) ->
            exists q, branch_of_edge g gn q b.
Proof.
  intros g gn p bs k Hp Hh Hbs b. unfold add_edge.
  destruct (Z.eqb_spec (node_at gn (first_end p)) (node_at gn (second_end p))) as [E|E].
  - destruct (negb _); simpl; apply Hbs.
  - destruct (_check_conflict_component_measure _ _) eqn:Ec; simpl; [apply Hbs|].
    intros Hb. apply in_app_or in Hb. destruct Hb as [Hb|[<-|[]]]; [apply Hbs; exact Hb|].
    exists p. unfold branch_of_edge. simpl. repeat split; auto.
Qed.

Lemma netlist_cell_provenance : forall note g gn acc c s,
  In c (cells g) ->
  (forall s0, acc = Ok s0 ->
              forall b, In b (branches_of s0) -> exists q, branch_of_edge g gn q b) ->
  netlist_cell note g gn acc c = Ok s ->
  forall b, In b (branches_of s) -> exists q, branch_of_edge g gn q b.
Proof.
  intros note g gn acc [i j] s Hc Hacc H. apply in_cells in Hc. destruct Hc as [Hi Hj].
  simpl in Hi, Hj. unfold netlist_cell in H. simpl fst in H. simpl snd in H.
  destruct acc as [[bs k|bs]|e|]; try discriminate.
  - specialize (Hacc _ eq_refl). simpl in Hacc.
    destruct (note <=? 9)%Z; [discriminate|].
    assert (HH : (j <? dim_n g - 1) && has_edge (hedge g i j) = true ->
                 In (H_at i j) (positions g) /\ has_edge (get_edge g (H_at i j)) = true).
    { intros X. apply andb_true_iff in X. destruct X as [X1 X2].
      apply Nat.ltb_lt in X1. split; [|exact X2].
      unfold positions. apply in_or_app. right. apply in_hpositions. exists i, j. auto. }
    assert (HV : (i <? dim_m g - 1) && has_edge (vedge g i j) = true ->
                 In (V_at i j) (positions g) /\ has_edge (get_edge g (V_at i j)) = true).
    { intros X. apply andb_true_iff in X. destruct X as [X1 X2].
      apply Nat.ltb_lt in X1. split; [|exact X2].
      unfold positions. apply in_or_app. left. apply in_vpositions. exists i, j. auto. }
    destruct ((j <? dim_n g - 1) && has_edge (hedge g i j)) eqn:Eh.
    + destruct (component_eqb (comp_type (hedge g i j)) TYPE_OPEN); [discriminate|].
      simpl in H. destruct (HH eq_refl) as [P1 P2].
      pose proof (add_edge_provenance g gn (H_at i j) bs k P1 P2 Hacc) as H1.
      simpl get_edge in H1. unfold node_at in H1. simpl in H1.
      destruct (add_edge (hedge g i j) (gn i j) (gn i (j + 1)) bs k) as [bs1 k1|bs1].
      * destruct ((i <? dim_m g - 1) && has_edge (vedge g i j)) eqn:Ev;
          inversion H; subst; [|exact H1].
        destruct (HV eq_refl) as [Q1 Q2].
        apply (add_edge_provenance g gn (V_at i j) bs1 k1 Q1 Q2 H1).
      * inversion H; subst. exact H1.
    + simpl in H.
      destruct ((i <? dim_m g - 1) && has_edge (vedge g i j)) eqn:Ev;
        inversion H; subst; [|exact Hacc].
      destruct (HV eq_refl) as [Q1 Q2].
      apply (add_edge_provenance g gn (V_at i j) bs k Q1 Q2 Hacc).
  - inversion H; subst. apply Hacc. reflexivity.
Qed.

Lemma assemble_fold_provenance : forall note g gn l acc s,
  (forall c, In c l -> In c (cells g)) ->
  (forall s0, acc = Ok s0 ->
              forall b, In b (branches_of s0) -> exists q, branch_of_edge g gn q b) ->
  fold_left (netlist_cell note g gn) l acc = Ok s ->
  forall b, In b (branches_of s) -> exists q, branch_of_edge g gn q b.
Proof.
  intros note g gn l. induction l as [|c l IH]; intros acc s Hl Hacc H;
    cbn [fold_left] in H.
  - apply Hacc. exact H.
  - apply (IH (netlist_cell note g gn acc c) s); [|exact (fun s0 E =>
      netlist_cell_provenance note g gn acc c s0 (Hl c (or_introl eq_refl)) Hacc E)|exact H].
    intros x Hx. apply Hl. right. exact Hx.
Qed.

Lemma assemble_provenance : forall note g gn s,
  assemble note g gn = Ok s ->
  forall b, In b (branches_of s) -> exists q, branch_of_edge g gn q b.
Proof.
  intros note g gn s H. unfold assemble in H.
  apply (assemble_fold_provenance note g gn (cells g) (Ok (Running [] 0)) s);
    [auto | | exact H].
  intros s0 E. inversion E; subst. intros b [].
Qed.

(** ** The cases of the constructor *)

Lemma Circuit_cases : forall note g ann rlc c,
  Circuit note g ann rlc = Ok c ->
  exists gn k s,
    _get_grid_nodes g = Some (gn, k) /\
    assemble note g gn = Ok s /\
    ((valid c = false /\ branches c = branches_of s /\ grid_nodes c = gn) \/
     (control_check (branches_of s) = true /\
      valid c = _check_circuit_valid_by_degree g /\
      ((vs_neg_node_old (branches_of s) = None /\
        branches c = branches_of s /\ grid_nodes c = gn) \/
       (exists v, vs_neg_node_old (branches_of s) = Some v /\
                  branches c = map (remap_branch v) (branches_of s) /\
                  grid_nodes c = reground_grid_nodes v gn)))).
Proof.
  intros note g ann rlc c H. unfold Circuit, _init_netlist in H.
  destruct (_get_grid_nodes g) as [[gn k]|]; [|discriminate].
  destruct (assemble note g gn) as [s|e|] eqn:Ea; simpl in H; try discriminate.
  exists gn, k, s. split; [reflexivity|]. split; [exact Ea|].
  destruct s as [bs n|bs].
  - destruct (control_check bs) eqn:Ec; simpl in H.
    + right. simpl. split; [exact Ec|].
      destruct (vs_neg_node_old bs) as [v|] eqn:Ev; simpl in H; inversion H; subst; simpl.
      * split; [reflexivity|]. right. exists v. split; [reflexivity|].
        split; [|reflexivity]. unfold reground. rewrite Ev. reflexivity.
      * split; [reflexivity|]. left. auto.
    + left. inversion H; subst; simpl. auto.
  - left. inversion H; subst; simpl. auto.
Qed.

Lemma remap_is_reground : forall v gn c,
  remap_node v (node_at gn c) = node_at (reground_grid_nodes v gn) c.
Proof.
  intros v gn c. unfold remap_node, node_at, reground_grid_nodes.
  destruct (Z.eqb_spec (gn (fst c) (snd c)) v),
           (Z.eqb_spec (gn (fst c) (snd c) + 1) (v + 1)); try reflexivity; lia.
Qed.

Lemma position_ends_in_grid : forall g p,
  In p (positions g) -> in_grid g (first_end p) /\ in_grid g (second_end p).
Proof.
  intros g p Hp. unfold positions in Hp. apply in_app_or in Hp. destruct Hp as [H|H].
  - apply in_vpositions in H. destruct H as [i [j [-> [Hi Hj]]]].
    unfold in_grid. simpl. lia.
  - apply in_hpositions in H. destruct H as [i [j [-> [Hi Hj]]]].
    unfold in_grid. simpl. lia.
Qed.

Lemma branch_of_edge_remap : forall g gn v p b,
  (forall a, in_grid g a -> (0 <= node_at gn a)%Z) ->
  branch_of_edge g gn p b ->
  branch_of_edge g (reground_grid_nodes v gn) p (remap_branch v b).
Proof.
  intros g gn v p b Hpos [H1 [H2 [H3 [H4 [H5 [H6 H7]]]]]].
  destruct (position_ends_in_grid g p H1) as [Ga Gb].
  pose proof (Hpos _ Ga) as Pa. pose proof (Hpos _ Gb) as Pb.
  unfold branch_of_edge. simpl.
  split; [exact H1|]. split; [exact H2|]. split.
  { rewrite <- !remap_is_reground. unfold remap_node.
    destruct (Z.eqb_spec (node_at gn (first_end p)) v),
             (Z.eqb_spec (node_at gn (second_end p)) v); lia. }
  split; [exact H4|]. split.
  { rewrite H5. destruct (truthy _); apply remap_is_reground. }
  split; [|exact H7].
  rewrite H6. destruct (truthy _); apply remap_is_reground.
Qed.

Lemma Circuit_provenance : forall note g ann rlc c,
  Circuit note g ann rlc = Ok c ->
  (forall a, in_grid g a -> (0 <= node_at (grid_nodes c) a)%Z) /\
  forall b, In b (branches c) -> exists p, branch_of_edge g (grid_nodes c) p b.
Proof.
  intros note g ann rlc c H.
  destruct (Circuit_cases _ _ _ _ _ H) as [gn [k [s [Eg [Ea Hc]]]]].
  destruct (resolver_spec g) as [gn' [k' [Eg' [Hpos _]]]].
  rewrite Eg in Eg'. inversion Eg'; subst gn' k'.
  pose proof (assemble_provenance _ _ _ _ Ea) as Hp.
  assert (Hplain : branches c = branches_of s /\ grid_nodes c = gn ->
            (forall a, in_grid g a -> (0 <= node_at (grid_nodes c) a)%Z) /\
            forall b, In b (branches c) -> exists p, branch_of_edge g (grid_nodes c) p b).
  { intros [-> ->]. split; [exact Hpos | exact Hp]. }
  destruct Hc as [[_ Hc]|[_ [_ [[_ Hc]|[v [_ [Eb En]]]]]]];
    [apply Hplain; exact Hc | apply Hplain; exact Hc |].
  rewrite Eb, En. split.
  - intros a Ha. specialize (Hpos a Ha). unfold node_at, reground_grid_nodes in *.
    destruct (_ =? _)%Z; lia.
  - intros b Hb. apply in_map_iff in Hb. destruct Hb as [b0 [<- Hb0]].
    destruct (Hp b0 Hb0) as [p Hq]. exists p.
    apply branch_of_edge_remap; assumption.
Qed.

(** ** Branches and the grid they come from *)

(** X1. Every branch of a constructed circuit, valid or not, is the copy
    of one present edge of the grid: its terminals are the node numbers
    that [grid_nodes] gives the two ends of that edge, exchanged when the
    direction bit is set, and its type, label, value and measurement
    fields are the edge's. The two terminals differ, and no node number is
    negative. *)
Theorem branches_come_from_edges : forall note g ann rlc c,
  Circuit note g ann rlc = Ok c ->
  forall b, In b (branches c) ->
    (exists p, branch_of_edge g (grid_nodes c) p b) /\
    br_n1 b <> br_n2 b /\ (0 <= br_n1 b)%Z /\ (0 <= br_n2 b)%Z.
Proof.
  intros note g ann rlc c H b Hb.
  destruct (Circuit_provenance _ _ _ _ _ H) as [Hpos Hp].
  destruct (Hp b Hb) as [p Hq]. split; [exists p; exact Hq|].
  destruct Hq as [H1 [_ [H3 [_ [H5 [H6 _]]]]]].
  destruct (position_ends_in_grid g p H1) as [Ga Gb].
  pose proof (Hpos _ Ga) as Pa. pose proof (Hpos _ Gb) as Pb.
  rewrite H5, H6. destruct (truthy _); repeat split; auto.
Qed.

Lemma branches_come_from_edges_witness :
  Circuit 11 loop_grid false false = Ok loop_circuit /\
  In (nth 2 (branches loop_circuit) no_branch) (branches loop_circuit) /\
  (exists p, branch_of_edge loop_grid (grid_nodes loop_circuit) p
               (nth 2 (branches loop_circuit) no_branch)) /\
  br_n1 (nth 2 (branches loop_circuit) no_branch)
  <> br_n2 (nth 2 (branches loop_circuit) no_branch).
Proof.
  split; [vm_compute; reflexivity|]. split; [vm_compute; auto 10|].
  destruct (branches_come_from_edges 11 loop_grid false false loop_circuit
              loop_circuit_built (nth 2 (branches loop_circuit) no_branch))
    as [H1 [H2 _]].
  - vm_compute; auto 10.
  - split; assumption.
Defined.

(** X2. No branch of a constructed circuit pairs a component type with a
    measurement that [_check_conflict_component_measure] rejects: an edge
    with such a pair ends the assembly before its branch is added. *)
Theorem branches_conflict_free : forall note g ann rlc c,
  Circuit note g ann rlc = Ok c ->
  forall b, In b (branches c) ->
    _check_conflict_component_measure (br_type b) (br_measure b) = false.
Proof.
  intros note g ann rlc c H b Hb.
  destruct (Circuit_provenance _ _ _ _ _ H) as [_ Hp].
  destruct (Hp b Hb) as [p [_ [_ [_ [Hc [_ [_ [Ht [_ [_ [Hm _]]]]]]]]]]].
  rewrite Ht, Hm. exact Hc.
Qed.

Lemma branches_conflict_free_witness :
  Circuit 11 loop_grid false false = Ok loop_circuit /\
  In (nth 0 (branches loop_circuit) no_branch) (branches loop_circuit) /\
  _check_conflict_component_measure
    (br_type (nth 0 (branches loop_circuit) no_branch))
    (br_measure (nth 0 (branches loop_circuit) no_branch)) = false.
Proof.
  split; [vm_compute; reflexivity|]. split; [vm_compute; auto 10|].
  apply (branches_conflict_free 11 loop_grid false false loop_circuit loop_circuit_built).
  vm_compute; auto 10.
Defined.

Lemma position_short_link : forall g p,
  In p (positions g) ->
  traversable (get_edge g p) = true ->
  short_link g (first_end p) (second_end p).
Proof.
  intros g p Hp Ht. destruct (position_ends_in_grid g p Hp) as [Ga _].
  unfold positions in Hp. apply in_app_or in Hp.
  destruct Hp as [H|H].
  - apply in_vpositions in H. destruct H as [i [j [-> [Hi Hj]]]].
    simpl in *. apply link_down_of_test; [exact Ga|].
    apply andb_true_iff. split; [apply Nat.ltb_lt; lia | exact Ht].
  - apply in_hpositions in H. destruct H as [i [j [-> [Hi Hj]]]].
    simpl in *. apply link_right_of_test; [exact Ga|].
    apply andb_true_iff. split; [apply Nat.ltb_lt; lia | exact Ht].
Qed.

Lemma Circuit_short_current : forall note g ann rlc c,
  Circuit note g ann rlc = Ok c ->
  forall b, In b (branches c) -> br_type b = TYPE_SHORT ->
    br_measure b = MEAS_TYPE_CURRENT.
Proof.
  intros note g ann rlc c H b Hb Ht.
  destruct (Circuit_cases _ _ _ _ _ H) as [gn [k [s [Eg [Ea Hc]]]]].
  destruct (resolver_spec g) as [gn' [k' [Eg' [_ Hiff]]]].
  rewrite Eg in Eg'. inversion Eg'; subst gn' k'.
  pose proof (assemble_provenance _ _ _ _ Ea) as Hp.
  assert (Hraw : forall b0, In b0 (branches_of s) -> br_type b0 = TYPE_SHORT ->
                            br_measure b0 = MEAS_TYPE_CURRENT).
  { intros b0 Hb0 Ht0. destruct (Hp b0 Hb0)
      as [p [H1 [H2 [H3 [H4 [_ [_ [H7 [_ [_ [H10 _]]]]]]]]]]].
    rewrite H7 in Ht0. rewrite H10.
    destruct (comp_measure (get_edge g p)) eqn:Em; [| |reflexivity].
    - exfalso. apply H3.
      destruct (position_ends_in_grid g p H1) as [Ga Gb].
      apply (Hiff _ _ Ga Gb). apply short_path_one.
      apply position_short_link; [exact H1|].
      unfold traversable. rewrite H2, Ht0, Em. reflexivity.
    - rewrite Ht0 in H4. discriminate H4. }
  destruct Hc as [[_ [Eb _]]|[_ [_ [[_ [Eb _]]|[v [_ [Eb _]]]]]]].
  - rewrite Eb in Hb. apply Hraw; assumption.
  - rewrite Eb in Hb. apply Hraw; assumption.
  - rewrite Eb in Hb. apply in_map_iff in Hb. destruct Hb as [b0 [<- Hb0]].
    simpl in *. apply Hraw; assumption.
Qed.

(** X3. A short that became a branch carries a current measurement: an
    unmeasured short joins its two ends into one node and gives no
    branch, a short with a voltage measurement is a conflict. So the
    assertion of [_to_SPICE] on short branches never fails on a
    constructed circuit, and the branch is written as one ammeter. *)
Theorem short_branches_measure_current : forall note g ann rlc c,
  Circuit note g ann rlc = Ok c ->
  forall b, In b (branches c) -> br_type b = TYPE_SHORT ->
    br_measure b = MEAS_TYPE_CURRENT /\
    forall st,
      emit_short b st
      = Ok (emit (fmt_line [vi_name (vmeas_counter st + 1); node1 b; node2 b; "0"%string])
                 (bump st)).
Proof.
  intros note g ann rlc c H b Hb Ht.
  pose proof (Circuit_short_current _ _ _ _ _ H b Hb Ht) as Hm.
  split; [exact Hm|]. intros st. unfold emit_short. rewrite Ht, Hm. reflexivity.
Qed.

Lemma short_branches_measure_current_witness :
  Circuit 11 measured_short_grid false false = Ok measured_short_circuit /\
  In (nth 0 (branches measured_short_circuit) no_branch)
     (branches measured_short_circuit) /\
  br_type (nth 0 (branches measured_short_circuit) no_branch) = TYPE_SHORT /\
  br_measure (nth 0 (branches measured_short_circuit) no_branch) = MEAS_TYPE_CURRENT.
Proof.
  split; [vm_compute; reflexivity|]. split; [vm_compute; auto 10|].
  split; [vm_compute; reflexivity|].
  apply (short_branches_measure_current 11 measured_short_grid false false
           measured_short_circuit).
  - vm_compute; reflexivity.
  - vm_compute; auto 10.
  - vm_compute; reflexivity.
Defined.

(** ** The ground node *)

Lemma Circuit_nodes_spec : forall note g ann rlc c,
  Circuit note g ann rlc = Ok c ->
  forall a b, in_grid g a -> in_grid g b ->
    (node_at (grid_nodes c) a = node_at (grid_nodes c) b <-> short_path g a b).
Proof.
  intros note g ann rlc c H a b Ha Hb.
  destruct (Circuit_cases _ _ _ _ _ H) as [gn [k [s [Eg [_ Hc]]]]].
  destruct (resolver_spec g) as [gn' [k' [Eg' [Hpos Hiff]]]].
  rewrite Eg in Eg'. inversion Eg'; subst gn' k'.
  destruct Hc as [[_ [_ En]]|[_ [_ [[_ [_ En]]|[v [_ [_ En]]]]]]]; rewrite En.
  - apply Hiff; assumption.
  - apply Hiff; assumption.
  - unfold node_at. rewrite reground_grid_nodes_eq by (apply Hpos; assumption).
    apply Hiff; assumption.
Qed.

(** X4. In a valid circuit the first voltage source branch has node 0 at
    its second terminal, and the junctions numbered 0 are exactly those
    joined by unmeasured shorts to the end of the source's edge on the
    side of that terminal. *)
Theorem ground_is_source_negative : forall note g ann rlc c pre b post,
  Circuit note g ann rlc = Ok c -> valid c = true ->
  branches c = pre ++ b :: post ->
  (forall x, In x pre -> br_type x <> TYPE_VOLTAGE_SOURCE) ->
  br_type b = TYPE_VOLTAGE_SOURCE ->
  br_n2 b = 0%Z /\
  exists p, branch_of_edge g (grid_nodes c) p b /\
            forall a, in_grid g a ->
              (node_at (grid_nodes c) a = 0%Z
               <-> short_path g a (second_terminal_end g p)).
Proof.
  intros note g ann rlc c pre b post H Hv Eb Hpre Hb.
  assert (Hfirst : vs_neg_node_old (branches c) = Some (br_n2 b)).
  { unfold vs_neg_node_old. rewrite Eb. rewrite (find_first _ pre b post).
    - reflexivity.
    - intros x Hx. apply component_eqb_neq. apply Hpre. exact Hx.
    - apply component_eqb_eq. exact Hb. }
  assert (H0 : br_n2 b = 0%Z).
  { destruct (Circuit_cases _ _ _ _ _ H) as [gn [k [s [_ [_ Hc]]]]].
    destruct Hc as [[Hf _]|[_ [_ [[En [Ebs _]]|[v [Ev [Ebs _]]]]]]].
    - rewrite Hf in Hv. discriminate Hv.
    - rewrite Ebs in Hfirst. rewrite En in Hfirst. discriminate Hfirst.
    - rewrite Ebs in Hfirst. rewrite (vs_neg_after_remap _ v v Ev) in Hfirst.
      unfold remap_node in Hfirst. rewrite Z.eqb_refl in Hfirst.
      inversion Hfirst. reflexivity. }
  split; [exact H0|].
  destruct (Circuit_provenance _ _ _ _ _ H) as [_ Hp].
  assert (Hin : In b (branches c)) by (rewrite Eb; apply in_or_app; right; left; reflexivity).
  destruct (Hp b Hin) as [p Hq]. exists p. split; [exact Hq|].
  intros a Ha.
  assert (E2 : br_n2 b = node_at (grid_nodes c) (second_terminal_end g p)).
  { destruct Hq as [_ [_ [_ [_ [_ [E _]]]]]]. rewrite E. unfold second_terminal_end.
    destruct (truthy _); reflexivity. }
  assert (Gs : in_grid g (second_terminal_end g p)).
  { destruct Hq as [Hq _]. destruct (position_ends_in_grid g p Hq) as [Ga Gb].
    unfold second_terminal_end. destruct (truthy _); assumption. }
  rewrite <- (Circuit_nodes_spec _ _ _ _ _ H a _ Ha Gs). rewrite <- E2, H0. tauto.
Qed.

Lemma ground_is_source_negative_witness :
  Circuit 11 loop_grid false false = Ok loop_circuit /\
  valid loop_circuit = true /\
  br_type (nth 1 (branches loop_circuit) no_branch) = TYPE_VOLTAGE_SOURCE /\
  br_n2 (nth 1 (branches loop_circuit) no_branch) = 0%Z.
Proof.
  split; [vm_compute; reflexivity|]. split; [vm_compute; reflexivity|].
  split; [vm_compute; reflexivity|].
  apply (ground_is_source_negative 11 loop_grid false false loop_circuit
           [nth 0 (branches loop_circuit) no_branch]
           (nth 1 (branches loop_circuit) no_branch)
           [nth 2 (branches loop_circuit) no_branch;
            nth 3 (branches loop_circuit) no_branch]).
  - vm_compute; reflexivity.
  - vm_compute; reflexivity.
  - vm_compute; reflexivity.
  - intros x [<-|[]]. vm_compute. discriminate.
  - vm_compute; reflexivity.
Defined.

(** ** The order of the branches *)

Lemma ordered_from_app : forall bs start b,
  ordered_from start bs -> br_order b = start + List.length bs ->
  ordered_from start (bs ++ [b]).
Proof.
  induction bs as [|x bs IH]; intros start b H Hb; simpl in *.
  - split; [lia | exact I].
  - destruct H as [Hx Hr]. split; [exact Hx|]. apply IH; [exact Hr | lia].
Qed.

Lemma ordered_from_nth : forall bs start k b,
  ordered_from start bs -> nth_error bs k = Some b -> br_order b = start + k.
Proof.
  induction bs as [|x bs IH]; intros start k b H Hk.
  - destruct k; discriminate Hk.
  - destruct H as [Hx Hr]. destruct k as [|k]; simpl in Hk.
    + inversion Hk; subst. lia.
    + rewrite (IH (S start) k b Hr Hk). lia.
Qed.

Lemma ordered_from_map : forall f bs start,
  (forall b, br_order (f b) = br_order b) ->
  ordered_from start bs -> ordered_from start (map f bs).
Proof.
  intros f bs. induction bs as [|x bs IH]; intros start Hf H; simpl in *.
  - exact I.
  - destruct H as [Hx Hr]. split; [rewrite Hf; exact Hx | apply IH; assumption].
Qed.

(** A property of the assembly state that adding an edge keeps holds when
    the assembly is over. *)
Lemma netlist_cell_invariant : forall (Inv : asm_state -> Prop) note g gn acc c s,
  (forall e a b bs k, Inv (Running bs k) -> Inv (add_edge e a b bs k)) ->
  (forall s0, acc = Ok s0 -> Inv s0) ->
  netlist_cell note g gn acc c = Ok s -> Inv s.
Proof.
  intros Inv note g gn acc c s Hadd Hacc H. unfold netlist_cell in H.
  destruct acc as [[bs k|bs]|e|]; try discriminate.
  - specialize (Hacc _ eq_refl).
    destruct (note <=? 9)%Z; [discriminate|].
    destruct ((snd c <? dim_n g - 1) && has_edge (hedge g (fst c) (snd c))).
    + destruct (component_eqb _ TYPE_OPEN); [discriminate|]. simpl in H.
      pose proof (Hadd (hedge g (fst c) (snd c)) (gn (fst c) (snd c))
                       (gn (fst c) (snd c + 1)) bs k Hacc) as H1.
      destruct (add_edge (hedge g (fst c) (snd c)) _ _ bs k) as [bs1 k1|bs1].
      * destruct ((fst c <? dim_m g - 1) && has_edge (vedge g (fst c) (snd c)));
          inversion H; subst; [apply Hadd; exact H1 | exact H1].
      * inversion H; subst. exact H1.
    + simpl in H.
      destruct ((fst c <? dim_m g - 1) && has_edge (vedge g (fst c) (snd c)));
        inversion H; subst; [apply Hadd; exact Hacc | exact Hacc].
  - inversion H; subst. apply Hacc. reflexivity.
Qed.

Lemma assemble_invariant : forall (Inv : asm_state -> Prop) note g gn s,
  Inv (Running [] 0) ->
  (forall e a b bs k, Inv (Running bs k) -> Inv (add_edge e a b bs k)) ->
  assemble note g gn = Ok s -> Inv s.
Proof.
  intros Inv note g gn s H0 Hadd H. unfold assemble in H.
  assert (G : forall l acc, (forall s0, acc = Ok s0 -> Inv s0) ->
                            fold_left (netlist_cell note g gn) l acc = Ok s -> Inv s).
  { induction l as [|c l IH]; intros acc Hacc Hf; cbn [fold_left] in Hf.
    - apply Hacc. exact Hf.
    - apply (IH (netlist_cell note g gn acc c)); [|exact Hf].
      intros s0 E. apply (netlist_cell_invariant Inv note g gn acc c s0 Hadd Hacc E). }
  apply (G (cells g) (Ok (Running [] 0))); [|exact H].
  intros s0 E. inversion E; subst. exact H0.
Qed.

Lemma add_edge_order : forall e a b bs k,
  order_inv (Running bs k) -> order_inv (add_edge e a b bs k).
Proof.
  intros e a b bs k [Ho Hk]. simpl in Ho. unfold add_edge.
  destruct (a =? b)%Z.
  - destruct (negb _); split; simpl; auto.
  - destruct (_check_conflict_component_measure _ _); split; simpl; auto.
    + apply ordered_from_app; [exact Ho|]. simpl. lia.
    + rewrite length_app. simpl. lia.
Qed.

Lemma insert_by_order_last : forall acc b,
  (forall x, In x acc -> br_order x <= br_order b) ->
  insert_by_order b acc = acc ++ [b].
Proof.
  induction acc as [|x acc IH]; intros b H; simpl; [reflexivity|].
  assert (Hx : br_order x <= br_order b) by (apply H; left; reflexivity).
  destruct (Nat.ltb_spec (br_order b) (br_order x)); [lia|].
  rewrite IH; [reflexivity|]. intros y Hy. apply H. right. exact Hy.
Qed.

Lemma sorted_ordered : forall bs start acc,
  ordered_from start bs ->
  (forall x, In x acc -> br_order x < start) ->
  fold_left (fun acc b => insert_by_order b acc) bs acc = acc ++ bs.
Proof.
  induction bs as [|b bs IH]; intros start acc Ho Hacc; cbn [fold_left].
  - rewrite app_nil_r. reflexivity.
  - destruct Ho as [Hb Hr]. rewrite insert_by_order_last.
    + rewrite (IH (S start)); [rewrite <- app_assoc; reflexivity | exact Hr |].
      intros x Hx. apply in_app_or in Hx. destruct Hx as [Hx|[<-|[]]]; [|lia].
      specialize (Hacc x Hx). lia.
    + intros x Hx. specialize (Hacc x Hx). lia.
Qed.

Lemma Circuit_ordered : forall note g ann rlc c,
  Circuit note g ann rlc = Ok c -> ordered_from 0 (branches c).
Proof.
  intros note g ann rlc c H.
  destruct (Circuit_cases _ _ _ _ _ H) as [gn [k [s [_ [Ea Hc]]]]].
  assert (Ho : ordered_from 0 (branches_of s)).
  { apply (assemble_invariant order_inv note g gn s); [split; simpl; auto | | exact Ea].
    apply add_edge_order. }
  destruct Hc as [[_ [Eb _]]|[_ [_ [[_ [Eb _]]|[v [_ [Eb _]]]]]]]; rewrite Eb;
    try exact Ho.
  apply ordered_from_map; [reflexivity | exact Ho].
Qed.

(** X5. The branches of a constructed circuit are numbered in the order
    in which they stand in the list: the branch at index [k] has order
    [k]. Sorting by order, as [_to_SPICE] does, therefore returns the
    list itself. *)
Theorem branch_order_is_position : forall note g ann rlc c,
  Circuit note g ann rlc = Ok c ->
  (forall k b, nth_error (branches c) k = Some b -> br_order b = k) /\
  sorted_branches (branches c) = branches c.
Proof.
  intros note g ann rlc c H. pose proof (Circuit_ordered _ _ _ _ _ H) as Ho. split.
  - intros k b Hk. apply (ordered_from_nth _ 0 k b Ho Hk).
  - unfold sorted_branches. rewrite (sorted_ordered _ 0 [] Ho); [reflexivity|].
    intros x [].
Qed.

Lemma branch_order_is_position_witness :
  Circuit 11 loop_grid false false = Ok loop_circuit /\
  sorted_branches (branches loop_circuit) = branches loop_circuit.
Proof.
  split; [vm_compute; reflexivity|].
  apply (branch_order_is_position 11 loop_grid false false loop_circuit).
  vm_compute; reflexivity.
Defined.
(** * Further properties of the SPICE writer *)

(** ** What one round of the loop changes *)

Lemma emit_branch_frame : forall ann an bs sorted br name st st',
  emit_branch ann an bs sorted br name st = Ok st' ->
  frame (if has_ammeter br then 1 else 0) st st'.
Proof.
  intros ann an bs sorted br name st st' H.
  unfold emit_branch, emit_short, emit_two_terminal, emit_current_controlled,
    emit_voltage_controlled, emit_opamp, emit_integrator, emit_opamp_fallback,
    emit_controlled, has_ammeter in *.
  destruct (br_type br); destruct (br_measure br);
    cbn [component_eqb component_code Nat.eqb type_in existsb meas_eqb negb orb andb bind
         opamp_fallback_types spice_types] in *;
    try discriminate H;
    repeat match type of H with
           | context [match ?l with [] => _ | _ :: _ => _ end] => destruct l as [|? [|? ?]]
           end;
    try discriminate H;
    inversion H; subst; unfold frame; cbn; repeat split; lia.
Qed.

Lemma unique_device_name_unused : forall fuel ts ln t name cc used name' cc',
  unique_device_name fuel ts ln t name cc used = Ok (name', cc') ->
  name_used name' used = false.
Proof.
  induction fuel as [|fuel IH]; intros ts ln t name cc used name' cc' H; simpl in H.
  - destruct (name_used name used) eqn:E; [discriminate|]. inversion H; subst. exact E.
  - destruct (name_used name used) eqn:E.
    + destruct (counter_get cc t); [|discriminate]. apply (IH _ _ _ _ _ _ _ _ H).
    + inversion H; subst. exact E.
Qed.

Lemma name_used_spec : forall name used, name_used name used = true <-> In name used.
Proof.
  intros name used. unfold name_used. rewrite existsb_exists. split.
  - intros [x [Hx E]]. apply String.eqb_eq in E. subst. exact Hx.
  - intros H. exists name. split; [exact H | apply String.eqb_refl].
Qed.

Lemma name_unused_spec : forall name used, name_used name used = false <-> ~ In name used.
Proof.
  intros name used. rewrite <- name_used_spec. destruct (name_used name used); split;
    intros; congruence.
Qed.

Lemma spice_branch_step : forall ann an bs sorted st br st',
  spice_branch ann an bs sorted st br = Ok st' ->
  vmeas_counter st' = vmeas_counter st + (if has_ammeter br then 1 else 0) /\
  exists name, used_device_names st' = name :: used_device_names st /\
               ~ In name (used_device_names st).
Proof.
  intros ann an bs sorted st br st' H. unfold spice_branch in H.
  destruct (unique_device_name _ _ _ _ _ _ _) as [[name cc]|e|] eqn:En; try discriminate.
  simpl in H. apply unique_device_name_unused in En.
  apply emit_branch_frame in H. destruct H as [H1 [H2 _]]. simpl in *. split; [exact H1|].
  exists name. split; [exact H2|]. apply name_unused_spec. exact En.
Qed.

Lemma spice_fold_stops : forall (f : spice_state -> branch -> outcome spice_state) l acc st,
  fold_left (fun acc br => st <- acc ;; f st br) l acc = Ok st ->
  exists st0, acc = Ok st0.
Proof.
  intros f l. induction l as [|b l IH]; intros acc st H; cbn [fold_left] in H.
  - exists st. exact H.
  - destruct (IH _ _ H) as [st1 E]. destruct acc as [st0|e|]; try discriminate E.
    exists st0. reflexivity.
Qed.

Lemma spice_fold_frame : forall ann an bs sorted l st0 st,
  fold_left (fun acc br => st <- acc ;; spice_branch ann an bs sorted st br) l (Ok st0)
  = Ok st ->
  vmeas_counter st = vmeas_counter st0 + count_branches has_ammeter l /\
  List.length (used_device_names st) = List.length (used_device_names st0) + List.length l /\
  (NoDup (used_device_names st0) -> NoDup (used_device_names st)).
Proof.
  intros ann an bs sorted l. induction l as [|b l IH]; intros st0 st H; cbn [fold_left] in H.
  - inversion H; subst. unfold count_branches. simpl. repeat split; auto; lia.
  - destruct (spice_fold_stops _ _ _ _ H) as [st1 E]. rewrite E in H. simpl in E.
    destruct (spice_branch_step _ _ _ _ _ _ _ E) as [Hv [name [Hu Hn]]].
    destruct (IH _ _ H) as [IH1 [IH2 IH3]]. split; [|split].
    + rewrite IH1, Hv. unfold count_branches. simpl. destruct (has_ammeter b); simpl; lia.
    + rewrite IH2, Hu. simpl. lia.
    + intros Hd. apply IH3. rewrite Hu. constructor; assumption.
Qed.

Lemma insert_by_order_count : forall p b l,
  count_branches p (insert_by_order b l) = count_branches p (b :: l).
Proof.
  intros p b l. unfold count_branches. induction l as [|x l IH]; simpl; [reflexivity|].
  destruct (br_order b <? br_order x); simpl; [reflexivity|].
  simpl in IH. destruct (p x), (p b); simpl in *; rewrite IH; simpl; lia.
Qed.

Lemma insert_by_order_length : forall b l,
  List.length (insert_by_order b l) = S (List.length l).
Proof.
  intros b l. induction l as [|x l IH]; simpl; [reflexivity|].
  destruct (br_order b <? br_order x); simpl; [reflexivity|]. rewrite IH. reflexivity.
Qed.

Lemma sorted_branches_count : forall p bs,
  count_branches p (sorted_branches bs) = count_branches p bs /\
  List.length (sorted_branches bs) = List.length bs.
Proof.
  intros p bs. unfold sorted_branches.
  assert (G : forall l acc,
            count_branches p (fold_left (fun acc b => insert_by_order b acc) l acc)
            = count_branches p acc + count_branches p l /\
            List.length (fold_left (fun acc b => insert_by_order b acc) l acc)
            = List.length acc + List.length l).
  { induction l as [|b l IH]; intros acc; cbn [fold_left].
    - unfold count_branches. simpl. lia.
    - destruct (IH (insert_by_order b acc)) as [I1 I2].
      rewrite I1, I2, insert_by_order_count, insert_by_order_length.
      unfold count_branches. simpl. destruct (p b); simpl; lia. }
  destruct (G bs []) as [G1 G2]. rewrite G1, G2. unfold count_branches. simpl. lia.
Qed.

(** X6. When [_to_SPICE] returns, it has written one ammeter for every
    branch that carries a current measurement and has a type the writer
    knows, and no other: the final [vmeas_counter] is the number of these
    branches. *)
Theorem one_ammeter_per_current_measurement : forall c st,
  _to_SPICE c = Ok st ->
  vmeas_counter st = count_branches has_ammeter (branches c).
Proof.
  intros c st H. unfold _to_SPICE in H. destruct (note_version c <=? 9)%Z; [discriminate|].
  apply spice_fold_frame in H. destruct H as [H _]. rewrite H. simpl.
  apply sorted_branches_count.
Qed.

Lemma one_ammeter_per_current_measurement_witness :
  _to_SPICE measured_short_circuit = Ok (spice_state_of (_to_SPICE measured_short_circuit)) /\
  vmeas_counter (spice_state_of (_to_SPICE measured_short_circuit)) = 1.
Proof.
  split; [vm_compute; reflexivity|].
  rewrite (one_ammeter_per_current_measurement measured_short_circuit
             (spice_state_of (_to_SPICE measured_short_circuit))).
  - vm_compute; reflexivity.
  - vm_compute; reflexivity.
Defined.

(** X7. When [_to_SPICE] returns, every branch has been given a device
    name of its own: the names in use are as many as the branches and
    pairwise distinct. *)
Theorem device_names_distinct : forall c st,
  _to_SPICE c = Ok st ->
  NoDup (used_device_names st) /\
  List.length (used_device_names st) = List.length (branches c).
Proof.
  intros c st H. unfold _to_SPICE in H. destruct (note_version c <=? 9)%Z; [discriminate|].
  apply spice_fold_frame in H. destruct H as [_ [H1 H2]]. split.
  - apply H2. constructor.
  - rewrite H1. simpl. apply (sorted_branches_count (fun _ => true)).
Qed.

Lemma device_names_distinct_witness :
  _to_SPICE measured_short_circuit = Ok (spice_state_of (_to_SPICE measured_short_circuit)) /\
  NoDup (used_device_names (spice_state_of (_to_SPICE measured_short_circuit))).
Proof.
  split; [vm_compute; reflexivity|].
  apply (device_names_distinct measured_short_circuit
           (spice_state_of (_to_SPICE measured_short_circuit))).
  vm_compute; reflexivity.
Defined.

(** ** The naming loop *)

Lemma str_injective : forall a b, str a = str b -> a = b.
Proof.
  intros a b H. unfold str in H.
  assert (N : forall z, Z.to_int z = Decimal.norm (Z.to_int z)).
  { intros z. rewrite <- DecimalZ.to_of, DecimalZ.of_to. reflexivity. }
  assert (P : forall z, NilZero.int_of_string (NilZero.string_of_int (Z.to_int z))
                        = Some (Z.to_int z)).
  { intros z. apply NilZero.isi; intros E; pose proof (N z) as Nz; rewrite E in Nz;
      discriminate Nz. }
  pose proof (P a) as Pa. rewrite H, P in Pa. inversion Pa as [E].
  rewrite <- (DecimalZ.of_to a), <- (DecimalZ.of_to b), E. reflexivity.
Qed.

Lemma append_cancel : forall p a b, String.append p a = String.append p b -> a = b.
Proof.
  induction p as [|ch p IH]; simpl; intros a b H; [exact H|]. inversion H. auto.
Qed.

Lemma suffixed_name_injective : forall ts ln a b,
  suffixed_name ts ln a = suffixed_name ts ln b -> a = b.
Proof.
  intros ts ln a b H. unfold suffixed_name in H.
  apply append_cancel in H. apply append_cancel in H. apply append_cancel in H.
  apply str_injective in H. apply Nat2Z.inj. exact H.
Qed.

Lemma counter_get_set : forall cc t v k,
  counter_get cc t = Some k -> counter_get (counter_set cc t v) t = Some v.
Proof.
  induction cc as [|[x w] cc IH]; intros t v k H; simpl in *; [discriminate|].
  destruct (component_eqb x t) eqn:E; simpl; rewrite E; [reflexivity|].
  apply (IH _ _ _ H).
Qed.

Lemma counter_get_set_other : forall cc t v u,
  (counter_get (counter_set cc t v) u = None <-> counter_get cc u = None).
Proof.
  induction cc as [|[x w] cc IH]; intros t v u; simpl; [tauto|].
  destruct (component_eqb x t) eqn:E; simpl.
  - destruct (component_eqb x u); [split; discriminate | tauto].
  - destruct (component_eqb x u); [split; discriminate | apply IH].
Qed.

Lemma naming_never_raises : forall fuel ts ln t name cc used k e,
  counter_get cc t = Some k ->
  unique_device_name fuel ts ln t name cc used <> Raise e.
Proof.
  induction fuel as [|fuel IH]; intros ts ln t name cc used k e Hk; simpl.
  - destruct (name_used name used); discriminate.
  - destruct (name_used name used); [|discriminate]. rewrite Hk.
    apply (IH _ _ _ _ _ _ (k + 1)). apply (counter_get_set _ _ _ _ Hk).
Qed.

Lemma naming_diverged_head : forall fuel ts ln t name cc used,
  unique_device_name fuel ts ln t name cc used = Diverged ->
  In name used.
Proof.
  intros fuel ts ln t name cc used H. apply name_used_spec.
  destruct (name_used name used) eqn:E; [reflexivity|].
  rewrite (unique_device_name_fresh fuel ts ln t name cc used E) in H. discriminate H.
Qed.

Lemma naming_diverged_all_used : forall fuel ts ln t name cc used k,
  counter_get cc t = Some k ->
  unique_device_name fuel ts ln t name cc used = Diverged ->
  forall i, 1 <= i <= fuel -> In (suffixed_name ts ln (k + i)) used.
Proof.
  induction fuel as [|fuel IH]; intros ts ln t name cc used k Hk H i Hi; [lia|].
  simpl in H. destruct (name_used name used); [|discriminate]. rewrite Hk in H.
  destruct (Nat.eq_dec i 1) as [->|Hne].
  - apply (naming_diverged_head _ _ _ _ _ _ _ H).
  - replace (k + i) with ((k + 1) + (i - 1)) by lia.
    apply (IH _ _ _ _ _ _ (k + 1) (counter_get_set _ _ _ _ Hk) H). lia.
Qed.

(** X8. The naming loop of [_to_SPICE] ends: for a branch whose type has
    a counter in [comp_counters], the loop returns within
    [len(used_device_names) + 1] rounds, the name it returns is not in
    use, and the counters keep their keys. *)
Theorem naming_loop_returns : forall ts ln t name cc used k,
  counter_get cc t = Some k ->
  exists name' cc',
    unique_device_name (S (List.length used)) ts ln t name cc used = Ok (name', cc') /\
    ~ In name' used /\
    forall u, counter_get cc' u = None <-> counter_get cc u = None.
Proof.
  intros ts ln t name cc used k Hk.
  destruct (unique_device_name (S (List.length used)) ts ln t name cc used)
    as [[name' cc']|e|] eqn:E.
  - exists name', cc'. split; [reflexivity|]. split.
    + apply name_unused_spec. apply (unique_device_name_unused _ _ _ _ _ _ _ _ _ E).
    + clear Hk. revert name cc E. generalize (S (List.length used)) as fuel.
      induction fuel as [|fuel IH]; intros name cc E u; simpl in E.
      * destruct (name_used name used); [discriminate|]. inversion E; subst. tauto.
      * destruct (name_used name used); [|inversion E; subst; tauto].
        destruct (counter_get cc t) as [k0|]; [|discriminate].
        rewrite (IH _ _ E u). apply counter_get_set_other.
  - exfalso. apply (naming_never_raises _ _ _ _ _ _ _ _ e Hk E).
  - exfalso.
    pose proof (naming_diverged_all_used _ _ _ _ _ _ _ _ Hk E) as Hall.
    assert (Hd : NoDup (map (fun i => suffixed_name ts ln (k + i))
                            (seq 1 (S (List.length used))))).
    { apply Injective_map_NoDup; [|apply seq_NoDup].
      intros a b Hab. apply suffixed_name_injective in Hab. lia. }
    assert (Hi : incl (map (fun i => suffixed_name ts ln (k + i))
                           (seq 1 (S (List.length used)))) used).
    { intros x Hx. apply in_map_iff in Hx. destruct Hx as [i [<- Hin]].
      apply in_seq in Hin. apply Hall. lia. }
    pose proof (NoDup_incl_length Hd Hi) as Hl.
    rewrite length_map, length_seq in Hl. lia.
Qed.

Lemma naming_loop_returns_witness :
  counter_get comp_counters_init TYPE_RESISTOR = Some 0 /\
  exists name' cc',
    unique_device_name 3 "R"%string 1 TYPE_RESISTOR "R1"%string comp_counters_init
                       ["R1"; "R1_1"]%string = Ok (name', cc') /\
    ~ In name' ["R1"; "R1_1"]%string.
Proof.
  split; [reflexivity|].
  destruct (naming_loop_returns "R"%string 1 TYPE_RESISTOR "R1"%string comp_counters_init
              ["R1"; "R1_1"]%string 0 eq_refl) as [name' [cc' [H1 [H2 _]]]].
  exists name', cc'. split; [exact H1 | exact H2].
Defined.

(** ** When the writer succeeds *)

Lemma Circuit_fields : forall note g ann rlc c,
  Circuit note g ann rlc = Ok c ->
  note_version c = note /\ the_grid c = g /\
  use_value_annotation c = ann /\ rlc_mode c = rlc.
Proof.
  intros note g ann rlc c H. unfold Circuit in H.
  destruct (_init_netlist note g _) as [nl|e|]; simpl in H; try discriminate.
  inversion H; subst; simpl. auto.
Qed.

Lemma length_one : forall (l : list branch), List.length l = 1 -> exists x, l = [x].
Proof.
  intros [|x [|y l]] H; try discriminate H. exists x. reflexivity.
Qed.

Lemma emit_branch_ok : forall ann an bs sorted br name st,
  (br_type br = TYPE_SHORT -> br_measure br = MEAS_TYPE_CURRENT) ->
  (type_in (br_type br) [TYPE_CCVS; TYPE_CCCS] = true ->
   List.length (control_matches MEAS_TYPE_CURRENT bs br) = 1) ->
  (type_in (br_type br) [TYPE_VCVS; TYPE_VCCS] = true ->
   List.length (control_matches MEAS_TYPE_VOLTAGE bs br) = 1) ->
  exists st', emit_branch ann an bs sorted br name st = Ok st'.
Proof.
  intros ann an bs sorted br name st Hs Hc Hv.
  unfold emit_branch, emit_short, emit_two_terminal, emit_current_controlled,
    emit_voltage_controlled.
  destruct (br_type br) eqn:Et;
    cbn [component_eqb component_code Nat.eqb type_in existsb negb orb andb bind] in *;
    try (destruct (meas_eqb (br_measure br) MEAS_TYPE_CURRENT); cbn [bind];
         eexists; reflexivity).
  - rewrite (Hs eq_refl). cbn [meas_eqb negb bind]. eexists; reflexivity.
  - destruct (length_one _ (Hv eq_refl)) as [x ->]. cbn [bind]. eexists; reflexivity.
  - destruct (length_one _ (Hv eq_refl)) as [x ->]. cbn [bind]. eexists; reflexivity.
  - destruct (length_one _ (Hc eq_refl)) as [x ->]. cbn [bind]. eexists; reflexivity.
  - destruct (length_one _ (Hc eq_refl)) as [x ->]. cbn [bind]. eexists; reflexivity.
Qed.

Lemma spice_fold_ok : forall ann an bs sorted l st0,
  (forall br, In br l ->
     (br_type br = TYPE_SHORT -> br_measure br = MEAS_TYPE_CURRENT) /\
     (type_in (br_type br) [TYPE_CCVS; TYPE_CCCS] = true ->
      List.length (control_matches MEAS_TYPE_CURRENT bs br) = 1) /\
     (type_in (br_type br) [TYPE_VCVS; TYPE_VCCS] = true ->
      List.length (control_matches MEAS_TYPE_VOLTAGE bs br) = 1)) ->
  NoDup (map initial_name l) ->
  (forall br, In br l -> ~ In (initial_name br) (used_device_names st0)) ->
  exists st,
    fold_left (fun acc br => st <- acc ;; spice_branch ann an bs sorted st br) l (Ok st0)
    = Ok st.
Proof.
  intros ann an bs sorted l. induction l as [|b l IH]; intros st0 Hl Hd Hu;
    cbn [fold_left].
  - exists st0. reflexivity.
  - assert (Hb : In b (b :: l)) by (left; reflexivity).
    destruct (Hl b Hb) as [H1 [H2 H3]].
    assert (E : exists st1, spice_branch ann an bs sorted st0 b = Ok st1 /\
                            used_device_names st1 = initial_name b :: used_device_names st0).
    { unfold spice_branch.
      rewrite (unique_device_name_fresh _ _ _ _ (initial_name b)).
      - cbn [bind fst snd].
        match goal with |- context [emit_branch ?a ?n ?x ?s ?r ?nm ?st] =>
          destruct (emit_branch_ok a n x s r nm st H1 H2 H3) as [st1 E1] end.
        exists st1. split; [exact E1|].
        apply emit_branch_frame in E1. destruct E1 as [_ [E1 _]]. exact E1.
      - apply name_unused_spec. apply Hu. exact Hb. }
    destruct E as [st1 [E1 E2]]. simpl. rewrite E1.
    inversion Hd as [|x xs Hnot Hd']; subst.
    apply IH.
    + intros br Hbr. apply Hl. right. exact Hbr.
    + exact Hd'.
    + intros br Hbr. rewrite E2. intros [Heq|Hin].
      * apply Hnot. rewrite Heq. apply in_map. exact Hbr.
      * apply (Hu br (or_intror Hbr)). exact Hin.
Qed.

(** X9. [_to_SPICE] returns a netlist, raising nothing, for every valid
    circuit of a note above v9 in which every current-controlled source
    is controlled by exactly one current measurement and no two branches
    start from the same device name. The other two assertions cannot
    fail: a short branch always carries a current measurement, and the
    validity check has bound every voltage-controlled source. *)
Theorem spice_generation_succeeds : forall note g ann rlc c,
  Circuit note g ann rlc = Ok c ->
  valid c = true ->
  (9 < note)%Z ->
  (forall br, In br (branches c) ->
     type_in (br_type br) [TYPE_CCVS; TYPE_CCCS] = true ->
     List.length (control_matches MEAS_TYPE_CURRENT (branches c) br) = 1) ->
  NoDup (map initial_name (branches c)) ->
  exists st, _to_SPICE c = Ok st.
Proof.
  intros note g ann rlc c H Hv Hn Hcc Hd. unfold _to_SPICE.
  destruct (Circuit_fields _ _ _ _ _ H) as [-> _].
  destruct (Z.leb_spec note 9); [lia|].
  pose proof (Circuit_ordered _ _ _ _ _ H) as Ho.
  assert (Es : sorted_branches (branches c) = branches c).
  { unfold sorted_branches. rewrite (sorted_ordered _ 0 [] Ho); [reflexivity|].
    intros x []. }
  rewrite Es. apply spice_fold_ok.
  - intros br Hbr. split; [|split].
    + apply (Circuit_short_current _ _ _ _ _ H br Hbr).
    + apply Hcc. exact Hbr.
    + intros _. apply (voltage_binding_checked _ _ _ _ _ br H Hv Hbr).
  - exact Hd.
  - intros br _ [].
Qed.

Lemma spice_generation_succeeds_witness :
  Circuit 11 labelled_grid false false = Ok labelled_circuit /\
  valid labelled_circuit = true /\
  NoDup (map initial_name (branches labelled_circuit)) /\
  exists st, _to_SPICE labelled_circuit = Ok st.
Proof.
  assert (Hd : NoDup (map initial_name (branches labelled_circuit))).
  { vm_compute. repeat constructor; simpl; intuition discriminate. }
  split; [vm_compute; reflexivity|]. split; [vm_compute; reflexivity|].
  split; [exact Hd|].
  apply (spice_generation_succeeds 11 labelled_grid false false labelled_circuit).
  - vm_compute; reflexivity.
  - vm_compute; reflexivity.
  - lia.
  - intros br Hbr Ht. exfalso. vm_compute in Hbr.
    destruct Hbr as [<-|[<-|[<-|[<-|[]]]]]; vm_compute in Ht; discriminate Ht.
  - exact Hd.
Defined.

(** X10. In a valid circuit every branch, whatever its type, has exactly
    one branch with a voltage measurement under its control label; for a
    VCVS or VCCS the writer therefore passes its assertion and names the
    two terminals of that branch as controlling nodes. *)
Theorem voltage_controlled_is_written : forall note g ann rlc c br,
  Circuit note g ann rlc = Ok c ->
  valid c = true ->
  In br (branches c) ->
  exists ctl,
    In ctl (branches c) /\
    br_measure ctl = MEAS_TYPE_VOLTAGE /\
    br_measure_label ctl = br_control_measure_label br /\
    (type_in (br_type br) [TYPE_VCVS; TYPE_VCCS] = true ->
     forall name st,
       emit_voltage_controlled ann (branches c) br name st
       = Ok (emit_controlled br name [str (br_n1 ctl); str (br_n2 ctl)]
                             (gain_value ann br TYPE_VCCS) st)).
Proof.
  intros note g ann rlc c br H Hv Hbr.
  destruct (length_one _ (voltage_binding_checked _ _ _ _ _ br H Hv Hbr)) as [ctl E].
  assert (Hin : In ctl (control_matches MEAS_TYPE_VOLTAGE (branches c) br))
    by (rewrite E; left; reflexivity).
  unfold control_matches in Hin. apply filter_In in Hin. destruct Hin as [Hin Hf].
  apply andb_true_iff in Hf. destruct Hf as [Hl Hm].
  exists ctl. split; [exact Hin|]. split; [apply meas_eqb_eq; exact Hm|].
  split; [apply Z.eqb_eq; exact Hl|].
  intros Ht name st. unfold emit_voltage_controlled. rewrite Ht, E. reflexivity.
Qed.

Lemma voltage_controlled_is_written_witness :
  Circuit 11 loop_grid false false = Ok loop_circuit /\
  valid loop_circuit = true /\
  In (nth 0 (branches loop_circuit) no_branch) (branches loop_circuit) /\
  exists ctl,
    In ctl (branches loop_circuit) /\
    br_measure ctl = MEAS_TYPE_VOLTAGE /\
    br_measure_label ctl = br_control_measure_label (nth 0 (branches loop_circuit) no_branch).
Proof.
  split; [vm_compute; reflexivity|]. split; [vm_compute; reflexivity|].
  split; [vm_compute; auto 10|].
  destruct (voltage_controlled_is_written 11 loop_grid false false loop_circuit
              (nth 0 (branches loop_circuit) no_branch))
    as [ctl [H1 [H2 [H3 _]]]].
  - vm_compute; reflexivity.
  - vm_compute; reflexivity.
  - vm_compute; auto 10.
  - exists ctl. auto.
Defined.
(** * Further properties of the constructor and of [gen_circuit] *)

(** ** When the constructor returns *)

Lemma netlist_fold_raise : forall note g gn l e,
  fold_left (netlist_cell note g gn) l (Raise e) = Raise e.
Proof.
  intros note g gn l e. induction l as [|c l IH]; [reflexivity|]. exact IH.
Qed.

Lemma cells_nonempty : forall g,
  0 < dim_m g -> 0 < dim_n g -> exists rest, cells g = (0, 0) :: rest.
Proof.
  intros g Hm Hn. unfold cells, range2.
  destruct (dim_m g) as [|m]; [lia|]. destruct (dim_n g) as [|n]; [lia|].
  simpl. eexists. reflexivity.
Qed.

Lemma Circuit_old_note : forall note g ann rlc,
  (note <= 9)%Z -> 0 < dim_m g -> 0 < dim_n g ->
  Circuit note g ann rlc = Raise NotImplementedError.
Proof.
  intros note g ann rlc Hn Hm Hd. unfold Circuit, _init_netlist.
  destruct (resolver_spec g) as [gn [k [-> _]]].
  destruct (cells_nonempty g Hm Hd) as [rest Ec].
  unfold assemble. rewrite Ec. cbn [fold_left]. unfold netlist_cell at 2.
  destruct (Z.leb_spec note 9); [|lia].
  rewrite netlist_fold_raise. reflexivity.
Qed.

Lemma default_Circuit_raises : default_Circuit = Raise NotImplementedError.
Proof. unfold default_Circuit. apply Circuit_old_note; simpl; lia. Qed.

(** X11. Notes up to v9 are not supported by the constructor: on a grid
    with at least one junction it raises [NotImplementedError]. This is
    also what [Circuit()] without arguments does, whose note is v1. *)
Theorem old_notes_raise : forall note g ann rlc,
  (note <= 9)%Z -> 0 < dim_m g -> 0 < dim_n g ->
  Circuit note g ann rlc = Raise NotImplementedError /\
  default_Circuit = Raise NotImplementedError.
Proof.
  intros note g ann rlc Hn Hm Hd. split.
  - apply Circuit_old_note; assumption.
  - apply default_Circuit_raises.
Qed.

Lemma old_notes_raise_witness :
  Circuit 9 loop_grid false false = Raise NotImplementedError.
Proof.
  apply (old_notes_raise 9 loop_grid false false); simpl; lia.
Defined.

Lemma netlist_cell_ok : forall note g gn s c,
  (9 < note)%Z ->
  (forall p, In p (positions g) -> open_only_if_absent (get_edge g p)) ->
  In c (cells g) ->
  exists s', netlist_cell note g gn (Ok s) c = Ok s'.
Proof.
  intros note g gn s [i j] Hn Ho Hc. apply in_cells in Hc. destruct Hc as [Hi Hj].
  simpl in Hi, Hj. unfold netlist_cell. destruct s as [bs k|bs]; [|eexists; reflexivity].
  destruct (Z.leb_spec note 9); [lia|]. cbn [fst snd].
  destruct ((j <? dim_n g - 1) && has_edge (hedge g i j)) eqn:Eh.
  - apply andb_true_iff in Eh. destruct Eh as [E1 E2]. apply Nat.ltb_lt in E1.
    assert (Hp : In (H_at i j) (positions g)).
    { unfold positions. apply in_or_app. right. apply in_hpositions. exists i, j. auto. }
    destruct (component_eqb (comp_type (hedge g i j)) TYPE_OPEN) eqn:Et.
    + apply component_eqb_eq in Et. pose proof (Ho _ Hp Et) as Hf. simpl in Hf.
      rewrite Hf in E2. discriminate E2.
    + cbn [bind]. destruct (add_edge _ _ _ bs k) as [bs1 k1|bs1];
        [destruct ((i <? dim_m g - 1) && has_edge (vedge g i j))|]; eexists; reflexivity.
  - cbn [bind]. destruct ((i <? dim_m g - 1) && has_edge (vedge g i j));
      eexists; reflexivity.
Qed.

Lemma assemble_ok : forall note g gn,
  (9 < note)%Z ->
  (forall p, In p (positions g) -> open_only_if_absent (get_edge g p)) ->
  exists s, assemble note g gn = Ok s.
Proof.
  intros note g gn Hn Ho. unfold assemble.
  assert (G : forall l s0, (forall c, In c l -> In c (cells g)) ->
                           exists s, fold_left (netlist_cell note g gn) l (Ok s0) = Ok s).
  { induction l as [|c l IH]; intros s0 Hl; cbn [fold_left].
    - exists s0. reflexivity.
    - destruct (netlist_cell_ok note g gn s0 c Hn Ho (Hl c (or_introl eq_refl))) as [s1 ->].
      apply IH. intros x Hx. apply Hl. right. exact Hx. }
  apply G. auto.
Qed.

Lemma Circuit_returns : forall note g ann rlc,
  (9 < note)%Z ->
  (forall p, In p (positions g) -> open_only_if_absent (get_edge g p)) ->
  exists c, Circuit note g ann rlc = Ok c.
Proof.
  intros note g ann rlc Hn Ho. unfold Circuit, _init_netlist.
  destruct (resolver_spec g) as [gn [k [-> _]]].
  destruct (assemble_ok note g gn Hn Ho) as [s ->]. cbn [bind].
  destruct s as [bs n|bs]; [|eexists; reflexivity].
  destruct (negb (control_check bs)); [eexists; reflexivity|].
  destruct (vs_neg_node_old bs); eexists; reflexivity.
Qed.

(** X12. For a note above v9 the constructor returns a circuit, raising
    nothing, on every grid none of whose present edges has type open; the
    flood fill that numbers the nodes always ends. *)
Theorem constructor_returns : forall note g ann rlc,
  (9 < note)%Z ->
  (forall p, In p (positions g) -> open_only_if_absent (get_edge g p)) ->
  exists c, Circuit note g ann rlc = Ok c.
Proof. exact Circuit_returns. Qed.

Lemma constructor_returns_witness :
  exists c, Circuit 11 dangling_grid false false = Ok c.
Proof.
  apply (constructor_returns 11 dangling_grid false false); [lia|].
  intros p Hp. vm_compute in Hp.
  destruct Hp as [<-|[<-|[<-|[<-|[]]]]]; unfold open_only_if_absent; vm_compute;
    intros H; try reflexivity; discriminate H.
Defined.

(** ** What the arm for note v11 hands to the constructor *)

Lemma all_edges_related : forall (R : edge -> edge -> Prop) (P : edge -> Prop) g g',
  (forall a b, R a b -> P a -> P b) ->
  related R g g' -> all_edges P g -> all_edges P g'.
Proof.
  intros R P g g' H [_ [_ HR]] Hg p. apply (H _ _ (HR p)). apply Hg.
Qed.

Lemma keeps_presence_open : forall a b,
  keeps_presence a b -> open_only_if_absent a -> open_only_if_absent b.
Proof.
  intros a b [Hh Ho] H. unfold open_only_if_absent in *. rewrite Hh, Ho. exact H.
Qed.

Lemma keeps_source_presence : forall a b, keeps_source a b -> keeps_presence a b.
Proof. intros a b [H _]. exact H. Qed.

Lemma sample_edge_open : forall d outer st p,
  all_edges open_only_if_absent (s_grid st) ->
  all_edges open_only_if_absent (s_grid (sample_edge d outer st p)).
Proof.
  intros d outer st p H. unfold sample_edge. fold (drawn_type d outer p).
  destruct (component_eqb (drawn_type d outer p) TYPE_OPEN) eqn:Eo; simpl.
  - apply all_edges_set; [exact H|]. unfold open_only_if_absent. reflexivity.
  - apply all_edges_set; [exact H|]. apply component_eqb_neq in Eo.
    unfold open_only_if_absent. simpl. intros E. contradiction.
Qed.

Lemma sample_fold_all_edges : forall (P : edge -> Prop) d,
  (forall outer st p, all_edges P (s_grid st) ->
                      all_edges P (s_grid (sample_edge d outer st p))) ->
  P blank_edge ->
  forall m n, all_edges P (s_grid (sample_edges d m n)).
Proof.
  intros P d Hstep Hb m n. unfold sample_edges.
  assert (H : forall (f : pos -> bool) l st,
            all_edges P (s_grid st) ->
            all_edges P (s_grid (fold_left (fun st p => sample_edge d (f p) st p) l st))).
  { intros f l. induction l as [|p l IH]; intros st Hst; simpl; [exact Hst|].
    apply IH. apply Hstep. exact Hst. }
  apply H. apply H. simpl. intros p. rewrite get_blank. exact Hb.
Qed.

Lemma sample_attempt_keeps : forall m n rlc d g,
  sample_attempt m n rlc d = Some g ->
  related keeps_source (s_grid (sample_edges d m n)) g.
Proof.
  intros m n rlc d g H. unfold sample_attempt in H.
  destruct (_ || _); [discriminate|]. destruct (_ || _); [discriminate|].
  inversion H; subst; clear H.
  assert (Hb : related keeps_source (s_grid (sample_edges d m n))
                 (bind_controls d (meas_label_stat (sample_edges d m n) MEAS_TYPE_CURRENT)
                    (IC_sources (sample_edges d m n))
                    (bind_controls d
                       (meas_label_stat (sample_edges d m n) MEAS_TYPE_VOLTAGE)
                       (VC_sources (sample_edges d m n)) (s_grid (sample_edges d m n))))).
  { eapply related_trans; [apply keeps_source_trans | apply bind_controls_keeps
                          | apply bind_controls_keeps]. }
  destruct rlc; [|exact Hb].
  eapply related_trans; [apply keeps_source_trans | exact Hb | apply ensure_reactive_keeps].
Qed.

Lemma enforce_constraints_keeps_presence : forall integrator rlc d g,
  related keeps_presence g (enforce_constraints integrator rlc d g).
Proof.
  intros integrator rlc d g. unfold enforce_constraints.
  assert (W : forall a b, related keeps_source a b -> related keeps_presence a b).
  { intros a b. apply related_weaken. apply keeps_source_presence. }
  assert (T : forall a b c, related keeps_presence a b -> related keeps_presence b c ->
                            related keeps_presence a c).
  { intros a b c. apply related_trans. apply keeps_presence_trans. }
  set (g1 := convert_current_sources d g).
  set (g2 := enforce_voltage_source d g1).
  set (g3 := reassign_unique_labels g2).
  assert (H3 : related keeps_presence g g3).
  { apply (T g g1); [apply W, convert_keeps|].
    apply (T g1 g2); [apply enforce_voltage_keeps_presence|]. apply W, reassign_keeps. }
  assert (H4 : related keeps_presence g
                 (if integrator then reassign_unique_labels (enforce_integrator d g3)
                  else g3)).
  { destruct integrator; [|exact H3].
    apply (T g g3); [exact H3|].
    apply (T g3 (enforce_integrator d g3)); [apply W, enforce_integrator_keeps|].
    apply W, reassign_keeps. }
  destruct rlc; [|exact H4].
  eapply T; [exact H4 | apply W, clear_keeps].
Qed.

Lemma sampled_grid_open : forall simple integrator rlc d g,
  sampled_grid simple integrator rlc d = Some g -> all_edges open_only_if_absent g.
Proof.
  intros simple integrator rlc d g H. unfold sampled_grid in H.
  destruct (grid_size simple d) as [m n].
  destruct (sample_loop m n rlc (attempts d)) as [g0|] eqn:E; [|discriminate].
  inversion H; subst.
  destruct (sample_loop_some _ _ _ _ _ E) as [a [_ Ea]].
  apply (all_edges_related keeps_presence open_only_if_absent g0);
    [apply keeps_presence_open | apply enforce_constraints_keeps_presence |].
  apply (all_edges_related keeps_presence open_only_if_absent (s_grid (sample_edges a m n)));
    [apply keeps_presence_open | |].
  - apply (related_weaken keeps_source keeps_presence); [apply keeps_source_presence|].
    apply (sample_attempt_keeps _ _ _ _ _ Ea).
  - apply sample_fold_all_edges; [apply sample_edge_open|].
    unfold open_only_if_absent. simpl. discriminate.
Qed.

(** X13. The arm of [gen_circuit] for note v11 never raises: whenever
    the sampling loop accepts a round of draws, the constructor is called
    on arrays in which every open edge is absent, and returns a circuit. *)
Theorem gen_circuit_v11_returns : forall symbolic simple integrator rlc d,
  (forall e, gen_circuit_v11 symbolic simple integrator rlc d <> Raise e) /\
  (forall g, sampled_grid simple integrator rlc d = Some g ->
             all_edges open_only_if_absent g /\
             exists c, gen_circuit_v11 symbolic simple integrator rlc d = Ok c).
Proof.
  intros symbolic simple integrator rlc d.
  assert (G : forall g, sampled_grid simple integrator rlc d = Some g ->
                        all_edges open_only_if_absent g /\
                        exists c, gen_circuit_v11 symbolic simple integrator rlc d = Ok c).
  { intros g Eg. pose proof (sampled_grid_open _ _ _ _ _ Eg) as Ho. split; [exact Ho|].
    unfold gen_circuit_v11. rewrite Eg. apply Circuit_returns; [lia|].
    intros p _. apply Ho. }
  split; [|exact G].
  intros e H. destruct (sampled_grid simple integrator rlc d) as [g|] eqn:Eg.
  - destruct (G g eq_refl) as [_ [c Ec]]. rewrite Ec in H. discriminate H.
  - unfold gen_circuit_v11 in H. rewrite Eg in H. discriminate H.
Qed.

Lemma gen_circuit_v11_returns_witness :
  sampled_grid false false false plain_draws
  = Some (grid_of (sampled_grid false false false plain_draws)) /\
  exists c, gen_circuit_v11 true false false false plain_draws = Ok c.
Proof.
  split; [vm_compute; reflexivity|].
  apply (proj2 (gen_circuit_v11_returns true false false false plain_draws)
               (grid_of (sampled_grid false false false plain_draws))).
  vm_compute; reflexivity.
Defined.
